(** * The orchestrator of a CDCL SAT solver with inprocessing

    A shallow embedding of [Solver] (solver.cpp): clause ingestion with the
    cleaning pipeline and the XOR cutting, the outer-to-inter admission, the
    renumbering maps, the inprocessing scheduler, the search driver loop and
    the greedy model minimiser; followed by the properties of that code.

    The state of the solver is a record that is passed explicitly; code that
    can throw or leave the process runs in a small outcome monad. The
    collaborators that the orchestrator only calls (propagation engine,
    occurrence simplifier, equivalence replacer, DRAT writer, the clock, ...)
    are the members of a class: every statement below holds whatever they do
    to the state. *)

From Stdlib Require Import ZArith NArith QArith Qround Lia List Bool.
From Stdlib Require Import String Ascii.
From stdpp Require Import base numbers strings option sorting list.

Set Default Proof Using "Type".

(* ===================================================================== *)
(** * Part I: the program *)
(* ===================================================================== *)

(** ** Solver types (solvertypes.h as the orchestrator uses it) *)

(** [uint32_t] arithmetic: the result is reduced modulo 2^32. *)
Definition u32 (x : N) : N := (x mod 2 ^ 32)%N.

(** Ternary truth value. *)
Inductive lbool : Type := l_True | l_False | l_Undef.

#[global] Instance lbool_eq_dec : EqDecision lbool.
Proof. solve_decision. Defined.

(** [lbool ^ bool]: flips a defined value, leaves [l_Undef]. *)
Definition lbool_xor (v : lbool) (b : bool) : lbool :=
  match v with
  | l_True => if b then l_False else l_True
  | l_False => if b then l_True else l_False
  | l_Undef => l_Undef
  end.

(** A literal is stored as [2*var + sign]. *)
Record Lit : Type := toLit { toInt : N }.

#[global] Instance Lit_eq_dec : EqDecision Lit.
Proof. solve_decision. Defined.

Definition mkLit (v : N) (sgn : bool) : Lit := toLit (2 * v + N.b2n sgn).
Definition var (l : Lit) : N := N.shiftr (toInt l) 1.
Definition sign (l : Lit) : bool := N.testbit (toInt l) 0.
(** [~l] *)
Definition lit_neg (l : Lit) : Lit := toLit (N.lxor (toInt l) 1).
(** [l ^ b] *)
Definition lit_xor (l : Lit) (b : bool) : Lit :=
  toLit (N.lxor (toInt l) (N.b2n b)).
#[global] Instance Lit_inhabited : Inhabited Lit := populate (toLit 0).

Definition Lit_eqb (a b : Lit) : bool := (toInt a =? toInt b)%N.
Definition Lit_ltb (a b : Lit) : bool := (toInt a <? toInt b)%N.
Definition Lit_leb (a b : Lit) : bool := (toInt a <=? toInt b)%N.

(** [std::sort] on literals. The order is total and two literals that compare
    equal are equal, so the sorted vector is determined by the input. *)
Fixpoint sort_insert (x : Lit) (l : list Lit) : list Lit :=
  match l with
  | [] => [x]
  | y :: l' => if Lit_leb x y then x :: y :: l' else y :: sort_insert x l'
  end.

Definition std_sort (l : list Lit) : list Lit := foldr sort_insert [] l.

(** The tag of a variable taken out of the active problem. *)
Inductive Removed : Type := Removed_none | elimed | replaced | decomposed.

#[global] Instance Removed_eq_dec : EqDecision Removed.
Proof. solve_decision. Defined.

Inductive Exn : Type := TooLongClauseError | TooManyVarsError.

(** A clause handle: the place of the clause in the arena. *)
Abbreviation ClOffset := nat.

(** ** Strategy strings *)

(** [std::isspace] *)
Definition is_space (c : ascii) : bool :=
  let n := nat_of_ascii c in (n =? 32) || ((9 <=? n) && (n <=? 13)).

Fixpoint drop_spaces (l : list ascii) : list ascii :=
  match l with
  | c :: l' => if is_space c then drop_spaces l' else l
  | [] => []
  end.

(** [trim]: the string without its leading and trailing white space. *)
Definition trim (s : string) : string :=
  string_of_list_ascii
    (rev (drop_spaces (rev (drop_spaces (list_ascii_of_string s))))).

(** [::tolower] on one character. *)
Definition tolower_ascii (c : ascii) : ascii :=
  let n := nat_of_ascii c in
  if (65 <=? n) && (n <=? 90) then ascii_of_nat (n + 32) else c.

(** [std::transform(.., ::tolower)] *)
Definition tolower (s : string) : string :=
  string_of_list_ascii (map tolower_ascii (list_ascii_of_string s)).

(** [s.substr(0, 3)] *)
Definition substr03 (s : string) : string := substring 0 3 s.

(** The pieces [std::getline(ss, token, ',')] reads from a stream: the text
    between the commas; nothing is read after a final comma. *)
Fixpoint getline_tokens (cur : list ascii) (l : list ascii) : list string :=
  match l with
  | [] => match cur with
          | [] => []
          | _ => [string_of_list_ascii (rev cur)]
          end
  | c :: l' =>
      if Ascii.eqb c "," then string_of_list_ascii (rev cur) :: getline_tokens [] l'
      else getline_tokens (c :: cur) l'
  end.

Definition tokens_of (strategy : string) : list string :=
  getline_tokens [] (list_ascii_of_string (strategy ++ ", ")).

(** What the header files fix and solver.cpp only uses. *)
Class Platform : Type := {
  (** the C++ type [double] with the operations the orchestrator applies *)
  double : Type;
  double_ltb : double → double → bool;
  double_max : double;                    (* numeric_limits<double>::max() *)
  double_pow : double → double → double;  (* std::pow *)
  double_min : double → double → double;  (* std::min on doubles *)
  double_mul : double → double → double;
  double_of_size_t : N → double;
  double_of_long : Z → double;
  long_of_double : double → Z;            (* the conversion (long)x *)
  (** the state of the collaborators *)
  Ext : Type;
  (** the variable index that stands for no variable *)
  var_Undef : N;
  (** the glue of a default-constructed [ClauseStats] *)
  default_glue : N;
  (** whether the build defines [USE_GAUSS] *)
  USE_GAUSS : bool
}.

Section Program.
Context `{PF : Platform}.

Definition lit_Undef : Lit := mkLit var_Undef false.

(** ** Clauses and the solver state *)

Record ClauseStats : Type := mkClauseStats {
  glue : N;
  which_red_array : N
}.

(** [ClauseStats()] *)
Definition ClauseStats_default : ClauseStats :=
  {| glue := default_glue; which_red_array := 2 |}.

Record Clause : Type := mkClause {
  cl_lits : list Lit;
  cl_red : bool;
  cl_stats : ClauseStats;
  cl_strengthened : bool
}.


(** An XOR constraint: its variables and its right-hand side. *)
Record Xor : Type := mkXor { xor_vars : list N; xor_rhs : bool }.

Record LitStats : Type := mkLitStats { irredLits : N; redLits : N }.

Record BinTriStats : Type := mkBinTriStats {
  irredBins : N; redBins : N; numNewBinsSinceSCC : N
}.

Record SolveStats : Type := mkSolveStats {
  numSimplify : N; num_solve_calls : N
}.

(** A watch list entry: a binary clause is stored as the other literal in the
    lists of both its literals; a long clause as its handle and a blocker. *)
Inductive Watched : Type :=
| WBin (lit2 : Lit) (red : bool)
| WLong (offset : ClOffset) (blocker : Lit).

(** *** The configuration and the state, with their field updates *)

Record SolverConf : Type := mkSolverConf {
  perform_occur_based_simp : bool;
  glue_put_lev0_if_below_or_eq : N;  (* unsigned *)
  glue_put_lev1_if_below_or_eq : N;  (* unsigned *)
  doStamp : bool;
  doCache : bool;
  doCompHandler : bool;
  doFindAndReplaceEqLits : bool;
  doStrSubImplicit : bool;
  doIntreeProbe : bool;
  doProbe : bool;
  do_distill_clauses : bool;
  doRenumberVars : bool;
  compVarLimit : N;
  handlerFromSimpNum : N;
  maxCacheSizeMB : N;
  maxConfl : Z;  (* long *)
  maxTime : double;
  num_conflicts_of_search : Z;  (* long long *)
  num_conflicts_of_search_inc : double;
  num_conflicts_of_search_inc_max : double;
  never_stop_search : bool;
  do_simplify_problem : bool;
  simplify_at_startup : bool;
  simplify_at_every_startup : bool;
  full_simplify_at_startup : bool;
  preprocess : N;
  burst_search_len : N;  (* uint64_t *)
  shortTermHistorySize : Z;
  global_timeout_multiplier : double;
  orig_global_timeout_multiplier : double;
  independent_vars : option (list N)  (* NULL or a vector of outside variables *)
}.

Definition conf_set_doStamp (x : bool) (c : SolverConf) : SolverConf :=
  {| perform_occur_based_simp := perform_occur_based_simp c;
     glue_put_lev0_if_below_or_eq := glue_put_lev0_if_below_or_eq c;
     glue_put_lev1_if_below_or_eq := glue_put_lev1_if_below_or_eq c;
     doStamp := x; doCache := doCache c; doCompHandler := doCompHandler c;
     doFindAndReplaceEqLits := doFindAndReplaceEqLits c;
     doStrSubImplicit := doStrSubImplicit c;
     doIntreeProbe := doIntreeProbe c; doProbe := doProbe c;
     do_distill_clauses := do_distill_clauses c;
     doRenumberVars := doRenumberVars c; compVarLimit := compVarLimit c;
     handlerFromSimpNum := handlerFromSimpNum c;
     maxCacheSizeMB := maxCacheSizeMB c; maxConfl := maxConfl c;
     maxTime := maxTime c;
     num_conflicts_of_search := num_conflicts_of_search c;
     num_conflicts_of_search_inc := num_conflicts_of_search_inc c;
     num_conflicts_of_search_inc_max := num_conflicts_of_search_inc_max c;
     never_stop_search := never_stop_search c;
     do_simplify_problem := do_simplify_problem c;
     simplify_at_startup := simplify_at_startup c;
     simplify_at_every_startup := simplify_at_every_startup c;
     full_simplify_at_startup := full_simplify_at_startup c;
     preprocess := preprocess c; burst_search_len := burst_search_len c;
     shortTermHistorySize := shortTermHistorySize c;
     global_timeout_multiplier := global_timeout_multiplier c;
     orig_global_timeout_multiplier := orig_global_timeout_multiplier c;
     independent_vars := independent_vars c |}.

Definition conf_set_doCache (x : bool) (c : SolverConf) : SolverConf :=
  {| perform_occur_based_simp := perform_occur_based_simp c;
     glue_put_lev0_if_below_or_eq := glue_put_lev0_if_below_or_eq c;
     glue_put_lev1_if_below_or_eq := glue_put_lev1_if_below_or_eq c;
     doStamp := doStamp c; doCache := x; doCompHandler := doCompHandler c;
     doFindAndReplaceEqLits := doFindAndReplaceEqLits c;
     doStrSubImplicit := doStrSubImplicit c;
     doIntreeProbe := doIntreeProbe c; doProbe := doProbe c;
     do_distill_clauses := do_distill_clauses c;
     doRenumberVars := doRenumberVars c; compVarLimit := compVarLimit c;
     handlerFromSimpNum := handlerFromSimpNum c;
     maxCacheSizeMB := maxCacheSizeMB c; maxConfl := maxConfl c;
     maxTime := maxTime c;
     num_conflicts_of_search := num_conflicts_of_search c;
     num_conflicts_of_search_inc := num_conflicts_of_search_inc c;
     num_conflicts_of_search_inc_max := num_conflicts_of_search_inc_max c;
     never_stop_search := never_stop_search c;
     do_simplify_problem := do_simplify_problem c;
     simplify_at_startup := simplify_at_startup c;
     simplify_at_every_startup := simplify_at_every_startup c;
     full_simplify_at_startup := full_simplify_at_startup c;
     preprocess := preprocess c; burst_search_len := burst_search_len c;
     shortTermHistorySize := shortTermHistorySize c;
     global_timeout_multiplier := global_timeout_multiplier c;
     orig_global_timeout_multiplier := orig_global_timeout_multiplier c;
     independent_vars := independent_vars c |}.

Definition conf_set_maxConfl (x : Z) (c : SolverConf) : SolverConf :=
  {| perform_occur_based_simp := perform_occur_based_simp c;
     glue_put_lev0_if_below_or_eq := glue_put_lev0_if_below_or_eq c;
     glue_put_lev1_if_below_or_eq := glue_put_lev1_if_below_or_eq c;
     doStamp := doStamp c; doCache := doCache c;
     doCompHandler := doCompHandler c;
     doFindAndReplaceEqLits := doFindAndReplaceEqLits c;
     doStrSubImplicit := doStrSubImplicit c;
     doIntreeProbe := doIntreeProbe c; doProbe := doProbe c;
     do_distill_clauses := do_distill_clauses c;
     doRenumberVars := doRenumberVars c; compVarLimit := compVarLimit c;
     handlerFromSimpNum := handlerFromSimpNum c;
     maxCacheSizeMB := maxCacheSizeMB c; maxConfl := x; maxTime := maxTime c;
     num_conflicts_of_search := num_conflicts_of_search c;
     num_conflicts_of_search_inc := num_conflicts_of_search_inc c;
     num_conflicts_of_search_inc_max := num_conflicts_of_search_inc_max c;
     never_stop_search := never_stop_search c;
     do_simplify_problem := do_simplify_problem c;
     simplify_at_startup := simplify_at_startup c;
     simplify_at_every_startup := simplify_at_every_startup c;
     full_simplify_at_startup := full_simplify_at_startup c;
     preprocess := preprocess c; burst_search_len := burst_search_len c;
     shortTermHistorySize := shortTermHistorySize c;
     global_timeout_multiplier := global_timeout_multiplier c;
     orig_global_timeout_multiplier := orig_global_timeout_multiplier c;
     independent_vars := independent_vars c |}.

Definition conf_set_maxTime (x : double) (c : SolverConf) : SolverConf :=
  {| perform_occur_based_simp := perform_occur_based_simp c;
     glue_put_lev0_if_below_or_eq := glue_put_lev0_if_below_or_eq c;
     glue_put_lev1_if_below_or_eq := glue_put_lev1_if_below_or_eq c;
     doStamp := doStamp c; doCache := doCache c;
     doCompHandler := doCompHandler c;
     doFindAndReplaceEqLits := doFindAndReplaceEqLits c;
     doStrSubImplicit := doStrSubImplicit c;
     doIntreeProbe := doIntreeProbe c; doProbe := doProbe c;
     do_distill_clauses := do_distill_clauses c;
     doRenumberVars := doRenumberVars c; compVarLimit := compVarLimit c;
     handlerFromSimpNum := handlerFromSimpNum c;
     maxCacheSizeMB := maxCacheSizeMB c; maxConfl := maxConfl c;
     maxTime := x; num_conflicts_of_search := num_conflicts_of_search c;
     num_conflicts_of_search_inc := num_conflicts_of_search_inc c;
     num_conflicts_of_search_inc_max := num_conflicts_of_search_inc_max c;
     never_stop_search := never_stop_search c;
     do_simplify_problem := do_simplify_problem c;
     simplify_at_startup := simplify_at_startup c;
     simplify_at_every_startup := simplify_at_every_startup c;
     full_simplify_at_startup := full_simplify_at_startup c;
     preprocess := preprocess c; burst_search_len := burst_search_len c;
     shortTermHistorySize := shortTermHistorySize c;
     global_timeout_multiplier := global_timeout_multiplier c;
     orig_global_timeout_multiplier := orig_global_timeout_multiplier c;
     independent_vars := independent_vars c |}.

Definition conf_set_burst_search_len (x : N) (c : SolverConf) : SolverConf :=
  {| perform_occur_based_simp := perform_occur_based_simp c;
     glue_put_lev0_if_below_or_eq := glue_put_lev0_if_below_or_eq c;
     glue_put_lev1_if_below_or_eq := glue_put_lev1_if_below_or_eq c;
     doStamp := doStamp c; doCache := doCache c;
     doCompHandler := doCompHandler c;
     doFindAndReplaceEqLits := doFindAndReplaceEqLits c;
     doStrSubImplicit := doStrSubImplicit c;
     doIntreeProbe := doIntreeProbe c; doProbe := doProbe c;
     do_distill_clauses := do_distill_clauses c;
     doRenumberVars := doRenumberVars c; compVarLimit := compVarLimit c;
     handlerFromSimpNum := handlerFromSimpNum c;
     maxCacheSizeMB := maxCacheSizeMB c; maxConfl := maxConfl c;
     maxTime := maxTime c;
     num_conflicts_of_search := num_conflicts_of_search c;
     num_conflicts_of_search_inc := num_conflicts_of_search_inc c;
     num_conflicts_of_search_inc_max := num_conflicts_of_search_inc_max c;
     never_stop_search := never_stop_search c;
     do_simplify_problem := do_simplify_problem c;
     simplify_at_startup := simplify_at_startup c;
     simplify_at_every_startup := simplify_at_every_startup c;
     full_simplify_at_startup := full_simplify_at_startup c;
     preprocess := preprocess c; burst_search_len := x;
     shortTermHistorySize := shortTermHistorySize c;
     global_timeout_multiplier := global_timeout_multiplier c;
     orig_global_timeout_multiplier := orig_global_timeout_multiplier c;
     independent_vars := independent_vars c |}.

Definition conf_set_global_timeout_multiplier (x : double) (c : SolverConf) : SolverConf :=
  {| perform_occur_based_simp := perform_occur_based_simp c;
     glue_put_lev0_if_below_or_eq := glue_put_lev0_if_below_or_eq c;
     glue_put_lev1_if_below_or_eq := glue_put_lev1_if_below_or_eq c;
     doStamp := doStamp c; doCache := doCache c;
     doCompHandler := doCompHandler c;
     doFindAndReplaceEqLits := doFindAndReplaceEqLits c;
     doStrSubImplicit := doStrSubImplicit c;
     doIntreeProbe := doIntreeProbe c; doProbe := doProbe c;
     do_distill_clauses := do_distill_clauses c;
     doRenumberVars := doRenumberVars c; compVarLimit := compVarLimit c;
     handlerFromSimpNum := handlerFromSimpNum c;
     maxCacheSizeMB := maxCacheSizeMB c; maxConfl := maxConfl c;
     maxTime := maxTime c;
     num_conflicts_of_search := num_conflicts_of_search c;
     num_conflicts_of_search_inc := num_conflicts_of_search_inc c;
     num_conflicts_of_search_inc_max := num_conflicts_of_search_inc_max c;
     never_stop_search := never_stop_search c;
     do_simplify_problem := do_simplify_problem c;
     simplify_at_startup := simplify_at_startup c;
     simplify_at_every_startup := simplify_at_every_startup c;
     full_simplify_at_startup := full_simplify_at_startup c;
     preprocess := preprocess c; burst_search_len := burst_search_len c;
     shortTermHistorySize := shortTermHistorySize c;
     global_timeout_multiplier := x;
     orig_global_timeout_multiplier := orig_global_timeout_multiplier c;
     independent_vars := independent_vars c |}.

Record Solver : Type := mkSolver {
  ok : bool;  (* false once the formula is refuted *)
  conf : SolverConf;
  nVars : N;  (* size of the inter namespace *)
  nVarsOuter : N;
  nVarsOutside : N;
  assigns : list lbool;  (* indexed by inter variable *)
  varData : list Removed;  (* varData[v].removed *)
  interToOuterMain : list N;
  outerToInterMain : list N;
  undef_must_set_vars : list bool;  (* indexed by outer variable *)
  cl_alloc : list Clause;  (* the arena; a ClOffset is an index into it *)
  longIrredCls : list ClOffset;
  longRedCls : list (list ClOffset);  (* one vector per retention tier *)
  litStats : LitStats;
  binTri : BinTriStats;
  xorclauses : list Xor;
  watches : list (list Watched);  (* indexed by literal *)
  trail : list Lit;
  zeroLevAssignsByCNF : N;
  finalCl_tmp : list Lit;
  sumConflicts : N;  (* uint64_t *)
  assumptionsSet : list bool;
  compHandler : bool;  (* compHandler != NULL *)
  occsimplifier : bool;  (* occsimplifier != NULL *)
  outside_assumptions : list Lit;
  full_model : list lbool;
  solveStats : SolveStats;
  model : list lbool;
  others : Ext  (* what the collaborators own *)
}.

Definition set_ok (x : bool) (s : Solver) : Solver :=
  {| ok := x; conf := conf s; nVars := nVars s; nVarsOuter := nVarsOuter s;
     nVarsOutside := nVarsOutside s; assigns := assigns s;
     varData := varData s; interToOuterMain := interToOuterMain s;
     outerToInterMain := outerToInterMain s;
     undef_must_set_vars := undef_must_set_vars s; cl_alloc := cl_alloc s;
     longIrredCls := longIrredCls s; longRedCls := longRedCls s;
     litStats := litStats s; binTri := binTri s; xorclauses := xorclauses s;
     watches := watches s; trail := trail s;
     zeroLevAssignsByCNF := zeroLevAssignsByCNF s;
     finalCl_tmp := finalCl_tmp s; sumConflicts := sumConflicts s;
     assumptionsSet := assumptionsSet s; compHandler := compHandler s;
     occsimplifier := occsimplifier s;
     outside_assumptions := outside_assumptions s;
     full_model := full_model s; solveStats := solveStats s;
     model := model s; others := others s |}.

Definition set_conf (x : SolverConf) (s : Solver) : Solver :=
  {| ok := ok s; conf := x; nVars := nVars s; nVarsOuter := nVarsOuter s;
     nVarsOutside := nVarsOutside s; assigns := assigns s;
     varData := varData s; interToOuterMain := interToOuterMain s;
     outerToInterMain := outerToInterMain s;
     undef_must_set_vars := undef_must_set_vars s; cl_alloc := cl_alloc s;
     longIrredCls := longIrredCls s; longRedCls := longRedCls s;
     litStats := litStats s; binTri := binTri s; xorclauses := xorclauses s;
     watches := watches s; trail := trail s;
     zeroLevAssignsByCNF := zeroLevAssignsByCNF s;
     finalCl_tmp := finalCl_tmp s; sumConflicts := sumConflicts s;
     assumptionsSet := assumptionsSet s; compHandler := compHandler s;
     occsimplifier := occsimplifier s;
     outside_assumptions := outside_assumptions s;
     full_model := full_model s; solveStats := solveStats s;
     model := model s; others := others s |}.

Definition set_nVars (x : N) (s : Solver) : Solver :=
  {| ok := ok s; conf := conf s; nVars := x; nVarsOuter := nVarsOuter s;
     nVarsOutside := nVarsOutside s; assigns := assigns s;
     varData := varData s; interToOuterMain := interToOuterMain s;
     outerToInterMain := outerToInterMain s;
     undef_must_set_vars := undef_must_set_vars s; cl_alloc := cl_alloc s;
     longIrredCls := longIrredCls s; longRedCls := longRedCls s;
     litStats := litStats s; binTri := binTri s; xorclauses := xorclauses s;
     watches := watches s; trail := trail s;
     zeroLevAssignsByCNF := zeroLevAssignsByCNF s;
     finalCl_tmp := finalCl_tmp s; sumConflicts := sumConflicts s;
     assumptionsSet := assumptionsSet s; compHandler := compHandler s;
     occsimplifier := occsimplifier s;
     outside_assumptions := outside_assumptions s;
     full_model := full_model s; solveStats := solveStats s;
     model := model s; others := others s |}.

Definition set_nVarsOuter (x : N) (s : Solver) : Solver :=
  {| ok := ok s; conf := conf s; nVars := nVars s; nVarsOuter := x;
     nVarsOutside := nVarsOutside s; assigns := assigns s;
     varData := varData s; interToOuterMain := interToOuterMain s;
     outerToInterMain := outerToInterMain s;
     undef_must_set_vars := undef_must_set_vars s; cl_alloc := cl_alloc s;
     longIrredCls := longIrredCls s; longRedCls := longRedCls s;
     litStats := litStats s; binTri := binTri s; xorclauses := xorclauses s;
     watches := watches s; trail := trail s;
     zeroLevAssignsByCNF := zeroLevAssignsByCNF s;
     finalCl_tmp := finalCl_tmp s; sumConflicts := sumConflicts s;
     assumptionsSet := assumptionsSet s; compHandler := compHandler s;
     occsimplifier := occsimplifier s;
     outside_assumptions := outside_assumptions s;
     full_model := full_model s; solveStats := solveStats s;
     model := model s; others := others s |}.

Definition set_assigns (x : list lbool) (s : Solver) : Solver :=
  {| ok := ok s; conf := conf s; nVars := nVars s;
     nVarsOuter := nVarsOuter s; nVarsOutside := nVarsOutside s;
     assigns := x; varData := varData s;
     interToOuterMain := interToOuterMain s;
     outerToInterMain := outerToInterMain s;
     undef_must_set_vars := undef_must_set_vars s; cl_alloc := cl_alloc s;
     longIrredCls := longIrredCls s; longRedCls := longRedCls s;
     litStats := litStats s; binTri := binTri s; xorclauses := xorclauses s;
     watches := watches s; trail := trail s;
     zeroLevAssignsByCNF := zeroLevAssignsByCNF s;
     finalCl_tmp := finalCl_tmp s; sumConflicts := sumConflicts s;
     assumptionsSet := assumptionsSet s; compHandler := compHandler s;
     occsimplifier := occsimplifier s;
     outside_assumptions := outside_assumptions s;
     full_model := full_model s; solveStats := solveStats s;
     model := model s; others := others s |}.

Definition set_varData (x : list Removed) (s : Solver) : Solver :=
  {| ok := ok s; conf := conf s; nVars := nVars s;
     nVarsOuter := nVarsOuter s; nVarsOutside := nVarsOutside s;
     assigns := assigns s; varData := x;
     interToOuterMain := interToOuterMain s;
     outerToInterMain := outerToInterMain s;
     undef_must_set_vars := undef_must_set_vars s; cl_alloc := cl_alloc s;
     longIrredCls := longIrredCls s; longRedCls := longRedCls s;
     litStats := litStats s; binTri := binTri s; xorclauses := xorclauses s;
     watches := watches s; trail := trail s;
     zeroLevAssignsByCNF := zeroLevAssignsByCNF s;
     finalCl_tmp := finalCl_tmp s; sumConflicts := sumConflicts s;
     assumptionsSet := assumptionsSet s; compHandler := compHandler s;
     occsimplifier := occsimplifier s;
     outside_assumptions := outside_assumptions s;
     full_model := full_model s; solveStats := solveStats s;
     model := model s; others := others s |}.

Definition set_interToOuterMain (x : list N) (s : Solver) : Solver :=
  {| ok := ok s; conf := conf s; nVars := nVars s;
     nVarsOuter := nVarsOuter s; nVarsOutside := nVarsOutside s;
     assigns := assigns s; varData := varData s; interToOuterMain := x;
     outerToInterMain := outerToInterMain s;
     undef_must_set_vars := undef_must_set_vars s; cl_alloc := cl_alloc s;
     longIrredCls := longIrredCls s; longRedCls := longRedCls s;
     litStats := litStats s; binTri := binTri s; xorclauses := xorclauses s;
     watches := watches s; trail := trail s;
     zeroLevAssignsByCNF := zeroLevAssignsByCNF s;
     finalCl_tmp := finalCl_tmp s; sumConflicts := sumConflicts s;
     assumptionsSet := assumptionsSet s; compHandler := compHandler s;
     occsimplifier := occsimplifier s;
     outside_assumptions := outside_assumptions s;
     full_model := full_model s; solveStats := solveStats s;
     model := model s; others := others s |}.

Definition set_outerToInterMain (x : list N) (s : Solver) : Solver :=
  {| ok := ok s; conf := conf s; nVars := nVars s;
     nVarsOuter := nVarsOuter s; nVarsOutside := nVarsOutside s;
     assigns := assigns s; varData := varData s;
     interToOuterMain := interToOuterMain s; outerToInterMain := x;
     undef_must_set_vars := undef_must_set_vars s; cl_alloc := cl_alloc s;
     longIrredCls := longIrredCls s; longRedCls := longRedCls s;
     litStats := litStats s; binTri := binTri s; xorclauses := xorclauses s;
     watches := watches s; trail := trail s;
     zeroLevAssignsByCNF := zeroLevAssignsByCNF s;
     finalCl_tmp := finalCl_tmp s; sumConflicts := sumConflicts s;
     assumptionsSet := assumptionsSet s; compHandler := compHandler s;
     occsimplifier := occsimplifier s;
     outside_assumptions := outside_assumptions s;
     full_model := full_model s; solveStats := solveStats s;
     model := model s; others := others s |}.

Definition set_undef_must_set_vars (x : list bool) (s : Solver) : Solver :=
  {| ok := ok s; conf := conf s; nVars := nVars s;
     nVarsOuter := nVarsOuter s; nVarsOutside := nVarsOutside s;
     assigns := assigns s; varData := varData s;
     interToOuterMain := interToOuterMain s;
     outerToInterMain := outerToInterMain s; undef_must_set_vars := x;
     cl_alloc := cl_alloc s; longIrredCls := longIrredCls s;
     longRedCls := longRedCls s; litStats := litStats s; binTri := binTri s;
     xorclauses := xorclauses s; watches := watches s; trail := trail s;
     zeroLevAssignsByCNF := zeroLevAssignsByCNF s;
     finalCl_tmp := finalCl_tmp s; sumConflicts := sumConflicts s;
     assumptionsSet := assumptionsSet s; compHandler := compHandler s;
     occsimplifier := occsimplifier s;
     outside_assumptions := outside_assumptions s;
     full_model := full_model s; solveStats := solveStats s;
     model := model s; others := others s |}.

Definition set_cl_alloc (x : list Clause) (s : Solver) : Solver :=
  {| ok := ok s; conf := conf s; nVars := nVars s;
     nVarsOuter := nVarsOuter s; nVarsOutside := nVarsOutside s;
     assigns := assigns s; varData := varData s;
     interToOuterMain := interToOuterMain s;
     outerToInterMain := outerToInterMain s;
     undef_must_set_vars := undef_must_set_vars s; cl_alloc := x;
     longIrredCls := longIrredCls s; longRedCls := longRedCls s;
     litStats := litStats s; binTri := binTri s; xorclauses := xorclauses s;
     watches := watches s; trail := trail s;
     zeroLevAssignsByCNF := zeroLevAssignsByCNF s;
     finalCl_tmp := finalCl_tmp s; sumConflicts := sumConflicts s;
     assumptionsSet := assumptionsSet s; compHandler := compHandler s;
     occsimplifier := occsimplifier s;
     outside_assumptions := outside_assumptions s;
     full_model := full_model s; solveStats := solveStats s;
     model := model s; others := others s |}.

Definition set_longIrredCls (x : list ClOffset) (s : Solver) : Solver :=
  {| ok := ok s; conf := conf s; nVars := nVars s;
     nVarsOuter := nVarsOuter s; nVarsOutside := nVarsOutside s;
     assigns := assigns s; varData := varData s;
     interToOuterMain := interToOuterMain s;
     outerToInterMain := outerToInterMain s;
     undef_must_set_vars := undef_must_set_vars s; cl_alloc := cl_alloc s;
     longIrredCls := x; longRedCls := longRedCls s; litStats := litStats s;
     binTri := binTri s; xorclauses := xorclauses s; watches := watches s;
     trail := trail s; zeroLevAssignsByCNF := zeroLevAssignsByCNF s;
     finalCl_tmp := finalCl_tmp s; sumConflicts := sumConflicts s;
     assumptionsSet := assumptionsSet s; compHandler := compHandler s;
     occsimplifier := occsimplifier s;
     outside_assumptions := outside_assumptions s;
     full_model := full_model s; solveStats := solveStats s;
     model := model s; others := others s |}.

Definition set_longRedCls (x : list (list ClOffset)) (s : Solver) : Solver :=
  {| ok := ok s; conf := conf s; nVars := nVars s;
     nVarsOuter := nVarsOuter s; nVarsOutside := nVarsOutside s;
     assigns := assigns s; varData := varData s;
     interToOuterMain := interToOuterMain s;
     outerToInterMain := outerToInterMain s;
     undef_must_set_vars := undef_must_set_vars s; cl_alloc := cl_alloc s;
     longIrredCls := longIrredCls s; longRedCls := x; litStats := litStats s;
     binTri := binTri s; xorclauses := xorclauses s; watches := watches s;
     trail := trail s; zeroLevAssignsByCNF := zeroLevAssignsByCNF s;
     finalCl_tmp := finalCl_tmp s; sumConflicts := sumConflicts s;
     assumptionsSet := assumptionsSet s; compHandler := compHandler s;
     occsimplifier := occsimplifier s;
     outside_assumptions := outside_assumptions s;
     full_model := full_model s; solveStats := solveStats s;
     model := model s; others := others s |}.

Definition set_litStats (x : LitStats) (s : Solver) : Solver :=
  {| ok := ok s; conf := conf s; nVars := nVars s;
     nVarsOuter := nVarsOuter s; nVarsOutside := nVarsOutside s;
     assigns := assigns s; varData := varData s;
     interToOuterMain := interToOuterMain s;
     outerToInterMain := outerToInterMain s;
     undef_must_set_vars := undef_must_set_vars s; cl_alloc := cl_alloc s;
     longIrredCls := longIrredCls s; longRedCls := longRedCls s;
     litStats := x; binTri := binTri s; xorclauses := xorclauses s;
     watches := watches s; trail := trail s;
     zeroLevAssignsByCNF := zeroLevAssignsByCNF s;
     finalCl_tmp := finalCl_tmp s; sumConflicts := sumConflicts s;
     assumptionsSet := assumptionsSet s; compHandler := compHandler s;
     occsimplifier := occsimplifier s;
     outside_assumptions := outside_assumptions s;
     full_model := full_model s; solveStats := solveStats s;
     model := model s; others := others s |}.

Definition set_binTri (x : BinTriStats) (s : Solver) : Solver :=
  {| ok := ok s; conf := conf s; nVars := nVars s;
     nVarsOuter := nVarsOuter s; nVarsOutside := nVarsOutside s;
     assigns := assigns s; varData := varData s;
     interToOuterMain := interToOuterMain s;
     outerToInterMain := outerToInterMain s;
     undef_must_set_vars := undef_must_set_vars s; cl_alloc := cl_alloc s;
     longIrredCls := longIrredCls s; longRedCls := longRedCls s;
     litStats := litStats s; binTri := x; xorclauses := xorclauses s;
     watches := watches s; trail := trail s;
     zeroLevAssignsByCNF := zeroLevAssignsByCNF s;
     finalCl_tmp := finalCl_tmp s; sumConflicts := sumConflicts s;
     assumptionsSet := assumptionsSet s; compHandler := compHandler s;
     occsimplifier := occsimplifier s;
     outside_assumptions := outside_assumptions s;
     full_model := full_model s; solveStats := solveStats s;
     model := model s; others := others s |}.

Definition set_xorclauses (x : list Xor) (s : Solver) : Solver :=
  {| ok := ok s; conf := conf s; nVars := nVars s;
     nVarsOuter := nVarsOuter s; nVarsOutside := nVarsOutside s;
     assigns := assigns s; varData := varData s;
     interToOuterMain := interToOuterMain s;
     outerToInterMain := outerToInterMain s;
     undef_must_set_vars := undef_must_set_vars s; cl_alloc := cl_alloc s;
     longIrredCls := longIrredCls s; longRedCls := longRedCls s;
     litStats := litStats s; binTri := binTri s; xorclauses := x;
     watches := watches s; trail := trail s;
     zeroLevAssignsByCNF := zeroLevAssignsByCNF s;
     finalCl_tmp := finalCl_tmp s; sumConflicts := sumConflicts s;
     assumptionsSet := assumptionsSet s; compHandler := compHandler s;
     occsimplifier := occsimplifier s;
     outside_assumptions := outside_assumptions s;
     full_model := full_model s; solveStats := solveStats s;
     model := model s; others := others s |}.

Definition set_watches (x : list (list Watched)) (s : Solver) : Solver :=
  {| ok := ok s; conf := conf s; nVars := nVars s;
     nVarsOuter := nVarsOuter s; nVarsOutside := nVarsOutside s;
     assigns := assigns s; varData := varData s;
     interToOuterMain := interToOuterMain s;
     outerToInterMain := outerToInterMain s;
     undef_must_set_vars := undef_must_set_vars s; cl_alloc := cl_alloc s;
     longIrredCls := longIrredCls s; longRedCls := longRedCls s;
     litStats := litStats s; binTri := binTri s; xorclauses := xorclauses s;
     watches := x; trail := trail s;
     zeroLevAssignsByCNF := zeroLevAssignsByCNF s;
     finalCl_tmp := finalCl_tmp s; sumConflicts := sumConflicts s;
     assumptionsSet := assumptionsSet s; compHandler := compHandler s;
     occsimplifier := occsimplifier s;
     outside_assumptions := outside_assumptions s;
     full_model := full_model s; solveStats := solveStats s;
     model := model s; others := others s |}.

Definition set_trail (x : list Lit) (s : Solver) : Solver :=
  {| ok := ok s; conf := conf s; nVars := nVars s;
     nVarsOuter := nVarsOuter s; nVarsOutside := nVarsOutside s;
     assigns := assigns s; varData := varData s;
     interToOuterMain := interToOuterMain s;
     outerToInterMain := outerToInterMain s;
     undef_must_set_vars := undef_must_set_vars s; cl_alloc := cl_alloc s;
     longIrredCls := longIrredCls s; longRedCls := longRedCls s;
     litStats := litStats s; binTri := binTri s; xorclauses := xorclauses s;
     watches := watches s; trail := x;
     zeroLevAssignsByCNF := zeroLevAssignsByCNF s;
     finalCl_tmp := finalCl_tmp s; sumConflicts := sumConflicts s;
     assumptionsSet := assumptionsSet s; compHandler := compHandler s;
     occsimplifier := occsimplifier s;
     outside_assumptions := outside_assumptions s;
     full_model := full_model s; solveStats := solveStats s;
     model := model s; others := others s |}.

Definition set_zeroLevAssignsByCNF (x : N) (s : Solver) : Solver :=
  {| ok := ok s; conf := conf s; nVars := nVars s;
     nVarsOuter := nVarsOuter s; nVarsOutside := nVarsOutside s;
     assigns := assigns s; varData := varData s;
     interToOuterMain := interToOuterMain s;
     outerToInterMain := outerToInterMain s;
     undef_must_set_vars := undef_must_set_vars s; cl_alloc := cl_alloc s;
     longIrredCls := longIrredCls s; longRedCls := longRedCls s;
     litStats := litStats s; binTri := binTri s; xorclauses := xorclauses s;
     watches := watches s; trail := trail s; zeroLevAssignsByCNF := x;
     finalCl_tmp := finalCl_tmp s; sumConflicts := sumConflicts s;
     assumptionsSet := assumptionsSet s; compHandler := compHandler s;
     occsimplifier := occsimplifier s;
     outside_assumptions := outside_assumptions s;
     full_model := full_model s; solveStats := solveStats s;
     model := model s; others := others s |}.

Definition set_finalCl_tmp (x : list Lit) (s : Solver) : Solver :=
  {| ok := ok s; conf := conf s; nVars := nVars s;
     nVarsOuter := nVarsOuter s; nVarsOutside := nVarsOutside s;
     assigns := assigns s; varData := varData s;
     interToOuterMain := interToOuterMain s;
     outerToInterMain := outerToInterMain s;
     undef_must_set_vars := undef_must_set_vars s; cl_alloc := cl_alloc s;
     longIrredCls := longIrredCls s; longRedCls := longRedCls s;
     litStats := litStats s; binTri := binTri s; xorclauses := xorclauses s;
     watches := watches s; trail := trail s;
     zeroLevAssignsByCNF := zeroLevAssignsByCNF s; finalCl_tmp := x;
     sumConflicts := sumConflicts s; assumptionsSet := assumptionsSet s;
     compHandler := compHandler s; occsimplifier := occsimplifier s;
     outside_assumptions := outside_assumptions s;
     full_model := full_model s; solveStats := solveStats s;
     model := model s; others := others s |}.

Definition set_assumptionsSet (x : list bool) (s : Solver) : Solver :=
  {| ok := ok s; conf := conf s; nVars := nVars s;
     nVarsOuter := nVarsOuter s; nVarsOutside := nVarsOutside s;
     assigns := assigns s; varData := varData s;
     interToOuterMain := interToOuterMain s;
     outerToInterMain := outerToInterMain s;
     undef_must_set_vars := undef_must_set_vars s; cl_alloc := cl_alloc s;
     longIrredCls := longIrredCls s; longRedCls := longRedCls s;
     litStats := litStats s; binTri := binTri s; xorclauses := xorclauses s;
     watches := watches s; trail := trail s;
     zeroLevAssignsByCNF := zeroLevAssignsByCNF s;
     finalCl_tmp := finalCl_tmp s; sumConflicts := sumConflicts s;
     assumptionsSet := x; compHandler := compHandler s;
     occsimplifier := occsimplifier s;
     outside_assumptions := outside_assumptions s;
     full_model := full_model s; solveStats := solveStats s;
     model := model s; others := others s |}.

Definition set_full_model (x : list lbool) (s : Solver) : Solver :=
  {| ok := ok s; conf := conf s; nVars := nVars s;
     nVarsOuter := nVarsOuter s; nVarsOutside := nVarsOutside s;
     assigns := assigns s; varData := varData s;
     interToOuterMain := interToOuterMain s;
     outerToInterMain := outerToInterMain s;
     undef_must_set_vars := undef_must_set_vars s; cl_alloc := cl_alloc s;
     longIrredCls := longIrredCls s; longRedCls := longRedCls s;
     litStats := litStats s; binTri := binTri s; xorclauses := xorclauses s;
     watches := watches s; trail := trail s;
     zeroLevAssignsByCNF := zeroLevAssignsByCNF s;
     finalCl_tmp := finalCl_tmp s; sumConflicts := sumConflicts s;
     assumptionsSet := assumptionsSet s; compHandler := compHandler s;
     occsimplifier := occsimplifier s;
     outside_assumptions := outside_assumptions s; full_model := x;
     solveStats := solveStats s; model := model s; others := others s |}.

Definition set_solveStats (x : SolveStats) (s : Solver) : Solver :=
  {| ok := ok s; conf := conf s; nVars := nVars s;
     nVarsOuter := nVarsOuter s; nVarsOutside := nVarsOutside s;
     assigns := assigns s; varData := varData s;
     interToOuterMain := interToOuterMain s;
     outerToInterMain := outerToInterMain s;
     undef_must_set_vars := undef_must_set_vars s; cl_alloc := cl_alloc s;
     longIrredCls := longIrredCls s; longRedCls := longRedCls s;
     litStats := litStats s; binTri := binTri s; xorclauses := xorclauses s;
     watches := watches s; trail := trail s;
     zeroLevAssignsByCNF := zeroLevAssignsByCNF s;
     finalCl_tmp := finalCl_tmp s; sumConflicts := sumConflicts s;
     assumptionsSet := assumptionsSet s; compHandler := compHandler s;
     occsimplifier := occsimplifier s;
     outside_assumptions := outside_assumptions s;
     full_model := full_model s; solveStats := x; model := model s;
     others := others s |}.

Definition set_model (x : list lbool) (s : Solver) : Solver :=
  {| ok := ok s; conf := conf s; nVars := nVars s;
     nVarsOuter := nVarsOuter s; nVarsOutside := nVarsOutside s;
     assigns := assigns s; varData := varData s;
     interToOuterMain := interToOuterMain s;
     outerToInterMain := outerToInterMain s;
     undef_must_set_vars := undef_must_set_vars s; cl_alloc := cl_alloc s;
     longIrredCls := longIrredCls s; longRedCls := longRedCls s;
     litStats := litStats s; binTri := binTri s; xorclauses := xorclauses s;
     watches := watches s; trail := trail s;
     zeroLevAssignsByCNF := zeroLevAssignsByCNF s;
     finalCl_tmp := finalCl_tmp s; sumConflicts := sumConflicts s;
     assumptionsSet := assumptionsSet s; compHandler := compHandler s;
     occsimplifier := occsimplifier s;
     outside_assumptions := outside_assumptions s;
     full_model := full_model s; solveStats := solveStats s; model := x;
     others := others s |}.

(** *** Derived updates *)

(** [uint64_t] arithmetic. *)
Definition u64 (x : N) : N := (x mod 2 ^ 64)%N.

Definition set_irredLits (x : N) (s : Solver) : Solver :=
  set_litStats {| irredLits := x; redLits := redLits (litStats s) |} s.
Definition set_redLits (x : N) (s : Solver) : Solver :=
  set_litStats {| irredLits := irredLits (litStats s); redLits := x |} s.

(** [v[i]] on a vector; the source never reads out of range, the default
    stands for the undefined read. *)
Definition at_N {A} `{Inhabited A} (l : list A) (i : N) : A := l !!! N.to_nat i.

(** [value(lit)]: [assigns[lit.var()] ^ lit.sign()] *)
Definition value_of (a : list lbool) (l : Lit) : lbool :=
  lbool_xor (default l_Undef (a !! N.to_nat (var l))) (sign l).
Definition value (s : Solver) (l : Lit) : lbool := value_of (assigns s) l.

(** [model_value(lit)] *)
Definition model_value_of (m : list lbool) (l : Lit) : lbool :=
  lbool_xor (default l_Undef (m !! N.to_nat (var l))) (sign l).

Definition removed_of (s : Solver) (v : N) : Removed :=
  default Removed_none (varData s !! N.to_nat v).

Definition map_inter_to_outer (s : Solver) (v : N) : N :=
  default 0%N (interToOuterMain s !! N.to_nat v).
Definition map_outer_to_inter_var (s : Solver) (v : N) : N :=
  default 0%N (outerToInterMain s !! N.to_nat v).
Definition map_outer_to_inter (s : Solver) (l : Lit) : Lit :=
  mkLit (map_outer_to_inter_var s (var l)) (sign l).
Definition renumber_outer_to_inter_lits (s : Solver) (ps : list Lit)
  : list Lit := map (map_outer_to_inter s) ps.

(** ** Outcomes: a call returns, throws, or leaves the process *)

Inductive Outcome (A : Type) : Type :=
| Ret (a : A) (s : Solver)      (* the call returns [a] *)
| Throw (e : Exn) (s : Solver)  (* an exception leaves the call *)
| Exit (code : Z)               (* [std::exit] *)
| OutOfFuel.                    (* a loop of the model was cut short *)
Arguments Ret {A} a s.
Arguments Throw {A} e s.
Arguments Exit {A} code.
Arguments OutOfFuel {A}.

Definition M (A : Type) : Type := Solver → Outcome A.

#[global] Instance M_ret : MRet M := λ A a s, Ret a s.
#[global] Instance M_bind : MBind M := λ A B k m s,
  match m s with
  | Ret a s' => k a s'
  | Throw e s' => Throw e s'
  | Exit c => Exit c
  | OutOfFuel => OutOfFuel
  end.

Definition get : M Solver := λ s, Ret s s.
Definition gets {A} (f : Solver → A) : M A := λ s, Ret (f s) s.
Definition modify (f : Solver → Solver) : M unit := λ s, Ret tt (f s).
Definition throw {A} (e : Exn) : M A := λ s, Throw e s.
Definition exit {A} (c : Z) : M A := λ _, Exit c.
Definition out_of_fuel {A} : M A := λ _, OutOfFuel.
(** a collaborator that answers and may change the state *)
Definition call {A} (f : Solver → A * Solver) : M A :=
  λ s, let '(a, s') := f s in Ret a s'.
Definition when (b : bool) (m : M unit) : M unit := if b then m else mret tt.

(** ** The collaborators

    Everything the orchestrator calls and does not define. A member that
    changes the solver is a function on the whole state. *)
Class Collab : Type := {
  (* propagation engine *)
  enqueue : Lit → Solver → Solver;
  propagate_isNULL : Solver → bool * Solver; (* propagate<true>().isNULL() *)
  PropEngine_attachClause : ClOffset → Solver → Solver;
  PropEngine_attach_bin_clause : Lit → Lit → bool → Solver → Solver;
  (* DRAT writer *)
  drat_enabled : Solver → bool;
  drat_add : list Lit → Solver → Solver;     (* *drat << ps << fin *)
  drat_del : list Lit → Solver → Solver;     (* *drat << del << ps << fin *)
  drat_fin : Solver → Solver;                (* *drat << fin *)
  (* shared-clause channel *)
  datasync_signalNewBinClause : list Lit → Solver → Solver;
  datasync_new_var : bool → Solver → Solver;
  (* occurrence simplifier *)
  getAnythingHasBeenBlocked : Solver → bool;
  uneliminate : N → Solver → bool * Solver;
  occsimplifier_new_var : N → Solver → Solver;
  (* equivalence replacer *)
  get_lit_replaced_with_outer : Solver → Lit → Lit;
  varReplacer_new_var : N → Solver → Solver;
  get_vars_replacing_others : Solver → list N;
  (* component handler *)
  readdRemovedClauses : Solver → Solver;
  compHandler_new_var : N → Solver → Solver;
  (* searcher *)
  Searcher_new_var : bool → N → Solver → Solver;
  (* outside to outer numbering of one literal *)
  map_to_with_bva : Solver → Lit → Lit;
  (* caches *)
  stamp_freeMem : Solver → Solver;
  implCache_free : Solver → Solver;
  implCache_clean : Solver → Solver;
  implCache_tryBoth : Solver → Solver;
  implCache_mem_used : Solver → N;
  (* the loop [while(setSomething) if (!implCache.clean(this, &setSomething))
     return false;] run to its end: [false] when a cleaning failed *)
  implCache_clean_to_fixpoint : Solver → bool * Solver;
  (* the environment: the clock and the interrupt flag *)
  cpuTime : Solver → double;
  must_interrupt_asap : Solver → bool;
  (* the simplifiers the scheduler dispatches to *)
  get_num_free_vars : Solver → N;
  find_components : Solver → Solver;
  compHandler_handle : Solver → Solver;
  (* varReplacer->replace_if_enough_is_found(floor(free_vars * 0.001)) *)
  replace_if_enough_is_found : Solver → Solver;
  subsume_implicit : Solver → Solver;
  intree_probe : Solver → Solver;
  prober_probe : Solver → Solver;
  distill_long_with_implicit : bool → Solver → Solver;
  distill_all_with_all : Solver → Solver;
  str_impl_w_impl_stamp : Solver → Solver;
  occsimplifier_simplify : bool → string → Solver → Solver;
  MatrixFinder_findMatrixes : Solver → bool * Solver;
  renumber_variables : bool → Solver → Solver;
  (* the searcher and the procedures around a search *)
  Searcher_solve : Z → N → Solver → lbool * Solver;
  Searcher_set_restart_params : Solver → Solver;
  conflict_clear : Solver → Solver;
  clear_gauss : Solver → Solver;
  check_recursive_minimization_effectiveness : lbool → Solver → Solver;
  check_minimization_effectiveness : lbool → Solver → Solver;
  (* sumSearchStats += ..; sumPropStats += ..; propStats.clear();
     Searcher::resetStats() *)
  fold_search_stats : Solver → Solver;
  check_too_many_low_glues : Solver → Solver;
  simplify_problem : bool → M lbool;
  rebuild_bva_map : Solver → Solver;
  set_assumptions : M unit;
  load_state : Solver → lbool * Solver;
  load_solution_from_file : Solver → lbool * Solver;
  sqlStats_finishup : lbool → Solver → Solver;
  cancelUntil_0 : Solver → Solver;
  remove_and_clean_all : Solver → Solver;
  save_state : lbool → Solver → Solver;
  dump_simplified_cnf : lbool → Solver → Solver;
  handle_found_solution : lbool → Solver → Solver;
  unfill_assumptions_set_from : Solver → Solver
}.

Context `{CO : Collab}.

(** ** Clause ingestion *)

(** The outcome of the scan of [sort_and_clean_clause]. *)
Inductive Scan : Type :=
| ScanSatisfied                 (* a literal is true at level 0 *)
| ScanTautology (p : Lit)       (* the literal after [p] is [~p] *)
| ScanKept (p : Lit) (kept : list Lit).

(** The scan over the sorted literals; [p] is the last literal retained and
    [kept] is [ps[0..j)]. *)
Fixpoint clean_scan (a : list lbool) (p : Lit) (kept rest : list Lit) : Scan :=
  match rest with
  | [] => ScanKept p kept
  | l :: rest' =>
      if decide (value_of a l = l_True) then ScanSatisfied
      else if decide (l = lit_neg p) then ScanTautology p
      else if decide (value_of a l ≠ l_False ∧ l ≠ p)
           then clean_scan a l (kept ++ [l]) rest'
           else clean_scan a p kept rest'
  end.

(** The marking of the tautology branch:
    [undef_must_set_vars[map_inter_to_outer(p.var())] = true], after growing
    the vector when it is too short. *)
Definition mark_must_set (p : Lit) (s : Solver) : Solver :=
  let v := map_inter_to_outer s (var p) in
  let vec := undef_must_set_vars s in
  let vec := if (N.of_nat (length vec) <? u32 (v + 1))%N
             then resize (N.to_nat (u32 (v + 1))) false vec else vec in
  set_undef_must_set_vars (<[N.to_nat v := true]> vec) s.

(** [sort_and_clean_clause]: [None] is the source's [false] (the clause is to
    be dropped), [Some ps] its [true] with the cleaned literals. *)
Definition sort_and_clean_clause (ps : list Lit) (red : bool)
  : M (option (list Lit)) :=
  s ← get;
  match clean_scan (assigns s) lit_Undef [] (std_sort ps) with
  | ScanSatisfied => mret None
  | ScanTautology p =>
      when (negb red) (modify (mark_must_set p));;
      mret None
  | ScanKept _ kept => mret (Some kept)
  end.

(** [std::swap(ps[0], ps[i])] *)
Definition swap_first (i : nat) (ps : list Lit) : list Lit :=
  match ps !! 0, ps !! i with
  | Some a, Some b => <[i := a]> (<[0 := b]> ps)
  | _, _ => ps
  end.

(** the index of the first occurrence of [x], the length when there is none *)
Fixpoint find_index (x : Lit) (ps : list Lit) : nat :=
  match ps with
  | [] => 0
  | y :: ps' => if decide (y = x) then 0 else S (find_index x ps')
  end.

(** [cl_alloc.Clause_new(ps, ...)]: a fresh irredundant clause at the end of
    the arena. *)
Definition Clause_new (ps : list Lit) : M ClOffset :=
  s ← get;
  modify (set_cl_alloc (cl_alloc s ++
    [{| cl_lits := ps; cl_red := false; cl_stats := ClauseStats_default;
        cl_strengthened := false |}]));;
  mret (length (cl_alloc s)).

Definition alter_clause (f : Clause → Clause) (off : ClOffset) : M unit :=
  modify (λ s, set_cl_alloc (alter f off (cl_alloc s)) s).

(** [c->makeRed(glue)] *)
Definition makeRed (g : N) (c : Clause) : Clause :=
  {| cl_lits := cl_lits c; cl_red := true;
     cl_stats := {| glue := g; which_red_array := which_red_array (cl_stats c) |};
     cl_strengthened := cl_strengthened c |}.

Definition set_stats (st : ClauseStats) (c : Clause) : Clause :=
  {| cl_lits := cl_lits c; cl_red := cl_red c; cl_stats := st;
     cl_strengthened := cl_strengthened c |}.

Definition set_which_red_array (w : N) (c : Clause) : Clause :=
  set_stats {| glue := glue (cl_stats c); which_red_array := w |} c.

Definition add_lit_count (red : bool) (n : nat) : M unit :=
  modify (λ s,
    if red then set_redLits (u64 (redLits (litStats s) + N.of_nat n)) s
    else set_irredLits (u64 (irredLits (litStats s) + N.of_nat n)) s).

(** [Solver::attachClause] *)
Definition attachClause (off : ClOffset) : M unit :=
  s ← get;
  match cl_alloc s !! off with
  | Some cl =>
      add_lit_count (cl_red cl) (length (cl_lits cl));;
      modify (PropEngine_attachClause off)
  | None => mret tt
  end.

(** [Solver::attach_bin_clause] *)
Definition attach_bin_clause (lit1 lit2 : Lit) (red : bool) : M unit :=
  modify (λ s,
    let b := binTri s in
    set_binTri
      {| irredBins := if red then irredBins b else u64 (irredBins b + 1);
         redBins := if red then u64 (redBins b + 1) else redBins b;
         numNewBinsSinceSCC := u64 (numNewBinsSinceSCC b + 1) |} s);;
  modify (PropEngine_attach_bin_clause lit1 lit2 red).

(** [add_clause_int]. [finalLits] tells whether the caller passed
    [&finalCl_tmp]; the result is the handle of the long clause made, if
    any. *)
Definition add_clause_int (lits : list Lit) (red : bool) (stats : ClauseStats)
    (attach_long : bool) (finalLits : bool) (addDrat : bool)
    (drat_first : Lit) : M (option ClOffset) :=
  cleaned ← sort_and_clean_clause lits red;
  match cleaned with
  | None => mret None
  | Some ps =>
      when finalLits (modify (set_finalCl_tmp ps));;
      when addDrat (
        let i := if decide (drat_first = lit_Undef) then 0
                 else find_index drat_first ps in
        modify (drat_add (swap_first i ps));;
        when (length ps =? 2) (modify (datasync_signalNewBinClause ps)));;
      match ps with
      | [] => modify (set_ok false);; mret None
      | [l] =>
          modify (enqueue l);;
          when attach_long (b ← call propagate_isNULL; modify (set_ok b));;
          mret None
      | [l1; l2] => attach_bin_clause l1 l2 red;; mret None
      | _ =>
          off ← Clause_new ps;
          when red (alter_clause (makeRed (glue stats)) off);;
          alter_clause (set_stats stats) off;;
          (if attach_long then attachClause off
           else add_lit_count red (length ps));;
          mret (Some off)
      end
  end.

(** *** New variables *)

Definition set_doStamp (b : bool) (s : Solver) : Solver :=
  set_conf (conf_set_doStamp b (conf s)) s.
Definition set_doCache (b : bool) (s : Solver) : Solver :=
  set_conf (conf_set_doCache b (conf s)) s.

Definition check_switchoff_limits_newvar (n : N) : M unit :=
  s ← get;
  when (doStamp (conf s) && (15000000 <? nVars s + n)%N)
    (modify (set_doStamp false);; modify stamp_freeMem);;
  s ← get;
  when (doCache (conf s) && (5000000 <? nVars s + n)%N)
    (modify (set_doCache false);; modify implCache_free).

(** [std::numeric_limits<uint32_t>::max()], the default [orig_outer] *)
Definition uint32_max : N := (2 ^ 32 - 1)%N.

Definition new_var (bva : bool) (orig_outer : N) : M unit :=
  check_switchoff_limits_newvar 1;;
  modify (Searcher_new_var bva orig_outer);;
  modify (varReplacer_new_var orig_outer);;
  s ← get;
  when (perform_occur_based_simp (conf s))
    (modify (occsimplifier_new_var orig_outer));;
  s ← get;
  when (compHandler s) (modify (compHandler_new_var orig_outer));;
  when (orig_outer =? uint32_max)%N (modify (datasync_new_var bva));;
  when bva (modify (λ s, set_assumptionsSet (assumptionsSet s ++ [false]) s)).

(** *** Outer-to-inter admission *)

(** The first loop of [addClauseHelper]: the variable check, the equivalence
    substitution and the allocation of missing inter variables, literal by
    literal. *)
Fixpoint addClauseHelper_update (ps : list Lit) : M (list Lit) :=
  match ps with
  | [] => mret []
  | lit :: rest =>
      s ← get;
      if (nVarsOuter s <=? var lit)%N then exit (-1)
      else
        let updated_lit := get_lit_replaced_with_outer s lit in
        when (nVars s <=? var (map_outer_to_inter s updated_lit))%N
          (new_var false (var updated_lit));;
        rest' ← addClauseHelper_update rest;
        mret (updated_lit :: rest')
  end.

(** The last loop of [addClauseHelper]: [false] as soon as an un-elimination
    fails. *)
Fixpoint addClauseHelper_uneliminate (ps : list Lit) : M bool :=
  match ps with
  | [] => mret true
  | lit :: rest =>
      s ← get;
      if perform_occur_based_simp (conf s)
         && bool_decide (removed_of s (var lit) = elimed)
      then
        call (uneliminate (var lit)) ≫= λ b : bool,
        if b then addClauseHelper_uneliminate rest else mret false
      else addClauseHelper_uneliminate rest
  end.

(** [addClauseHelper]: the answer and the literals as the call leaves them
    in [ps]. *)
Definition addClauseHelper (ps : list Lit) : M (bool * list Lit) :=
  s ← get;
  if negb (ok s) then mret (false, ps)
  else if (2 ^ 28 <? N.of_nat (length ps))%N then throw TooLongClauseError
  else
    ps ← addClauseHelper_update ps;
    ps ← gets (λ s, renumber_outer_to_inter_lits s ps);
    s ← get;
    when (compHandler s
          && existsb (λ lit, bool_decide (removed_of s (var lit) = decomposed)) ps)
      (modify readdRemovedClauses);;
    b ← addClauseHelper_uneliminate ps;
    mret (b, ps).

(** The tier a redundant clause is filed under (the end of [addClause]). *)
Definition tier_of (c : SolverConf) (g : N) : N :=
  if (g <=? glue_put_lev0_if_below_or_eq c)%N then 0%N
  else if (g <=? glue_put_lev1_if_below_or_eq c)%N
          && negb (glue_put_lev1_if_below_or_eq c =? 0)%N then 1%N
  else 2%N.

(** The end of [addClause]: the clause made, if any, is filed. *)
Definition addClause_file (cl : option ClOffset) (red : bool) : M unit :=
  match cl with
  | None => mret tt
  | Some offset =>
      if negb red
      then modify (λ s, set_longIrredCls (longIrredCls s ++ [offset]) s)
      else
        alter_clause (set_which_red_array 2) offset;;
        s ← get;
        let g := default 0%N (glue ∘ cl_stats <$> cl_alloc s !! offset) in
        let w := tier_of (conf s) g in
        alter_clause (set_which_red_array w) offset;;
        modify (λ s, set_longRedCls
                       (alter (λ v, v ++ [offset]) (N.to_nat w) (longRedCls s)) s)
  end.

Definition addClause (lits : list Lit) (red : bool) : M bool :=
  s ← get;
  if perform_occur_based_simp (conf s) && getAnythingHasBeenBlocked s
  then exit (-1)
  else
    let origTrailSize := length (trail s) in
    '(b, ps) ← addClauseHelper lits;
    if negb b then mret false
    else
      modify (set_finalCl_tmp []);;
      let ps := std_sort ps in
      cl ← add_clause_int ps red ClauseStats_default true true false lit_Undef;
      s ← get;
      when (drat_enabled s && negb (bool_decide (ps = finalCl_tmp s))) (
        when (negb (bool_decide (finalCl_tmp s = [])))
          (modify (drat_add (finalCl_tmp s)));;
        s ← get;
        when (negb (ok s)) (modify drat_fin);;
        modify (drat_del ps));;
      addClause_file cl red;;
      modify (λ s, set_zeroLevAssignsByCNF
        (u64 (zeroLevAssignsByCNF s + 2 ^ 64
              + N.of_nat (length (trail s)) - N.of_nat origTrailSize)) s);;
      gets ok.

(** *** The outer API *)

Fixpoint check_too_large_variable_number (lits : list Lit) : M unit :=
  match lits with
  | [] => mret tt
  | lit :: rest =>
      s ← get;
      if (nVarsOutside s <=? var lit)%N then exit (-1)
      else if (var_Undef <=? var lit)%N then exit (-1)
      else check_too_large_variable_number rest
  end.

(** [back_number_from_outside_to_outer]; its scratch vector is the result. *)
Definition back_number_from_outside_to_outer (s : Solver) (lits : list Lit)
  : list Lit := map (map_to_with_bva s) lits.

Definition add_clause_outer (lits : list Lit) (red : bool) : M bool :=
  s ← get;
  if negb (ok s) then mret false
  else
    check_too_large_variable_number lits;;
    tmp ← gets (λ s, back_number_from_outside_to_outer s lits);
    addClause tmp red.

(** *** XOR ingestion *)

(** [num_bits_set(x, max_size)]: the number of ones among the [max_size]
    low bits of [x]. *)
Definition num_bits_set (x : N) (max_size : nat) : nat :=
  length (filter (λ i, N.testbit x (N.of_nat i) = true) (seq 0 max_size)).

(** The clause of combination [i]: literal [at] is flipped when bit [at] of
    [i] is set. *)
Definition xor_combination (lits : list Lit) (i : N) : list Lit :=
  imap (λ at_ l, lit_xor l (N.testbit i (N.of_nat at_))) lits.

(** The loop of [add_xor_clause_inter_cleaned_cut] over the combinations
    still to visit. *)
Fixpoint cleaned_cut_loop (lits : list Lit) (attach addDrat : bool)
    (combs : list N) : M unit :=
  match combs with
  | [] => mret tt
  | i :: combs' =>
      if Nat.even (num_bits_set i (length lits))
      then cleaned_cut_loop lits attach addDrat combs'
      else
        cl ← add_clause_int (xor_combination lits i) false ClauseStats_default
               attach false addDrat lit_Undef;
        match cl with
        | Some off =>
            modify (λ s, set_longIrredCls (longIrredCls s ++ [off]) s)
        | None => mret tt
        end;;
        s ← get;
        if negb (ok s) then mret tt
        else cleaned_cut_loop lits attach addDrat combs'
  end.

Definition add_xor_clause_inter_cleaned_cut (lits : list Lit)
    (attach addDrat : bool) : M unit :=
  cleaned_cut_loop lits attach addDrat
    (map N.of_nat (seq 0 (2 ^ length lits))).

(** One pass of the loop of [add_every_combination_xor], from position [at_]
    with [lastlit_added] connecting to the cut before; [continue] is the rest
    of the loop. *)
Definition add_every_combination_xor_pass (lits : list Lit)
    (attach addDrat : bool) (at_ : nat) (lastlit_added : Lit)
    (continue : nat → Lit → M unit) : M unit :=
  if at_ =? length lits then mret tt
  else
    (* up to two literals *)
    let xorlits := take 2 (drop at_ lits) in
    let at_ := at_ + length xorlits in
    (* connect to the old cut, or take a third literal *)
    let '(xorlits, at_) :=
      if negb (bool_decide (lastlit_added = lit_Undef))
      then (xorlits ++ [lastlit_added], at_)
      else if at_ <? length lits then (xorlits ++ [lits !!! at_], S at_)
      else (xorlits, at_) in
    (* a single literal left over joins this cut *)
    let '(xorlits, at_) :=
      if S at_ =? length lits then (xorlits ++ [lits !!! at_], S at_)
      else (xorlits, at_) in
    (* a new variable connects to the next cut *)
    (if negb (at_ =? length lits)
     then
       new_var true uint32_max;;
       s ← get;
       let toadd := mkLit (u32 (nVars s + 2 ^ 32 - 1)) false in
       mret (xorlits ++ [toadd], toadd)
     else mret (xorlits, lastlit_added)) ≫= λ '(xorlits, lastlit_added),
    add_xor_clause_inter_cleaned_cut xorlits attach addDrat;;
    s ← get;
    if negb (ok s) then mret tt else continue at_ lastlit_added.

(** The loop. Every pass moves [at_] forward, so [fuel] = the number of
    literals is never used up (see [add_every_combination_xor_loop_fuel]). *)
Fixpoint add_every_combination_xor_loop (fuel : nat) (lits : list Lit)
    (attach addDrat : bool) (at_ : nat) (lastlit_added : Lit) : M unit :=
  match fuel with
  | 0 => if at_ =? length lits then mret tt else out_of_fuel
  | S fuel' =>
      add_every_combination_xor_pass lits attach addDrat at_ lastlit_added
        (add_every_combination_xor_loop fuel' lits attach addDrat)
  end.

Definition add_every_combination_xor (lits : list Lit)
    (attach addDrat : bool) : M unit :=
  add_every_combination_xor_loop (length lits) lits attach addDrat 0 lit_Undef.

(** The normalisation at the head of [add_xor_clause_inter]: signs are
    pulled into the right-hand side. *)
Fixpoint xor_pull_signs (lits : list Lit) (rhs : bool) : list Lit * bool :=
  match lits with
  | [] => ([], rhs)
  | lit :: rest =>
      let '(lit, rhs) := if sign lit then (lit_xor lit true, xorb rhs true)
                         else (lit, rhs) in
      let '(rest, rhs) := xor_pull_signs rest rhs in
      (lit :: rest, rhs)
  end.

(** The scan of [add_xor_clause_inter] over the sorted literals: a repeated
    variable cancels the literal kept last, an assigned one folds into the
    right-hand side. ([j--] on an empty prefix is undefined in the source and
    leaves the prefix empty here.) *)
Fixpoint xor_scan (a : list lbool) (p : Lit) (kept : list Lit) (rhs : bool)
    (rest : list Lit) : list Lit * bool :=
  match rest with
  | [] => (kept, rhs)
  | l :: rest' =>
      if decide (var l = var p) then
        xor_scan a lit_Undef (removelast kept)
          (if decide (value_of a l = l_Undef) then rhs
           else xorb rhs (bool_decide (value_of a l = l_True))) rest'
      else if decide (value_of a l = l_Undef) then
        xor_scan a l (kept ++ [l]) rhs rest'
      else
        xor_scan a p kept (xorb rhs (bool_decide (value_of a l = l_True))) rest'
  end.

(** The literals and right-hand side [add_xor_clause_inter] is left with
    after its cleaning. *)
Definition xor_cleaned (s : Solver) (lits : list Lit) (rhs : bool)
  : list Lit * bool :=
  let '(ps, rhs) := xor_pull_signs lits rhs in
  xor_scan (assigns s) lit_Undef [] rhs (std_sort ps).

Definition add_xor_clause_inter (lits : list Lit) (rhs : bool)
    (attach addDrat : bool) : M bool :=
  s ← get;
  let '(ps, rhs) := xor_cleaned s lits rhs in
  if (2 ^ 28 <=? N.of_nat (length ps))%N then throw TooLongClauseError
  else
    match ps with
    | [] =>
        when rhs (modify drat_fin;; modify (set_ok false));;
        gets ok
    | p0 :: ps' =>
        when (2 <? length ps) (modify (λ s,
          set_xorclauses (xorclauses s ++ [mkXor (map var ps) rhs]) s));;
        add_every_combination_xor (lit_xor p0 rhs :: ps') attach addDrat;;
        gets ok
    end.

Definition add_xor_clause_outer (vars : list N) (rhs : bool) : M bool :=
  s ← get;
  if negb (ok s) then mret false
  else
    let lits := map (λ v, mkLit v false) vars in
    check_too_large_variable_number lits;;
    tmp ← gets (λ s, back_number_from_outside_to_outer s lits);
    '(_, tmp) ← addClauseHelper tmp;
    add_xor_clause_inter tmp rhs true false;;
    gets ok.

(** ** The inprocessing scheduler *)

(** [(uint64_t)x] for a [long] and [(long)x] for a [uint64_t] *)
Definition u64_of_long (z : Z) : N := Z.to_N (z mod 2 ^ 64).
Definition long_of_u64 (x : N) : Z :=
  if (x <? 2 ^ 63)%N then Z.of_N x else (Z.of_N x - 2 ^ 64)%Z.

(** The condition of the two budget checks of [execute_inprocess_strategy]:
    the conflicts have reached [maxConfl], or the CPU time exceeds [maxTime],
    or an interrupt is asked for, or no variable is left, or [ok] is false. *)
Definition budget_exhausted (s : Solver) : bool :=
  (u64_of_long (maxConfl (conf s)) <=? sumConflicts s)%N
  || double_ltb (maxTime (conf s)) (cpuTime s)
  || must_interrupt_asap s
  || (nVars s =? 0)%N
  || negb (ok s).

(** How one turn of the token loop ends: the loop goes on, with the buffer of
    [occ-] tokens, or the function returns. *)
Inductive Step : Type :=
| Continue (occ_strategy_tokens : string)
| Return (b : bool).

(** The buffered [occ-] tokens are executed as one strategy. *)
Definition flush_occ (startup : bool) (occ_strategy_tokens : string)
  : M unit :=
  s ← get;
  when (perform_occur_based_simp (conf s) && occsimplifier s) (
    let occ := trim occ_strategy_tokens in
    modify (occsimplifier_simplify startup occ);;
    s ← get;
    when (ok s && bool_decide (occ = "occ-gauss,") && USE_GAUSS)
      (call MatrixFinder_findMatrixes ≫= λ _ : bool, mret tt)).

Definition set_numSimplify (x : N) (s : Solver) : Solver :=
  set_solveStats {| numSimplify := x;
                    num_solve_calls := num_solve_calls (solveStats s) |} s.
Definition set_num_solve_calls (x : N) (s : Solver) : Solver :=
  set_solveStats {| numSimplify := numSimplify (solveStats s);
                    num_solve_calls := x |} s.

(** The execution of one token (trimmed and in lower case). *)
Definition dispatch_token (token occ_strategy_tokens : string) : M Step :=
  let continue := mret (Continue occ_strategy_tokens) in
  s ← get;
  if bool_decide (token = "find-comps") then
    when (get_num_free_vars s <? compVarLimit (conf s))%N
      (modify find_components);; continue
  else if bool_decide (token = "handle-comps") then
    when (compHandler s && doCompHandler (conf s)
          && (get_num_free_vars s <? compVarLimit (conf s))%N
          && (handlerFromSimpNum (conf s) <=? numSimplify (solveStats s))%N
          && (numSimplify (solveStats s) mod 2 =? 0)%N)
      (modify compHandler_handle);; continue
  else if bool_decide (token = "scc-vrepl") then
    when (doFindAndReplaceEqLits (conf s))
      (modify replace_if_enough_is_found);; continue
  else if bool_decide (token = "cache-clean") then
    when (doCache (conf s)) (modify implCache_clean);; continue
  else if bool_decide (token = "cache-tryboth") then
    when (doCache (conf s)) (modify implCache_tryBoth);; continue
  else if bool_decide (token = "sub-impl") then
    when (doStrSubImplicit (conf s)) (modify subsume_implicit);; continue
  else if bool_decide (token = "intree-probe") then
    when (doIntreeProbe (conf s)) (modify intree_probe);; continue
  else if bool_decide (token = "probe") then
    when (doProbe (conf s)) (modify prober_probe);; continue
  else if bool_decide (token = "sub-str-cls-with-bin") then
    when (do_distill_clauses (conf s))
      (modify (distill_long_with_implicit true));; continue
  else if bool_decide (token = "distill-cls") then
    when (do_distill_clauses (conf s)) (modify distill_all_with_all);;
    continue
  else if bool_decide (token = "str-impl") then
    when (doStrSubImplicit (conf s)) (modify str_impl_w_impl_stamp);;
    continue
  else if bool_decide (token = "check-cache-size") then
    when (doCache (conf s)
          && (maxCacheSizeMB (conf s)
              <? implCache_mem_used s `div` (1024 * 1024))%N)
      (modify implCache_free;; modify (set_doCache false));; continue
  else if bool_decide (token = "renumber")
          || bool_decide (token = "must-renumber") then
    if doRenumberVars (conf s) then
      (if doCache (conf s) then call implCache_clean_to_fixpoint
       else mret true) ≫= λ cleaned : bool,
      if cleaned then
        modify (renumber_variables (bool_decide (token = "must-renumber")));;
        continue
      else mret (Return false)
    else continue
  else if bool_decide (token = "") then continue
  else if bool_decide (substr03 token = "occ") then
    mret (Continue (occ_strategy_tokens ++ token ++ ", "))
  else exit (-1).

(** The token loop of [execute_inprocess_strategy], over the tokens still to
    read. [flush] executes the buffered [occ-] tokens and [dispatch] one
    token. *)
Fixpoint execute_tokens_with (flush : bool → string → M unit)
    (dispatch : string → string → M Step) (startup : bool)
    (tokens : list string) (occ_strategy_tokens : string) : M bool :=
  match tokens with
  | [] => gets ok
  | token :: rest =>
      s ← get;
      if budget_exhausted s then mret (ok s)
      else
        let token := tolower (trim token) in
        (if negb (bool_decide (occ_strategy_tokens = ""))
            && negb (bool_decide (substr03 token = "occ"))
         then
           flush startup occ_strategy_tokens;;
           s ← get;
           mret (if budget_exhausted s then Return (ok s) else Continue "")
         else mret (Continue occ_strategy_tokens)) ≫= λ st,
        match st with
        | Return b => mret b
        | Continue occ =>
            st ← dispatch token occ;
            match st with
            | Return b => mret b
            | Continue occ =>
                s ← get;
                if negb (ok s) then mret (ok s)
                else execute_tokens_with flush dispatch startup rest occ
            end
        end
  end.

Definition execute_inprocess_strategy (startup : bool) (strategy : string)
  : M bool :=
  execute_tokens_with flush_occ dispatch_token startup (tokens_of strategy) "".

(** ** The search driver *)

Definition calc_num_confl_to_do_this_iter (s : Solver) (iteration_num : N)
  : Z :=
  let mult := double_pow (num_conflicts_of_search_inc (conf s))
                (double_of_size_t iteration_num) in
  let mult := double_min mult (num_conflicts_of_search_inc_max (conf s)) in
  let num_conflicts_of_search :=
    long_of_double
      (double_mul (double_of_long (num_conflicts_of_search (conf s))) mult) in
  let num_conflicts_of_search :=
    if never_stop_search (conf s) then 500000000%Z
    else num_conflicts_of_search in
  Z.min num_conflicts_of_search
    (maxConfl (conf s) - long_of_u64 (sumConflicts s)).

Definition set_burst_search_len (x : N) (s : Solver) : Solver :=
  set_conf (conf_set_burst_search_len x (conf s)) s.

(** The guard of the loop of [iterate_until_solved]. *)
Definition search_may_continue (s : Solver) (status : lbool) : bool :=
  bool_decide (status = l_Undef)
  && negb (must_interrupt_asap s)
  && double_ltb (cpuTime s) (maxTime (conf s))
  && (sumConflicts s <? u64_of_long (maxConfl (conf s)))%N.

(** The test "over the limit" after a search. *)
Definition over_the_limit (s : Solver) : bool :=
  (u64_of_long (maxConfl (conf s)) <=? sumConflicts s)%N
  || double_ltb (maxTime (conf s)) (cpuTime s)
  || must_interrupt_asap s.

(** The loop of [iterate_until_solved]; [search] is [Searcher::solve]. The
    searcher decides how long the loop runs, so the model takes [fuel]. *)
Fixpoint iterate_loop_with (search : Z → N → Solver → lbool * Solver)
    (fuel : nat) (backup_burst_len iteration_num : N) (status : lbool)
  : M lbool :=
  s ← get;
  if negb (search_may_continue s status) then mret status
  else
    match fuel with
    | 0 => out_of_fuel
    | S fuel' =>
        let iteration_num := u64 (iteration_num + 1) in
        when (2 <=? iteration_num)%N
          (modify (set_burst_search_len backup_burst_len));;
        s ← get;
        let num_confl := calc_num_confl_to_do_this_iter s iteration_num in
        if (num_confl <=? 0)%Z then mret status
        else
          call (search num_confl iteration_num) ≫= λ status : lbool,
          modify clear_gauss;;
          modify (check_recursive_minimization_effectiveness status);;
          modify (check_minimization_effectiveness status);;
          modify fold_search_stats;;
          modify check_too_many_low_glues;;
          if negb (bool_decide (status = l_Undef)) then mret status
          else
            s ← get;
            if over_the_limit s then mret status
            else
              (if do_simplify_problem (conf s) then simplify_problem false
               else mret status) ≫= λ status : lbool,
              iterate_loop_with search fuel' backup_burst_len iteration_num
                status
    end.

Definition iterate_until_solved_with
    (search : Z → N → Solver → lbool * Solver) (fuel : nat) : M lbool :=
  s ← get;
  let backup_burst_len := burst_search_len (conf s) in
  modify (set_burst_search_len 0);;
  status ← iterate_loop_with search fuel backup_burst_len 0 l_Undef;
  modify clear_gauss;;
  modify (set_burst_search_len backup_burst_len);;
  mret status.

Definition iterate_until_solved (fuel : nat) : M lbool :=
  iterate_until_solved_with Searcher_solve fuel.

Definition check_config_parameters : M unit :=
  s ← get;
  if (maxConfl (conf s) <? 0)%Z then exit (-1)
  else if (shortTermHistorySize (conf s) <=? 0)%Z then exit (-1)
  else mret tt.

(** [std::numeric_limits<long>::max()] *)
Definition LONG_MAX : Z := (2 ^ 63 - 1)%Z.

Definition set_maxConfl (x : Z) (s : Solver) : Solver :=
  set_conf (conf_set_maxConfl x (conf s)) s.
Definition set_maxTime (x : double) (s : Solver) : Solver :=
  set_conf (conf_set_maxTime x (conf s)) s.

(** [solve()] up to the label [end]: the status reached. *)
Definition solve_until_end (fuel : nat) : M lbool :=
  s ← get;
  if negb (ok s) then mret l_False
  else
    modify rebuild_bva_map;;
    set_assumptions;;
    s ← get;
    (if (preprocess (conf s) =? 2)%N then
       call load_state ≫= λ status : lbool,
       if negb (bool_decide (status = l_False)) then
         modify (λ s, set_model (assigns s) s);;
         call load_solution_from_file ≫= λ status : lbool,
         modify (λ s, set_full_model (model s) s);;
         mret status
       else mret status
     else mret l_Undef) ≫= λ status : lbool,
    s ← get;
    (if bool_decide (status = l_Undef)
        && negb (nVars s =? 0)%N
        && do_simplify_problem (conf s)
        && simplify_at_startup (conf s)
        && ((numSimplify (solveStats s) =? 0)%N
            || simplify_at_every_startup (conf s))
     then simplify_problem (negb (full_simplify_at_startup (conf s)))
     else mret status) ≫= λ status : lbool,
    s ← get;
    if bool_decide (status = l_Undef) && (preprocess (conf s) =? 0)%N then
      (if USE_GAUSS then
         modify clear_gauss;;
         call MatrixFinder_findMatrixes ≫= λ b : bool,
         modify (set_ok b);;
         mret b
       else mret true) ≫= λ found : bool,
      if negb found then mret l_False
      else iterate_until_solved fuel
    else mret status.

Definition solve (fuel : nat) : M lbool :=
  modify (λ s, set_num_solve_calls (u64 (num_solve_calls (solveStats s) + 1)) s);;
  modify conflict_clear;;
  check_config_parameters;;
  modify Searcher_set_restart_params;;
  modify (λ s, set_conf (conf_set_global_timeout_multiplier
                           (orig_global_timeout_multiplier (conf s)) (conf s)) s);;
  status ← solve_until_end fuel;
  modify (sqlStats_finishup status);;
  s ← get;
  when (preprocess (conf s) =? 1)%N (
    modify cancelUntil_0;;
    when (negb (bool_decide (status = l_False))) (modify remove_and_clean_all);;
    modify (save_state status);;
    modify (dump_simplified_cnf status));;
  modify (handle_found_solution status);;
  modify unfill_assumptions_set_from;;
  modify (set_maxConfl LONG_MAX);;
  modify (set_maxTime double_max);;
  mret status.

(** ** Renumbering *)

(** The test both loops over the variables make: the variable is assigned or
    was eliminated, replaced or decomposed. *)
Definition var_inactive (s : Solver) (i : nat) : bool :=
  negb (bool_decide (default l_Undef (assigns s !! i) = l_Undef))
  || bool_decide (default Removed_none (varData s !! i) = elimed)
  || bool_decide (default Removed_none (varData s !! i) = replaced)
  || bool_decide (default Removed_none (varData s !! i) = decomposed).

(** The state of the loops of [calculate_interToOuter_and_outerToInter]. *)
Record Renumbering : Type := mkRenumbering {
  outerToInter : list nat;
  interToOuter : list nat;
  at_ : nat
}.

(** [outerToInter[v] = at; interToOuter[at] = v; at++] *)
Definition renumber_place (r : Renumbering) (v : nat) : Renumbering :=
  {| outerToInter := <[v := at_ r]> (outerToInter r);
     interToOuter := <[at_ r := v]> (interToOuter r);
     at_ := S (at_ r) |}.

(** The first loop: an active variable is placed, an inactive one is put
    aside in [useless]. *)
Definition renumber_first_loop (s : Solver) (st : Renumbering * list nat * nat)
    (i : nat) : Renumbering * list nat * nat :=
  let '(r, useless, numEffectiveVars) := st in
  if var_inactive s i then (r, useless ++ [i], numEffectiveVars)
  else (renumber_place r i, useless, S numEffectiveVars).

(** The third loop: the identity from [nVars()] up to [nVarsOuter()]. *)
Definition renumber_identity (r : Renumbering) (i : nat) : Renumbering :=
  {| outerToInter := <[i := i]> (outerToInter r);
     interToOuter := <[i := i]> (interToOuter r);
     at_ := at_ r |}.

(** [calculate_interToOuter_and_outerToInter], on the two vectors it is
    given: the vectors it leaves and the number of effective variables. *)
Definition calculate_interToOuter_and_outerToInter (s : Solver)
    (outerToInter0 interToOuter0 : list nat) : list nat * list nat * nat :=
  let n := N.to_nat (nVars s) in
  let '(r, useless, numEffectiveVars) :=
    foldl (renumber_first_loop s)
      ({| outerToInter := outerToInter0; interToOuter := interToOuter0;
          at_ := 0 |}, [], 0) (seq 0 n) in
  let r := foldl renumber_place r useless in
  let r := foldl renumber_identity r (seq n (N.to_nat (nVarsOuter s) - n)) in
  (outerToInter r, interToOuter r, numEffectiveVars).

(** The loop of [test_renumbering] over the variables still to visit, with
    its two flags; the result is [problem]. *)
Fixpoint test_renumbering_loop (s : Solver) (vars : list nat)
    (uninteresting problem : bool) : bool :=
  match vars with
  | [] => problem
  | i :: vars' =>
      let uninteresting := uninteresting || var_inactive s i in
      let problem := problem || (negb (var_inactive s i) && uninteresting) in
      test_renumbering_loop s vars' uninteresting problem
  end.

(** [test_renumbering]: whether its assertion [!problem] holds. *)
Definition test_renumbering (s : Solver) : bool :=
  negb (test_renumbering_loop s (seq 0 (N.to_nat (nVars s))) false false).

(** The variables in their new order: the active ones, the inactive ones,
    and those beyond [nVars()]. *)
Definition new_order (s : Solver) : list nat :=
  let n := N.to_nat (nVars s) in
  filter (λ i, var_inactive s i = false) (seq 0 n)
  ++ filter (λ i, var_inactive s i = true) (seq 0 n)
  ++ seq n (N.to_nat (nVarsOuter s) - n).

(** *** [renumber_variables]

    The updates of the collaborators ([updateVars], [save_on_var_memory]),
    the helpers [updateLitsMap] and [getUpdatedVar], the field
    [conf.doSaveMem] and the operations on [double] that
    [calc_renumber_saving] applies are declared in other files. *)
Class Renumberer : Type := {
  double_sub : double → double → double;
  double_div : double → double → double;
  double_lit_1_0 : double;                (* the literal 1.0 *)
  double_lit_0_2 : double;                (* the literal 0.2 *)
  updateLitsMap : list nat → list Lit → list Lit;
  getUpdatedVar : N → list nat → N;
  CNF_updateVars : list nat → list nat → Solver → Solver;
  PropEngine_updateVars : list nat → list nat → list nat → Solver → Solver;
  Searcher_updateVars : list nat → list nat → Solver → Solver;
  stamp_updateVars : list nat → list nat → Solver → Solver;
  varReplacer_updateVars : list nat → list nat → Solver → Solver;
  implCache_updateVars : list nat → list nat → nat → Solver → Solver;
  datasync_updateVars : list nat → list nat → Solver → Solver;
  doSaveMem : SolverConf → bool;
  Searcher_save_on_var_memory : Solver → Solver;
  varReplacer_save_on_var_memory : Solver → Solver;
  occsimplifier_save_on_var_memory : Solver → Solver;
  compHandler_save_on_var_memory : Solver → Solver;
  datasync_save_on_var_memory : Solver → Solver
}.

Context `{RN : Renumberer}.

(** [calc_renumber_saving]: [num_used] counts the active variables below
    [nVars()] in a [uint32_t]. *)
Definition calc_renumber_saving (s : Solver) : double :=
  let num_used :=
    u32 (N.of_nat (length (filter (λ i, var_inactive s i = false)
                             (seq 0 (N.to_nat (nVars s)))))) in
  double_sub double_lit_1_0
    (double_div (double_of_size_t num_used) (double_of_size_t (nVars s))).

(** What [renumber_clauses] does to one clause: [updateLitsMap] and
    [setStrenghtened]. *)
Definition renumber_clause (outerToInter : list nat) (c : Clause) : Clause :=
  {| cl_lits := updateLitsMap outerToInter (cl_lits c); cl_red := cl_red c;
     cl_stats := cl_stats c; cl_strengthened := true |}.

(** [renumber_clauses]: the clauses of [longIrredCls], then those of every
    tier of [longRedCls]. *)
Definition renumber_clauses (outerToInter : list nat) (s : Solver) : Solver :=
  set_cl_alloc
    (foldl (λ arena off, alter (renumber_clause outerToInter) off arena)
       (cl_alloc s) (longIrredCls s ++ mjoin (longRedCls s))) s.

(** [renumber_xor_clauses] *)
Definition renumber_xor_clauses (outerToInter : list nat) (s : Solver)
  : Solver :=
  set_xorclauses
    (map (λ x, mkXor (map (λ v, getUpdatedVar v outerToInter) (xor_vars x))
                 (xor_rhs x)) (xorclauses s)) s.

(** [save_on_var_memory]; [minNumVars] is the number [nVars()] returns. *)
Definition save_on_var_memory (newNumVars : N) (s : Solver) : Solver :=
  let s := set_nVars newNumVars s in
  let s := Searcher_save_on_var_memory s in
  let s := varReplacer_save_on_var_memory s in
  let s := if occsimplifier s then occsimplifier_save_on_var_memory s
           else s in
  let s := if compHandler s then compHandler_save_on_var_memory s else s in
  let s := datasync_save_on_var_memory s in
  set_assumptionsSet (resize (N.to_nat (nVars s)) false (assumptionsSet s)) s.

(** [interToOuter2]: the map of [interToOuter] on literals, in [uint32_t]
    arithmetic. *)
Definition interToOuter2_of (n : nat) (interToOuter : list nat) : list nat :=
  flat_map (λ i, let x := N.of_nat (default 0 (interToOuter !! i)) in
                 [N.to_nat (u32 (x * 2)); N.to_nat (u32 (x * 2 + 1))])
    (seq 0 n).

(** The rewriting of [renumber_variables], from [renumber_clauses] to the
    last [updateVars]. *)
Definition renumber_rewrite (outerToInter interToOuter interToOuter2 : list nat)
    (numEffectiveVars : nat) (s : Solver) : Solver :=
  let s := renumber_clauses outerToInter s in
  let s := CNF_updateVars outerToInter interToOuter s in
  let s := PropEngine_updateVars outerToInter interToOuter interToOuter2 s in
  let s := Searcher_updateVars outerToInter interToOuter s in
  let s := if doStamp (conf s)
           then stamp_updateVars outerToInter interToOuter2 s else s in
  let s := renumber_xor_clauses outerToInter s in
  let s := varReplacer_updateVars outerToInter interToOuter s in
  let s := if doCache (conf s)
           then implCache_updateVars outerToInter interToOuter2
                  numEffectiveVars s
           else s in
  datasync_updateVars outerToInter interToOuter s.

(** [Solver::renumber_variables] (the scheduler reaches it through the
    field [renumber_variables] of the collaborators). Its two tests,
    [test_renumbering] and [test_reflectivity_of_renumbering], are
    assertions and change nothing; the times it takes are only reported. *)
Definition Solver_renumber_variables (must_renumber : bool) (s : Solver)
  : Solver :=
  if (nVars s =? 0)%N then s
  else if negb must_renumber
          && double_ltb (calc_renumber_saving s) double_lit_0_2 then s
  else
    let s := remove_and_clean_all s in
    let n := N.to_nat (nVarsOuter s) in
    let '(outerToInter, interToOuter, numEffectiveVars) :=
      calculate_interToOuter_and_outerToInter s (replicate n 0)
        (replicate n 0) in
    let interToOuter2 := interToOuter2_of n interToOuter in
    let s := renumber_rewrite outerToInter interToOuter interToOuter2
               numEffectiveVars s in
    if doSaveMem (conf s)
    then save_on_var_memory (u32 (N.of_nat numEffectiveVars)) s
    else s.

(** [f] leaves every variable where it is: [nVars()] is kept, and so is,
    at every index, whether the variable there is active. *)
Definition keeps_variables (f : Solver → Solver) : Prop :=
  ∀ s, nVars (f s) = nVars s ∧ ∀ k, var_inactive (f s) k = var_inactive s k.

(** [f] moves every variable to its new index: the index [k] holds
    afterwards what [interToOuter[k]] held before. *)
Definition moves_variables (interToOuter : list nat) (f : Solver → Solver)
  : Prop :=
  ∀ s, nVars (f s) = nVars s
       ∧ ∀ k x, interToOuter !! k = Some x →
                var_inactive (f s) k = var_inactive s x.

(** [f] leaves [nVars()] and the variables below it as they are. *)
Definition keeps_variables_below (f : Solver → Solver) : Prop :=
  ∀ s, nVars (f s) = nVars s
       ∧ ∀ k, k < N.to_nat (nVars s) →
              var_inactive (f s) k = var_inactive s k.

(** ** The model minimiser *)

(** [uint8_t] arithmetic ([can_be_unset] is a vector of [unsigned char]). *)
Definition u8 (x : N) : N := (x mod 2 ^ 8)%N.

Record FindUndef : Type := mkFindUndef {
  dontLookAtClause : list bool;
  can_be_unset : list N;
  satisfies : list N;
  must_fix : bool;
  can_be_unsetSum : N;
  num_fixed : N
}.

Definition set_can_be_unset (x : list N) (u : FindUndef) : FindUndef :=
  {| dontLookAtClause := dontLookAtClause u; can_be_unset := x;
     satisfies := satisfies u; must_fix := must_fix u;
     can_be_unsetSum := can_be_unsetSum u; num_fixed := num_fixed u |}.
Definition set_can_be_unsetSum (x : N) (u : FindUndef) : FindUndef :=
  {| dontLookAtClause := dontLookAtClause u; can_be_unset := can_be_unset u;
     satisfies := satisfies u; must_fix := must_fix u;
     can_be_unsetSum := x; num_fixed := num_fixed u |}.
Definition set_satisfies (x : list N) (u : FindUndef) : FindUndef :=
  {| dontLookAtClause := dontLookAtClause u; can_be_unset := can_be_unset u;
     satisfies := x; must_fix := must_fix u;
     can_be_unsetSum := can_be_unsetSum u; num_fixed := num_fixed u |}.
Definition set_must_fix (x : bool) (u : FindUndef) : FindUndef :=
  {| dontLookAtClause := dontLookAtClause u; can_be_unset := can_be_unset u;
     satisfies := satisfies u; must_fix := x;
     can_be_unsetSum := can_be_unsetSum u; num_fixed := num_fixed u |}.
Definition set_dontLookAtClause (x : list bool) (u : FindUndef) : FindUndef :=
  {| dontLookAtClause := x; can_be_unset := can_be_unset u;
     satisfies := satisfies u; must_fix := must_fix u;
     can_be_unsetSum := can_be_unsetSum u; num_fixed := num_fixed u |}.
Definition set_num_fixed (x : N) (u : FindUndef) : FindUndef :=
  {| dontLookAtClause := dontLookAtClause u; can_be_unset := can_be_unset u;
     satisfies := satisfies u; must_fix := must_fix u;
     can_be_unsetSum := can_be_unsetSum u; num_fixed := x |}.

(** [undef->can_be_unset[v]] read as a truth value *)
Definition is_candidate (u : FindUndef) (v : N) : bool :=
  negb (default 0 (can_be_unset u !! N.to_nat v) =? 0)%N.

(** [model_value(lit)] in the solver *)
Definition model_value (s : Solver) (l : Lit) : lbool :=
  model_value_of (model s) l.

(** The first loop of [undef_look_at_one_clause]: [None] when it returns
    early on a true literal that is no candidate, else [v] and [numTrue]. *)
Fixpoint look_scan (s : Solver) (u : FindUndef) (c : list Lit) (v : N)
    (numTrue : N) : option (N * N) :=
  match c with
  | [] => Some (v, numTrue)
  | l :: c' =>
      if bool_decide (model_value s l = l_True) then
        if is_candidate u (var l)
        then look_scan s u c' (var l) (u32 (numTrue + 1))
        else None
      else look_scan s u c' v numTrue
  end.

(** [undef->satisfies[l.var()]++] for every true literal of the clause *)
Definition count_satisfies (s : Solver) (c : list Lit) (sat : list N)
  : list N :=
  foldl (λ sat l,
           if bool_decide (model_value s l = l_True)
           then alter (λ x, u32 (x + 1)) (N.to_nat (var l)) sat else sat)
        sat c.

(** [undef_look_at_one_clause], without its assertions (in a clause that
    has a true literal none of them fails). *)
Definition undef_look_at_one_clause (s : Solver) (c : list Lit)
    (u : FindUndef) : bool * FindUndef :=
  match look_scan s u c var_Undef 0 with
  | None => (true, u)
  | Some (v, numTrue) =>
      if (numTrue =? 1)%N then
        (true,
         set_can_be_unsetSum (u32 (can_be_unsetSum u + 2 ^ 32 - 1))
           (set_can_be_unset (<[N.to_nat v := 0%N]> (can_be_unset u)) u))
      else
        (false,
         set_satisfies (count_satisfies s c (satisfies u))
           (set_must_fix true u))
  end.

(** [*cl_alloc.ptr(offset)]; a handle that names no clause reads as the
    empty clause. *)
Definition clause_at (s : Solver) (offset : ClOffset) : list Lit :=
  default [] (cl_lits <$> cl_alloc s !! offset).

(** The loop of [undef_check_must_fix] over the long irredundant clauses:
    [i] is the place in [longIrredCls]. *)
Definition check_long_clause (s : Solver) (u : FindUndef)
    (entry : nat * ClOffset) : FindUndef :=
  let '(i, offset) := entry in
  if default false (dontLookAtClause u !! i) then u
  else
    let '(satisfied, u) := undef_look_at_one_clause s (clause_at s offset) u in
    if satisfied
    then set_dontLookAtClause (<[i := true]> (dontLookAtClause u)) u
    else u.

(** The inner loop over one watch list: the binary clauses [(l, lit2)] with
    [l < lit2]. *)
Definition check_watch (s : Solver) (l : Lit) (u : FindUndef) (w : Watched)
  : FindUndef :=
  match w with
  | WBin lit2 _ =>
      if Lit_ltb l lit2 then (undef_look_at_one_clause s [l; lit2] u).2
      else u
  | WLong _ _ => u
  end.

(** The turn of literal [i] in the loop over the watch lists. *)
Definition check_watches_of (s : Solver) (u : FindUndef) (i : nat)
  : FindUndef :=
  let l := toLit (N.of_nat i) in
  if negb (is_candidate u (var l)) && bool_decide (model_value s l = l_True)
  then u
  else foldl (check_watch s l) u (default [] (watches s !! i)).

(** [undef_check_must_fix]: the answer is [must_fix] of the result. *)
Definition undef_check_must_fix (s : Solver) (u : FindUndef) : FindUndef :=
  let u := set_must_fix false u in
  let u := foldl (check_long_clause s) u (imap pair (longIrredCls s)) in
  foldl (check_watches_of s) u (seq 0 (N.to_nat (nVars s * 2))).

(** The loop of [undefine] that looks for the variable to fix: the last
    candidate among those that satisfy the most clauses. *)
Definition pick_var_to_fix (u : FindUndef) : N * N :=
  foldl (λ '(maximum, v) i,
           if is_candidate u (N.of_nat i)
              && (maximum <=? default 0 (satisfies u !! i))%N
           then (default 0%N (satisfies u !! i), N.of_nat i)
           else (maximum, v))
        (0%N, var_Undef) (seq 0 (length (can_be_unset u))).

(** How a run of the minimiser's loop ends. *)
Inductive Run (A : Type) : Type :=
| Finished (a : A)
| AssertionViolated   (* [assert(v != var_Undef)] fails *)
| FuelExhausted.
Arguments Finished {A} a.
Arguments AssertionViolated {A}.
Arguments FuelExhausted {A}.

(** The loop of [undefine]. Every turn takes one from [can_be_unsetSum], so
    fuel above that sum is never used up. *)
Fixpoint undefine_loop (fuel : nat) (s : Solver) (u : FindUndef)
  : Run FindUndef :=
  let u := undef_check_must_fix s u in
  if must_fix u && (0 <? can_be_unsetSum u)%N then
    match fuel with
    | 0 => FuelExhausted
    | S fuel' =>
        let v := (pick_var_to_fix u).2 in
        if bool_decide (v = var_Undef) then AssertionViolated
        else
          undefine_loop fuel' s
            (set_satisfies (replicate (length (satisfies u)) 0%N)
               (set_num_fixed (u32 (num_fixed u + 1))
                  (set_can_be_unsetSum (u32 (can_be_unsetSum u + 2 ^ 32 - 1))
                     (set_can_be_unset
                        (<[N.to_nat v := 0%N]> (can_be_unset u)) u))))
    end
  else Finished u.

(** [undef_unset_potentials]: the model with every remaining candidate set
    to [l_Undef]. *)
Definition undef_unset_potentials (u : FindUndef) (m : list lbool)
  : list lbool :=
  foldl (λ m i, if is_candidate u (N.of_nat i) then <[i := l_Undef]> m else m)
        m (seq 0 (length (can_be_unset u))).

(** The first loop of [undef_fill_potentials], over the trail variables
    (from the last to the first). *)
Definition fill_from_trail (s : Solver) (u : FindUndef) (v : N) : FindUndef :=
  if negb (bool_decide (default l_Undef (model s !! N.to_nat v) = l_Undef))
     && negb (default false (assumptionsSet s !! N.to_nat v))
  then
    let u := set_can_be_unset
               (alter (λ x, u8 (x + 1)) (N.to_nat v) (can_be_unset u)) u in
    match independent_vars (conf s) with
    | None => set_can_be_unsetSum (u32 (can_be_unsetSum u + 1)) u
    | Some _ => u
    end
  else u.

(** An independent variable in the inter namespace:
    [map_outer_to_inter(map_to_with_bva(v))]. *)
Definition independent_inter (s : Solver) (v : N) : N :=
  map_outer_to_inter_var s (var (map_to_with_bva s (mkLit v false))).

(** Its second loop, over the independent variables; [None] is
    [std::exit(-1)]. *)
Fixpoint fill_from_independent (s : Solver) (vars : list N) (u : FindUndef)
  : option FindUndef :=
  match vars with
  | [] => Some u
  | v :: vars' =>
      if (nVarsOutside s <? v)%N then None
      else
        let v := independent_inter s v in
        if (v <? nVars s)%N then
          let u := set_can_be_unset
                     (alter (λ x, u8 (x + 1)) (N.to_nat v) (can_be_unset u))
                     u in
          fill_from_independent s vars'
            (if (default 0 (can_be_unset u !! N.to_nat v) =? 2)%N
             then set_can_be_unsetSum (u32 (can_be_unsetSum u + 1)) u else u)
        else fill_from_independent s vars' u
  end.

(** Its last loop: a variable that replaces others is no candidate. *)
Definition fill_exclude_replacer (u : FindUndef) (v : N) : FindUndef :=
  if is_candidate u v
  then set_can_be_unsetSum (u32 (can_be_unsetSum u + 2 ^ 32 - 1))
         (set_can_be_unset (<[N.to_nat v := 0%N]> (can_be_unset u)) u)
  else u.

(** [undef_fill_potentials]; [None] is [std::exit(-1)]. *)
Definition undef_fill_potentials (s : Solver) (trail_lim_vars : list N)
    (u : FindUndef) : option FindUndef :=
  let u := foldl (fill_from_trail s) u (rev trail_lim_vars) in
  u ← match independent_vars (conf s) with
      | None => Some u
      | Some vars =>
          u ← fill_from_independent s vars u;
          Some (set_can_be_unset
                  (map (λ x, if (x <? 2)%N then 0%N else x) (can_be_unset u))
                  u)
      end;
  Some (foldl fill_exclude_replacer u (get_vars_replacing_others s)).

(** The [FindUndef] that [undefine] starts from. *)
Definition FindUndef_new (s : Solver) : FindUndef :=
  {| dontLookAtClause := replicate (length (longIrredCls s)) false;
     can_be_unset := replicate (N.to_nat (nVarsOuter s)) 0%N;
     satisfies := replicate (N.to_nat (nVarsOuter s)) 0%N;
     must_fix := false; can_be_unsetSum := 0; num_fixed := 0 |}.

(** [undefine]: the number it returns and the model it leaves; [None] is
    [std::exit(-1)]. *)
Definition undefine (s : Solver) (trail_lim_vars : list N)
  : option (Run (N * list lbool)) :=
  u ← undef_fill_potentials s trail_lim_vars (FindUndef_new s);
  Some match undefine_loop (S (N.to_nat (can_be_unsetSum u))) s u with
       | Finished u =>
           Finished (can_be_unsetSum u, undef_unset_potentials u (model s))
       | AssertionViolated => AssertionViolated
       | FuelExhausted => FuelExhausted
       end.

(** [verify_model_long_clauses] *)
Definition verify_model_long_clauses (s : Solver) (cs : list ClOffset)
  : bool :=
  forallb (λ offset,
             existsb (λ l, bool_decide (model_value s l = l_True))
                     (clause_at s offset)) cs.

(** [verify_model_implicit_clauses] *)
Definition verify_model_implicit_clauses (s : Solver) : bool :=
  forallb (λ '(wsLit, ws),
             forallb (λ w,
                        match w with
                        | WBin lit2 _ =>
                            bool_decide (model_value s (toLit (N.of_nat wsLit))
                                         = l_True)
                            || bool_decide (model_value s lit2 = l_True)
                        | WLong _ _ => true
                        end) ws)
          (imap pair (watches s)).

(** *** What the minimiser is to guarantee *)

(** The literal is true under the model and its variable is no candidate
    for unsetting. *)
Definition true_and_fixed (s : Solver) (u : FindUndef) (l : Lit) : bool :=
  bool_decide (model_value s l = l_True) && negb (is_candidate u (var l)).

(** The clause has a literal that is true and whose variable is no
    candidate. *)
Definition clause_safe (s : Solver) (u : FindUndef) (c : list Lit) : bool :=
  existsb (true_and_fixed s u) c.

(** The number of candidates. *)
Definition num_candidates (u : FindUndef) : nat :=
  length (filter (λ x, x ≠ 0%N) (can_be_unset u)).

(** The binary clauses in the watch lists: [(l, lit2)] for every binary
    entry [lit2] in the list of [l]. *)
Definition bin_clauses (s : Solver) : list (Lit * Lit) :=
  mjoin (imap (λ i ws,
                  omap (λ w, match w with
                             | WBin lit2 _ => Some (toLit (N.of_nat i), lit2)
                             | WLong _ _ => None
                             end) ws)
               (watches s)).

(** The watch lists are as the solver keeps them: one list per literal of
    the inter namespace, a binary clause has two different literals and is
    in the lists of both. *)
Definition watches_wf (s : Solver) : bool :=
  (length (watches s) =? N.to_nat (nVars s * 2))
  && forallb (λ '(l, lit2),
                negb (Lit_eqb l lit2)
                && bool_decide ((lit2, l) ∈ bin_clauses s))
             (bin_clauses s).

(** [can_be_unsetSum] counts the candidates, and the count fits 32 bits. *)
Definition count_ok (u : FindUndef) : Prop :=
  can_be_unsetSum u = N.of_nat (num_candidates u)
  ∧ (N.of_nat (length (can_be_unset u)) < 2 ^ 32)%N.

(** A clause that is marked in [dontLookAtClause] has a true literal that is
    no candidate. *)
Definition marks_ok (s : Solver) (u : FindUndef) : Prop :=
  ∀ i offset,
    longIrredCls s !! i = Some offset →
    dontLookAtClause u !! i = Some true →
    clause_safe s u (clause_at s offset) = true.

(** What every step of the minimiser keeps: candidates are only taken away,
    [must_fix] is only raised, the count stays exact and only goes down. *)
Definition progress (u u' : FindUndef) : Prop :=
  length (can_be_unset u') = length (can_be_unset u)
  ∧ (∀ v, is_candidate u' v = true → is_candidate u v = true)
  ∧ (must_fix u = true → must_fix u' = true)
  ∧ (count_ok u →
     count_ok u' ∧ (can_be_unsetSum u' ≤ can_be_unsetSum u)%N).

(** The state the loop of [undefine] may start from: [can_be_unsetSum]
    counts the candidates, every variable index is below [var_Undef] and fits
    32 bits, and a clause that is marked in [dontLookAtClause] has a true
    literal that is no candidate. *)
Definition undef_wf (s : Solver) (u : FindUndef) : bool :=
  (can_be_unsetSum u =? N.of_nat (num_candidates u))%N
  && (N.of_nat (length (can_be_unset u)) <=? var_Undef)%N
  && (N.of_nat (length (can_be_unset u)) <? 2 ^ 32)%N
  && forallb (λ '(i, offset),
                negb (default false (dontLookAtClause u !! i))
                || clause_safe s u (clause_at s offset))
             (imap pair (longIrredCls s)).

(** The independent variables, if there are any, are variables of the
    outside namespace, and no two of them are the same variable of the
    solver. *)
Definition independent_vars_ok (s : Solver) : bool :=
  match independent_vars (conf s) with
  | None => true
  | Some vars =>
      forallb (λ v, v <=? nVarsOutside s)%N vars
      && bool_decide (NoDup (independent_inter s <$> vars))
  end.

(** The clause keeps a literal that was true under the model of [s], whose
    variable is not among the candidates of [u], and that is true under the
    model [m'] as well. *)
Definition still_satisfied (s : Solver) (u : FindUndef) (m' : list lbool)
    (c : list Lit) : Prop :=
  ∃ l, l ∈ c ∧ model_value s l = l_True ∧ is_candidate u (var l) = false
       ∧ model_value_of m' l = l_True.

(** The ways a call can fail to return. *)
Inductive Failure : Type :=
| FThrow (e : Exn) (s : Solver)
| FExit (code : Z)
| FOutOfFuel.

Definition failure_of {A} (o : Outcome A) : option Failure :=
  match o with
  | Ret _ _ => None
  | Throw e s => Some (FThrow e s)
  | Exit c => Some (FExit c)
  | OutOfFuel => Some FOutOfFuel
  end.

(** A call that, whatever the state, does not fail in a way [P] holds of. *)
Definition avoids {A} (P : Failure → Prop) (m : M A) : Prop :=
  ∀ s f, failure_of (m s) = Some f → ¬ P f.

Definition is_throw (f : Failure) : Prop :=
  match f with FThrow _ _ => True | _ => False end.
Definition is_out_of_fuel (f : Failure) : Prop :=
  match f with FOutOfFuel => True | _ => False end.

(** A call that throws no exception, and one whose loops are never cut
    short. *)
Definition never_throws {A} (m : M A) : Prop := avoids is_throw m.
Definition never_out_of_fuel {A} (m : M A) : Prop := avoids is_out_of_fuel m.

(** *** The rules of the specification the code is compared with *)

(** [f] leaves the clause database as it is: the arena, the vectors of the
    long clauses and the configuration. *)
Definition keeps_clauses (f : Solver → Solver) : Prop :=
  ∀ s, cl_alloc (f s) = cl_alloc s ∧ longRedCls (f s) = longRedCls s
       ∧ longIrredCls (f s) = longIrredCls s ∧ conf (f s) = conf s.

(** The tier rule in the specification's words: tier 0 when the glue is at
    most the first threshold, else tier 1 when it is at most the second,
    else tier 2. *)
Definition tier_by_glue (t0 t1 g : N) : N :=
  if (g <=? t0)%N then 0%N else if (g <=? t1)%N then 1%N else 2%N.

(** The conflict budget of an iteration in the specification's words:
    [min(conf_growth^iteration * base, maxConfl − totalConfl)]. *)
Definition num_confl_by_spec (base growth : Z) (iteration : N)
    (max_confl total_confl : Z) : Z :=
  Z.min (growth ^ Z.of_N iteration * base) (max_confl - total_confl).

(** Irredundant clauses are handed one after the other to [add_clause_int],
    every long clause made being filed in [longIrredCls], until [ok] turns
    false. *)
Fixpoint ingest_until_refuted (cls : list (list Lit)) (attach addDrat : bool)
  : M unit :=
  match cls with
  | [] => mret tt
  | c :: cls' =>
      cl ← add_clause_int c false ClauseStats_default attach false addDrat
             lit_Undef;
      match cl with
      | Some off => modify (λ s, set_longIrredCls (longIrredCls s ++ [off]) s)
      | None => mret tt
      end;;
      s ← get;
      if negb (ok s) then mret tt
      else ingest_until_refuted cls' attach addDrat
  end.

(** The eight clauses over four literals in which an odd number of literals
    is negated. *)
Definition odd_parity_clauses4 (a b c d : Lit) : list (list Lit) :=
  [ [lit_neg a; b; c; d]; [a; lit_neg b; c; d]; [a; b; lit_neg c; d];
    [lit_neg a; lit_neg b; lit_neg c; d]; [a; b; c; lit_neg d];
    [lit_neg a; lit_neg b; c; lit_neg d]; [lit_neg a; b; lit_neg c; lit_neg d];
    [a; lit_neg b; lit_neg c; lit_neg d] ].

(** ** Further parts of the solver *)

(** [fully_enqueue_this]: the literal is enqueued and propagated when it has
    no value, the solver is refuted when it is false. *)
Definition fully_enqueue_this (lit : Lit) : M bool :=
  s ← get;
  match value s lit with
  | l_Undef =>
      modify (enqueue lit);;
      call propagate_isNULL ≫= λ b : bool,
      modify (set_ok b);;
      mret b
  | l_False => modify (set_ok false);; mret false
  | l_True => mret true
  end.

(** [fully_enqueue_these]: it stops at the first literal that fails. The
    assertions ([ok] and decision level 0 here, the variable not removed in
    [fully_enqueue_this]) are not part of the model. *)
Fixpoint fully_enqueue_these (toEnqueue : list Lit) : M bool :=
  match toEnqueue with
  | [] => mret true
  | lit :: rest =>
      fully_enqueue_this lit ≫= λ b : bool,
      if b then fully_enqueue_these rest else mret false
  end.

(** [check_implicit_propagated]: whether its assertions hold, for every
    binary watch [lit2] in the list of [lit]. *)
Definition check_implicit_propagated (s : Solver) : bool :=
  forallb (λ '(wsLit, ws),
             let lit := toLit (N.of_nat wsLit) in
             forallb (λ w,
                        match w with
                        | WBin lit2 _ =>
                            if bool_decide (value s lit = l_True) then true
                            else
                              let val1 := value s lit in
                              let val2 := value s lit2 in
                              (if bool_decide (val1 = l_False)
                               then bool_decide (val2 = l_True) else true)
                              && (if bool_decide (val2 = l_False)
                                  then bool_decide (val1 = l_True) else true)
                        | WLong _ _ => true
                        end) ws)
          (imap pair (watches s)).

(** The binary watches with the given redundancy flag. *)
Definition is_bin_watch (red : bool) (w : Watched) : bool :=
  match w with
  | WBin _ r => bool_decide (r = red)
  | WLong _ _ => false
  end.

(** The number [check_implicit_stats] counts, a [uint64_t]: the binary
    watches of all the lists with the given redundancy flag. *)
Definition count_bin_watches (red : bool) (s : Solver) : N :=
  u64 (N.of_nat (length (filter (λ w, is_bin_watch red w = true)
                           (mjoin (watches s))))).

(** [check_implicit_stats] in a build with assertions: whether they hold. *)
Definition check_implicit_stats (onlypairs : bool) (s : Solver) : bool :=
  let thisNumRedBins := count_bin_watches true s in
  let thisNumIrredBins := count_bin_watches false s in
  if onlypairs then true
  else (thisNumIrredBins mod 2 =? 0)%N
       && (thisNumIrredBins / 2 =? irredBins (binTri s))%N
       && (thisNumRedBins mod 2 =? 0)%N
       && (thisNumRedBins / 2 =? redBins (binTri s))%N.

(** How the reading of a solution line ends: with the number that closes it
    (0, or the mark of the end of the line) or with a number that cannot be
    read. *)
Inductive VLineEnd : Type := VClosed | VUnreadable.

(** The loop of [parse_v_line] over the numbers that [parseInt] reads
    before the line ends: they are [int32_t] values other than 0 and
    2^31 - 1, which close the line. *)
Fixpoint parse_v_line_loop (lits : list Z) (ending : VLineEnd) : M unit :=
  match lits with
  | [] => match ending with
          | VClosed => mret tt
          | VUnreadable => exit (-1)
          end
  | parsed_lit :: rest =>
      s ← get;
      let v := u32 (Z.to_N (Z.abs parsed_lit - 1)) in
      if (nVars s <=? v)%N then exit (-1)
      else
        when (bool_decide (default l_Undef (model s !! N.to_nat v) = l_Undef)
              && bool_decide (removed_of s v = Removed_none))
          (modify (λ s, set_model
                          (<[N.to_nat v := if (parsed_lit <? 0)%Z then l_False
                                           else l_True]> (model s)) s));;
        parse_v_line_loop rest ending
  end.

(** [parse_v_line]: the model is brought to the size [nVarsOuter()] first. *)
Definition parse_v_line (lits : list Z) (ending : VLineEnd) : M unit :=
  modify (λ s, set_model (resize (N.to_nat (nVarsOuter s)) l_Undef (model s))
                 s);;
  parse_v_line_loop lits ending.

(** *** Total assignments

    What the cleaning of a clause or of an XOR is to preserve is its truth
    under every assignment of all the variables that agrees with the values
    fixed so far. *)

(** The literal is true under the assignment. *)
Definition lit_true (a : N → bool) (l : Lit) : bool :=
  xorb (a (var l)) (sign l).

(** The clause has a true literal. *)
Definition clause_true (a : N → bool) (c : list Lit) : bool :=
  existsb (lit_true a) c.

(** The exclusive or of the literals. *)
Definition xor_parity (a : N → bool) (c : list Lit) : bool :=
  foldr (λ l b, xorb (lit_true a l) b) false c.

(** The assignment agrees with the values that are fixed: a literal whose
    value is [l_True] is true under it. *)
Definition extends (a : N → bool) (assigns : list lbool) : Prop :=
  ∀ l, value_of assigns l = l_True → lit_true a l = true.

(** The order of the variables of two literals. *)
Definition var_lt (x y : Lit) : Prop := (var x < var y)%N.

(** The clauses of a cut: the combinations with an odd number of flipped
    literals, in the order of the loop of
    [add_xor_clause_inter_cleaned_cut]. *)
Definition cut_clauses (lits : list Lit) : list (list Lit) :=
  map (xor_combination lits)
    (filter (λ i, Nat.even (num_bits_set i (length lits)) = false)
       (map N.of_nat (seq 0 (2 ^ length lits)))).


(** The tokens [execute_inprocess_strategy] knows by name (the empty token
    among them); a token that begins with [occ] is buffered for the
    occurrence simplifier. *)
Definition known_tokens : list string :=
  [ "find-comps"; "handle-comps"; "scc-vrepl"; "cache-clean";
    "cache-tryboth"; "sub-impl"; "intree-probe"; "probe";
    "sub-str-cls-with-bin"; "distill-cls"; "str-impl"; "check-cache-size";
    "renumber"; "must-renumber"; "" ].

(** The character is white space or a comma. *)
Definition blank_or_comma (c : ascii) : bool := is_space c || Ascii.eqb c ",".

(** The combination whose bit [at] is the [at]-th of the truth values. *)
Definition combination_of (bs : list bool) : N :=
  foldr (λ b n, (N.b2n b + 2 * n)%N) 0%N bs.

End Program.

Arguments Ret {PF A} a s.
Arguments Finished {A} a.
Arguments AssertionViolated {A}.
Arguments FuelExhausted {A}.
Arguments Throw {PF A} e s.
Arguments Exit {PF A} code.
Arguments OutOfFuel {PF A}.

(** ** A platform and collaborators to run the program on

    Doubles are exact rationals (the results agree with IEEE arithmetic as
    long as every value met is representable), the collaborators do the
    least their interface allows: propagation finds no conflict, nothing was
    eliminated or replaced, the DRAT writer is off. *)
Module Example.

Definition platform : Platform := {|
  double := Q;
  double_ltb := λ x y, negb (Qle_bool y x);
  double_max := inject_Z (2 ^ 1024 - 2 ^ 971);
  double_pow := λ x y, Qpower x (Qfloor y);
  double_min := λ x y, if Qle_bool x y then x else y;
  double_mul := Qmult;
  double_of_size_t := λ n, inject_Z (Z.of_N n);
  double_of_long := inject_Z;
  long_of_double := λ x, Z.quot (Qnum x) (Zpos (Qden x));
  Ext := unit;
  var_Undef := 268435455;
  default_glue := 1000;
  USE_GAUSS := false
|}.

#[local] Existing Instance platform.

Definition new_var_in_state (s : Solver) : Solver :=
  set_nVars (nVars s + 1) (set_nVarsOuter (nVarsOuter s + 1)
    (set_assigns (assigns s ++ [l_Undef])
      (set_varData (varData s ++ [Removed_none])
        (set_interToOuterMain (interToOuterMain s ++ [nVars s])
          (set_outerToInterMain (outerToInterMain s ++ [nVars s]) s))))).

Definition assign_lit (l : Lit) (s : Solver) : Solver :=
  set_trail (trail s ++ [l])
    (set_assigns (<[N.to_nat (var l) :=
       if sign l then l_False else l_True]> (assigns s)) s).

Definition watch_bin (l1 l2 : Lit) (red : bool) (s : Solver) : Solver :=
  set_watches
    (alter (λ ws, ws ++ [WBin l1 red]) (N.to_nat (toInt l2))
      (alter (λ ws, ws ++ [WBin l2 red]) (N.to_nat (toInt l1)) (watches s))) s.

Definition collab : Collab := {|
  enqueue := assign_lit;
  propagate_isNULL := λ s, (true, s);
  PropEngine_attachClause := λ _ s, s;
  PropEngine_attach_bin_clause := watch_bin;
  drat_enabled := λ _, false;
  drat_add := λ _ s, s;
  drat_del := λ _ s, s;
  drat_fin := λ s, s;
  datasync_signalNewBinClause := λ _ s, s;
  datasync_new_var := λ _ s, s;
  getAnythingHasBeenBlocked := λ _, false;
  uneliminate := λ _ s, (true, s);
  occsimplifier_new_var := λ _ s, s;
  get_lit_replaced_with_outer := λ _ l, l;
  varReplacer_new_var := λ _ s, s;
  get_vars_replacing_others := λ _, [];
  readdRemovedClauses := λ s, s;
  compHandler_new_var := λ _ s, s;
  Searcher_new_var := λ _ _ s, new_var_in_state s;
  map_to_with_bva := λ _ l, l;
  stamp_freeMem := λ s, s;
  implCache_free := λ s, s;
  implCache_clean := λ s, s;
  implCache_tryBoth := λ s, s;
  implCache_mem_used := λ _, 0%N;
  implCache_clean_to_fixpoint := λ s, (true, s);
  cpuTime := λ _, inject_Z 0;
  must_interrupt_asap := λ _, false;
  get_num_free_vars := nVars;
  find_components := λ s, s;
  compHandler_handle := λ s, s;
  replace_if_enough_is_found := λ s, s;
  subsume_implicit := λ s, s;
  intree_probe := λ s, s;
  prober_probe := λ s, s;
  distill_long_with_implicit := λ _ s, s;
  distill_all_with_all := λ s, s;
  str_impl_w_impl_stamp := λ s, s;
  occsimplifier_simplify := λ _ _ s, s;
  MatrixFinder_findMatrixes := λ s, (true, s);
  renumber_variables := λ _ s, s;
  Searcher_solve := λ _ _ s, (l_True, s);
  Searcher_set_restart_params := λ s, s;
  conflict_clear := λ s, s;
  clear_gauss := λ s, s;
  check_recursive_minimization_effectiveness := λ _ s, s;
  check_minimization_effectiveness := λ _ s, s;
  fold_search_stats := λ s, s;
  check_too_many_low_glues := λ s, s;
  simplify_problem := λ _ s, Ret l_Undef s;
  rebuild_bva_map := λ s, s;
  set_assumptions := λ s, Ret tt s;
  load_state := λ s, (l_Undef, s);
  load_solution_from_file := λ s, (l_Undef, s);
  sqlStats_finishup := λ _ s, s;
  cancelUntil_0 := λ s, s;
  remove_and_clean_all := λ s, s;
  save_state := λ _ s, s;
  dump_simplified_cnf := λ _ s, s;
  handle_found_solution := λ _ s, s;
  unfill_assumptions_set_from := λ s, s
|}.

(** The same collaborators, after the occurrence simplifier has blocked a
    clause. *)
Definition collab_blocked : Collab := {|
  enqueue := assign_lit;
  propagate_isNULL := λ s, (true, s);
  PropEngine_attachClause := λ _ s, s;
  PropEngine_attach_bin_clause := watch_bin;
  drat_enabled := λ _, false;
  drat_add := λ _ s, s;
  drat_del := λ _ s, s;
  drat_fin := λ s, s;
  datasync_signalNewBinClause := λ _ s, s;
  datasync_new_var := λ _ s, s;
  getAnythingHasBeenBlocked := λ _, true;
  uneliminate := λ _ s, (true, s);
  occsimplifier_new_var := λ _ s, s;
  get_lit_replaced_with_outer := λ _ l, l;
  varReplacer_new_var := λ _ s, s;
  get_vars_replacing_others := λ _, [];
  readdRemovedClauses := λ s, s;
  compHandler_new_var := λ _ s, s;
  Searcher_new_var := λ _ _ s, new_var_in_state s;
  map_to_with_bva := λ _ l, l;
  stamp_freeMem := λ s, s;
  implCache_free := λ s, s;
  implCache_clean := λ s, s;
  implCache_tryBoth := λ s, s;
  implCache_mem_used := λ _, 0%N;
  implCache_clean_to_fixpoint := λ s, (true, s);
  cpuTime := λ _, inject_Z 0;
  must_interrupt_asap := λ _, false;
  get_num_free_vars := nVars;
  find_components := λ s, s;
  compHandler_handle := λ s, s;
  replace_if_enough_is_found := λ s, s;
  subsume_implicit := λ s, s;
  intree_probe := λ s, s;
  prober_probe := λ s, s;
  distill_long_with_implicit := λ _ s, s;
  distill_all_with_all := λ s, s;
  str_impl_w_impl_stamp := λ s, s;
  occsimplifier_simplify := λ _ _ s, s;
  MatrixFinder_findMatrixes := λ s, (true, s);
  renumber_variables := λ _ s, s;
  Searcher_solve := λ _ _ s, (l_True, s);
  Searcher_set_restart_params := λ s, s;
  conflict_clear := λ s, s;
  clear_gauss := λ s, s;
  check_recursive_minimization_effectiveness := λ _ s, s;
  check_minimization_effectiveness := λ _ s, s;
  fold_search_stats := λ s, s;
  check_too_many_low_glues := λ s, s;
  simplify_problem := λ _ s, Ret l_Undef s;
  rebuild_bva_map := λ s, s;
  set_assumptions := λ s, Ret tt s;
  load_state := λ s, (l_Undef, s);
  load_solution_from_file := λ s, (l_Undef, s);
  sqlStats_finishup := λ _ s, s;
  cancelUntil_0 := λ s, s;
  remove_and_clean_all := λ s, s;
  save_state := λ _ s, s;
  dump_simplified_cnf := λ _ s, s;
  handle_found_solution := λ _ s, s;
  unfill_assumptions_set_from := λ s, s
|}.

Definition a_conf : SolverConf := {|
  perform_occur_based_simp := true;
  glue_put_lev0_if_below_or_eq := 3;
  glue_put_lev1_if_below_or_eq := 6;
  doStamp := false; doCache := false; doCompHandler := false;
  doFindAndReplaceEqLits := true; doStrSubImplicit := true;
  doIntreeProbe := true; doProbe := true; do_distill_clauses := true;
  doRenumberVars := true; compVarLimit := 1000000;
  handlerFromSimpNum := 0; maxCacheSizeMB := 2048;
  maxConfl := 1000000; maxTime := inject_Z 1000;
  num_conflicts_of_search := 100;
  num_conflicts_of_search_inc := inject_Z 2;
  num_conflicts_of_search_inc_max := inject_Z 3;
  never_stop_search := false; do_simplify_problem := true;
  simplify_at_startup := false; simplify_at_every_startup := false;
  full_simplify_at_startup := false; preprocess := 0;
  burst_search_len := 300; shortTermHistorySize := 50;
  global_timeout_multiplier := inject_Z 1;
  orig_global_timeout_multiplier := inject_Z 1;
  independent_vars := None
|}.

(** The same configuration with the second glue threshold at 1000. *)
Definition lenient_conf : SolverConf := {|
  perform_occur_based_simp := true;
  glue_put_lev0_if_below_or_eq := 3;
  glue_put_lev1_if_below_or_eq := 1000;
  doStamp := false; doCache := false; doCompHandler := false;
  doFindAndReplaceEqLits := true; doStrSubImplicit := true;
  doIntreeProbe := true; doProbe := true; do_distill_clauses := true;
  doRenumberVars := true; compVarLimit := 1000000;
  handlerFromSimpNum := 0; maxCacheSizeMB := 2048;
  maxConfl := 1000000; maxTime := inject_Z 1000;
  num_conflicts_of_search := 100;
  num_conflicts_of_search_inc := inject_Z 2;
  num_conflicts_of_search_inc_max := inject_Z 3;
  never_stop_search := false; do_simplify_problem := true;
  simplify_at_startup := false; simplify_at_every_startup := false;
  full_simplify_at_startup := false; preprocess := 0;
  burst_search_len := 300; shortTermHistorySize := 50;
  global_timeout_multiplier := inject_Z 1;
  orig_global_timeout_multiplier := inject_Z 1;
  independent_vars := None
|}.

(** A solver with [n] unassigned variables and no clause. *)
Definition fresh_solver (n : nat) : Solver := {|
  ok := true; conf := a_conf;
  nVars := N.of_nat n; nVarsOuter := N.of_nat n; nVarsOutside := N.of_nat n;
  assigns := replicate n l_Undef; varData := replicate n Removed_none;
  interToOuterMain := map N.of_nat (seq 0 n);
  outerToInterMain := map N.of_nat (seq 0 n);
  undef_must_set_vars := []; cl_alloc := []; longIrredCls := [];
  longRedCls := [[]; []; []];
  litStats := {| irredLits := 0; redLits := 0 |};
  binTri := {| irredBins := 0; redBins := 0; numNewBinsSinceSCC := 0 |};
  xorclauses := []; watches := replicate (2 * n) [];
  trail := []; zeroLevAssignsByCNF := 0; finalCl_tmp := [];
  sumConflicts := 0; assumptionsSet := replicate n false;
  compHandler := false; occsimplifier := true; outside_assumptions := [];
  full_model := [];
  solveStats := {| numSimplify := 0; num_solve_calls := 0 |};
  model := []; others := tt
|}.

(** The positive and the negative literal of variable [v]. *)
Definition pos (v : N) : Lit := mkLit v false.
Definition neg (v : N) : Lit := mkLit v true.

(** Six outer variables, five of them in the inter namespace; variable 1 is
    assigned and variable 2 eliminated. *)
Definition to_renumber : Solver :=
  set_nVars 5
    (set_assigns [l_Undef; l_True; l_Undef; l_Undef; l_Undef; l_Undef]
       (set_varData
          [Removed_none; Removed_none; elimed; Removed_none; Removed_none;
           Removed_none]
          (fresh_solver 6))).

(** Three variables, all true in the model, and the clauses
    [x0 ∨ x1], [x0 ∨ ¬x1] and [x0 ∨ x1 ∨ x2]. *)
Definition to_minimise : Solver :=
  set_model [l_True; l_True; l_True]
    (set_longIrredCls [0]
       (set_cl_alloc
          [{| cl_lits := [pos 0; pos 1; pos 2]; cl_red := false;
              cl_stats := ClauseStats_default; cl_strengthened := false |}]
          (watch_bin (pos 0) (neg 1) false
             (watch_bin (pos 0) (pos 1) false (fresh_solver 3))))).

(** Collaborators of the renumbering: [CNF::updateVars] moves the values
    and the removal marks of the variables, the other updates do nothing
    to the state modelled here; memory is saved. *)
Definition renumberer : Renumberer := {|
  double_sub := Qminus;
  double_div := Qdiv;
  double_lit_1_0 := 1%Q;
  double_lit_0_2 := (1 # 5)%Q;
  updateLitsMap := λ o lits,
    map (λ l, mkLit (N.of_nat (default 0 (o !! N.to_nat (var l)))) (sign l))
      lits;
  getUpdatedVar := λ v o, N.of_nat (default 0 (o !! N.to_nat v));
  CNF_updateVars := λ _ i s,
    set_varData ((λ x, default Removed_none (varData s !! x)) <$> i)
      (set_assigns ((λ x, default l_Undef (assigns s !! x)) <$> i) s);
  PropEngine_updateVars := λ _ _ _ s, s;
  Searcher_updateVars := λ _ _ s, s;
  stamp_updateVars := λ _ _ s, s;
  varReplacer_updateVars := λ _ _ s, s;
  implCache_updateVars := λ _ _ _ s, s;
  datasync_updateVars := λ _ _ s, s;
  doSaveMem := λ _, true;
  Searcher_save_on_var_memory := λ s, s;
  varReplacer_save_on_var_memory := λ s, s;
  occsimplifier_save_on_var_memory := λ s, s;
  compHandler_save_on_var_memory := λ s, s;
  datasync_save_on_var_memory := λ s, s
|}.

(** Six variables, of which the first is assigned. *)
Definition sparse : Solver :=
  set_assigns [l_True; l_Undef; l_Undef; l_Undef; l_Undef; l_Undef]
    (fresh_solver 6).

(** Three variables, of which variable 1 is false. *)
Definition x1_false : Solver := assign_lit (neg 1) (fresh_solver 3).

End Example.

(* ===================================================================== *)
(** * Part II: properties of the program *)
(* ===================================================================== *)

(** ** Tactics for running the outcome monad *)

Ltac unfold_M :=
  unfold mbind, mret, M_bind, M_ret, get, gets, modify, throw, exit, call,
    out_of_fuel,
    when in *.

Lemma mbind_Ret `{PF : Platform} {A B} (m : M A) (k : A → M B)
    (s s' : Solver) (b : B) :
  (m ≫= k) s = Ret b s' → ∃ a s1, m s = Ret a s1 ∧ k a s1 = Ret b s'.
Proof.
  unfold mbind, M_bind. destruct (m s) as [a s1| | |]; try discriminate. eauto.
Qed.

Lemma mbind_get `{PF : Platform} {B} (k : Solver → M B) (s : Solver) :
  (get ≫= k) s = k s s.
Proof. reflexivity. Qed.

(** Two sequences agree when their heads agree and their tails agree on what
    the head returns. *)
Lemma mbind_cong `{PF : Platform} {A B} (m1 m2 : M A) (k1 k2 : A → M B)
    (s : Solver) :
  m1 s = m2 s →
  (∀ a s', m1 s = Ret a s' → k1 a s' = k2 a s') →
  (m1 ≫= k1) s = (m2 ≫= k2) s.
Proof.
  intros Hm Hk. unfold mbind, M_bind. rewrite <- Hm.
  destruct (m1 s); auto.
Qed.

(** ** Literals *)

Lemma toLit_toInt (l : Lit) : toLit (toInt l) = l.
Proof. by destruct l. Qed.

Lemma lit_xor_false (l : Lit) : lit_xor l false = l.
Proof. destruct l as [x]. unfold lit_xor; simpl. by rewrite N.lxor_0_r. Qed.

Lemma lit_xor_true (l : Lit) : lit_xor l true = lit_neg l.
Proof. reflexivity. Qed.

Lemma var_lit_neg (l : Lit) : var (lit_neg l) = var l.
Proof.
  unfold var, lit_neg; simpl. rewrite N.shiftr_lxor. simpl.
  by rewrite N.lxor_0_r.
Qed.

Lemma sign_lit_neg (l : Lit) : sign (lit_neg l) = negb (sign l).
Proof.
  unfold sign, lit_neg; simpl. rewrite N.lxor_spec. simpl.
  by rewrite xorb_true_r.
Qed.

Lemma value_of_lit_neg (a : list lbool) (l : Lit) :
  value_of a (lit_neg l) = lbool_xor (value_of a l) true.
Proof.
  unfold value_of. rewrite var_lit_neg, sign_lit_neg.
  destruct (default l_Undef _), (sign l); reflexivity.
Qed.

(** ** The cleaning pipeline *)

Section Cleaning.
Context `{CO : Collab}.

Lemma clean_scan_app (a : list lbool) (pre rest : list Lit) :
  ∀ p kept,
    clean_scan a p kept (pre ++ rest) =
    match clean_scan a p kept pre with
    | ScanKept p' kept' => clean_scan a p' kept' rest
    | r => r
    end.
Proof.
  induction pre as [|l pre IH]; intros p kept; simpl; [done|].
  repeat case_decide; auto.
Qed.

(** A literal that was retained is unassigned. *)
Lemma clean_scan_retained_undef (a : list lbool) (pre : list Lit) :
  ∀ p0 k0 p kept,
    (k0 ≠ [] → value_of a p0 = l_Undef) →
    clean_scan a p0 k0 pre = ScanKept p kept →
    kept ≠ [] → value_of a p = l_Undef.
Proof.
  induction pre as [|l pre IH]; intros p0 k0 p kept Hinv; simpl.
  - intros [= <- <-]. exact Hinv.
  - repeat case_decide; try discriminate.
    + apply IH. intros _. destruct (value_of a l); tauto.
    + apply IH. exact Hinv.
Qed.

(** C4. When the scan of the sorted clause meets the complement of the
    literal it retained last (the sorted clause is [pre ++ ~p :: post] and
    the scan of [pre] ends with [p] retained), the clause is dropped:
    [sort_and_clean_clause] answers false and [add_clause_int] returns no
    clause and touches nothing but [undef_must_set_vars]; for an irredundant
    clause the outer variable of [p] is then marked there, for a redundant
    one the vector is left as it was. *)
Theorem tautology_is_discarded (s : Solver) (ps pre post kept : list Lit)
    (p : Lit) (red : bool) (stats : ClauseStats)
    (attach_long finalLits addDrat : bool) (drat_first : Lit) :
  std_sort ps = pre ++ lit_neg p :: post →
  clean_scan (assigns s) lit_Undef [] pre = ScanKept p kept →
  kept ≠ [] →
  (map_inter_to_outer s (var p) + 1 < 2 ^ 32)%N →
  let s' := if red then s else mark_must_set p s in
  sort_and_clean_clause ps red s = Ret None s'
  ∧ add_clause_int ps red stats attach_long finalLits addDrat drat_first s
    = Ret None s'
  ∧ (cl_alloc s' = cl_alloc s ∧ longIrredCls s' = longIrredCls s
     ∧ longRedCls s' = longRedCls s ∧ watches s' = watches s
     ∧ trail s' = trail s ∧ assigns s' = assigns s ∧ ok s' = ok s
     ∧ litStats s' = litStats s ∧ binTri s' = binTri s
     ∧ others s' = others s)
  ∧ (red = false →
     undef_must_set_vars s' !! N.to_nat (map_inter_to_outer s (var p))
     = Some true)
  ∧ (red = true → undef_must_set_vars s' = undef_must_set_vars s).
Proof.
  intros Hsort Hpre Hkept Hrange s'.
  assert (Hundef : value_of (assigns s) p = l_Undef).
  { eapply clean_scan_retained_undef; [|exact Hpre|exact Hkept]. done. }
  assert (Hscan : clean_scan (assigns s) lit_Undef [] (std_sort ps)
                  = ScanTautology p).
  { rewrite Hsort, clean_scan_app, Hpre. simpl.
    rewrite value_of_lit_neg, Hundef. simpl.
    case_decide; [done|]. by case_decide. }
  assert (Hclean : sort_and_clean_clause ps red s = Ret None s').
  { unfold sort_and_clean_clause. unfold_M. rewrite Hscan.
    subst s'. by destruct red. }
  split; [exact Hclean|].
  split.
  { unfold add_clause_int. unfold mbind at 1, M_bind. by rewrite Hclean. }
  split.
  { subst s'. destruct red; simpl; done. }
  split.
  - intros ->. subst s'. unfold mark_must_set. simpl.
    set (v := map_inter_to_outer s (var p)) in *.
    assert (Hu : u32 (v + 1) = (v + 1)%N).
    { unfold u32. by apply N.mod_small. }
    rewrite Hu. apply list_lookup_insert_eq.
    case_match eqn:Hlt.
    + rewrite length_resize. lia.
    + apply N.ltb_ge in Hlt. lia.
  - intros ->. by subst s'.
Qed.

End Cleaning.

(** ** The refuted state *)

Section Sticky.
Context `{CO : Collab}.

(** C3, as the code has it. Once [ok] is false, [add_clause_outer] returns
    false and the state it leaves is the state it found; so does
    [addClauseHelper]. [addClause] tests for blocked clauses before it comes
    to [ok]: with occurrence-based simplification configured and a clause
    blocked it leaves the process with exit code -1, and otherwise it
    returns false and leaves the state as it found it. *)
Theorem refuted_state_is_sticky (s : Solver) (lits : list Lit) (red : bool) :
  ok s = false →
  add_clause_outer lits red s = Ret false s
  ∧ addClauseHelper lits s = Ret (false, lits) s
  ∧ addClause lits red s
    = (if perform_occur_based_simp (conf s) && getAnythingHasBeenBlocked s
       then Exit (-1) else Ret false s).
Proof.
  intros Hok. repeat split.
  - unfold add_clause_outer. unfold_M. by rewrite Hok.
  - unfold addClauseHelper. unfold_M. by rewrite Hok.
  - unfold addClause, addClauseHelper. unfold_M.
    destruct (_ && _); [done|]. by rewrite Hok.
Qed.

End Sticky.

(** ** Retention tiers *)

Section Tiers.
Context `{CO : Collab}.

(** The guard [glue_put_lev1_if_below_or_eq != 0] of the code never decides:
    a glue that is at most a zero threshold is zero, hence at most the first
    threshold as well. *)
Lemma tier_of_by_glue (c : SolverConf) (g : N) :
  tier_of c g
  = tier_by_glue (glue_put_lev0_if_below_or_eq c)
      (glue_put_lev1_if_below_or_eq c) g.
Proof.
  unfold tier_of, tier_by_glue.
  destruct (N.leb_spec g (glue_put_lev0_if_below_or_eq c)); [done|].
  destruct (N.leb_spec g (glue_put_lev1_if_below_or_eq c)); [|done].
  destruct (N.eqb_spec (glue_put_lev1_if_below_or_eq c) 0); [lia|done].
Qed.

Lemma tier_by_glue_lt_3 (t0 t1 g : N) : (tier_by_glue t0 t1 g < 3)%N.
Proof. unfold tier_by_glue. repeat case_match; lia. Qed.

Lemma alter_new_slot {A} (f : A → A) (l : list A) (x : A) :
  alter f (length l) (l ++ [x]) = l ++ [f x].
Proof.
  rewrite alter_app_r_alt by done. by rewrite Nat.sub_diag.
Qed.

Lemma lookup_new_slot {A} (l : list A) (x : A) :
  (l ++ [x]) !! length l = Some x.
Proof. by rewrite list_lookup_middle. Qed.

(** What [add_clause_int] does with a clause that keeps three literals or
    more: the clause goes to the end of the arena and is counted. *)
Lemma add_clause_int_long (s s0 : Solver) (lits ps : list Lit) (red : bool)
    (stats : ClauseStats) (attach_long finalLits : bool) (drat_first : Lit) :
  sort_and_clean_clause lits red s = Ret (Some ps) s0 →
  3 ≤ length ps →
  add_clause_int lits red stats attach_long finalLits false drat_first s
  = Ret (Some (length (cl_alloc s0)))
      (let s1 := if finalLits then set_finalCl_tmp ps s0 else s0 in
       let s2 := set_cl_alloc
                   (cl_alloc s0
                    ++ [{| cl_lits := ps; cl_red := red; cl_stats := stats;
                           cl_strengthened := false |}]) s1 in
       let s3 := if red
                 then set_redLits
                        (u64 (redLits (litStats s0) + N.of_nat (length ps)))
                        s2
                 else set_irredLits
                        (u64 (irredLits (litStats s0) + N.of_nat (length ps)))
                        s2 in
       if attach_long
       then PropEngine_attachClause (length (cl_alloc s0)) s3 else s3).
Proof.
  intros Hclean Hlen.
  unfold add_clause_int. unfold mbind at 1, M_bind. rewrite Hclean.
  destruct ps as [|a [|b [|c ps]]]; simpl in Hlen; try lia.
  destruct finalLits, red, attach_long;
    unfold Clause_new, attachClause, add_lit_count; unfold_M; cbn;
    rewrite ?alter_new_slot, ?lookup_new_slot; reflexivity.
Qed.

(** The filing step at the end of [addClause], on a redundant clause. *)
Lemma addClause_file_red (s : Solver) (offset : ClOffset) (c : Clause) :
  cl_alloc s !! offset = Some c →
  let w := tier_by_glue (glue_put_lev0_if_below_or_eq (conf s))
             (glue_put_lev1_if_below_or_eq (conf s)) (glue (cl_stats c)) in
  addClause_file (Some offset) true s
  = Ret tt
      (set_longRedCls
         (alter (λ v, v ++ [offset]) (N.to_nat w) (longRedCls s))
         (set_cl_alloc (<[offset := set_which_red_array w c]> (cl_alloc s))
            s)).
Proof.
  intros Hc w. unfold addClause_file, alter_clause. unfold_M. cbn.
  rewrite !list_lookup_alter_eq, Hc. cbn. rewrite tier_of_by_glue. fold w.
  assert (E : alter (set_which_red_array w) offset
                (alter (set_which_red_array 2) offset (cl_alloc s))
              = <[offset := set_which_red_array w c]> (cl_alloc s)).
  { apply list_eq. intros k. destruct (decide (k = offset)) as [->|Hk].
    - rewrite !list_lookup_alter_eq, Hc, list_lookup_insert_eq
        by (by eapply lookup_lt_Some). done.
    - by rewrite !list_lookup_alter_ne, list_lookup_insert_ne by done. }
  rewrite E. reflexivity.
Qed.

Lemma keeps_cl_alloc (f : Solver → Solver) (s : Solver) :
  keeps_clauses f → cl_alloc (f s) = cl_alloc s.
Proof. intros H. apply H. Qed.

Lemma keeps_longRedCls (f : Solver → Solver) (s : Solver) :
  keeps_clauses f → longRedCls (f s) = longRedCls s.
Proof. intros H. apply H. Qed.

Lemma keeps_longIrredCls (f : Solver → Solver) (s : Solver) :
  keeps_clauses f → longIrredCls (f s) = longIrredCls s.
Proof. intros H. apply H. Qed.

Lemma keeps_conf (f : Solver → Solver) (s : Solver) :
  keeps_clauses f → conf (f s) = conf s.
Proof. intros H. apply H. Qed.

(** C5. A redundant clause that [addClause] admits as a long clause (the
    blocked-clause exit is not taken, [addClauseHelper] answers true, and
    the cleaning keeps [kept], three literals or more) is stored at the end
    of the arena with the glue of [ClauseStats()], and is filed under the
    tier [tier_by_glue] gives for that glue: the clause records the tier in
    [which_red_array] and its offset is appended to that tier's vector.
    The engine's attaching and the writing of the proof trace are taken to
    leave the clause database alone. *)
Theorem redundant_clause_tier (s s1 s2 : Solver) (lits ps kept : list Lit) :
  (∀ off, keeps_clauses (PropEngine_attachClause off)) →
  (∀ c, keeps_clauses (drat_add c)) →
  keeps_clauses drat_fin →
  (∀ c, keeps_clauses (drat_del c)) →
  perform_occur_based_simp (conf s) && getAnythingHasBeenBlocked s = false →
  addClauseHelper lits s = Ret (true, ps) s1 →
  sort_and_clean_clause (std_sort ps) true (set_finalCl_tmp [] s1)
  = Ret (Some kept) s2 →
  3 ≤ length kept →
  let offset := length (cl_alloc s2) in
  let g := glue ClauseStats_default in
  let w := tier_by_glue (glue_put_lev0_if_below_or_eq (conf s2))
             (glue_put_lev1_if_below_or_eq (conf s2)) g in
  ∃ b s', addClause lits true s = Ret b s'
    ∧ cl_alloc s'
      = cl_alloc s2
        ++ [{| cl_lits := kept; cl_red := true;
               cl_stats := {| glue := g; which_red_array := w |};
               cl_strengthened := false |}]
    ∧ longRedCls s'
      = alter (λ v, v ++ [offset]) (N.to_nat w) (longRedCls s2)
    ∧ longIrredCls s' = longIrredCls s2
    ∧ w = (if (g <=? glue_put_lev0_if_below_or_eq (conf s2))%N then 0
           else if (g <=? glue_put_lev1_if_below_or_eq (conf s2))%N then 1
           else 2)%N.
Proof.
  intros Hatt Hadd Hfin Hdel Hblocked Hhelper Hclean Hlen offset g w.
  unfold addClause. rewrite mbind_get, Hblocked.
  unfold mbind at 1, M_bind. rewrite Hhelper. cbn [negb].
  unfold mbind at 1, M_bind, modify at 1.
  unfold mbind at 1, M_bind.
  rewrite (add_clause_int_long _ s2 _ kept) by done.
  cbv zeta iota. unfold mbind at 1, M_bind, get at 1.
  set (cl0 := {| cl_lits := kept; cl_red := true;
                 cl_stats := ClauseStats_default;
                 cl_strengthened := false |}).
  set (sA := PropEngine_attachClause _ _).
  assert (HA : cl_alloc sA = cl_alloc s2 ++ [cl0]
               ∧ longRedCls sA = longRedCls s2
               ∧ longIrredCls sA = longIrredCls s2 ∧ conf sA = conf s2).
  { unfold sA.
    by rewrite keeps_cl_alloc, keeps_longRedCls, keeps_longIrredCls,
      keeps_conf by done. }
  unfold mbind at 1, M_bind.
  match goal with
  | |- context [when ?c ?m sA] =>
      assert (HB : ∃ sB, when c m sA = Ret tt sB
                ∧ cl_alloc sB = cl_alloc sA ∧ longRedCls sB = longRedCls sA
                ∧ longIrredCls sB = longIrredCls sA ∧ conf sB = conf sA)
  end.
  { destruct (drat_enabled sA && _); [|by eexists].
    unfold_M.
    destruct (negb (bool_decide (finalCl_tmp sA = []))); cbn;
      match goal with |- context [negb (ok ?x)] => destruct (negb (ok x)) end;
      cbn; eexists; (split; [reflexivity|]);
      by rewrite ?(keeps_cl_alloc (drat_del _)),
        ?(keeps_longRedCls (drat_del _)), ?(keeps_longIrredCls (drat_del _)),
        ?(keeps_conf (drat_del _)), ?(keeps_cl_alloc drat_fin),
        ?(keeps_longRedCls drat_fin), ?(keeps_longIrredCls drat_fin),
        ?(keeps_conf drat_fin), ?(keeps_cl_alloc (drat_add _)),
        ?(keeps_longRedCls (drat_add _)), ?(keeps_longIrredCls (drat_add _)),
        ?(keeps_conf (drat_add _)) by done. }
  destruct HB as (sB & -> & HB1 & HB2 & HB3 & HB4).
  destruct HA as (HA1 & HA2 & HA3 & HA4).
  unfold mbind at 1, M_bind.
  rewrite (addClause_file_red sB (length (cl_alloc s2)) cl0)
    by (rewrite HB1, HA1; apply lookup_new_slot).
  unfold_M. do 2 eexists. split; [reflexivity|]. cbn.
  rewrite HB1, HB2, HB3, HB4, HA1, HA2, HA3, HA4.
  fold g w. split.
  { rewrite insert_app_r_alt by done. by rewrite Nat.sub_diag. }
  split; [done|]. split; [done|]. done.
Qed.



End Tiers.

(** ** Which calls can throw *)

Section Avoids.
Context `{PF : Platform}.
Context (P : Failure → Prop).

Lemma avoids_ret {A} (a : A) : avoids P (mret a).
Proof. by intros s f. Qed.

Lemma avoids_get : avoids P get.
Proof. by intros s f. Qed.

Lemma avoids_gets {A} (g : Solver → A) : avoids P (gets g).
Proof. by intros s f. Qed.

Lemma avoids_modify (g : Solver → Solver) : avoids P (modify g).
Proof. by intros s f. Qed.

Lemma avoids_call {A} (g : Solver → A * Solver) : avoids P (call g).
Proof. intros s f. unfold call. by destruct (g s). Qed.

Lemma avoids_exit {A} (c : Z) : ¬ P (FExit c) → avoids P (@exit _ A c).
Proof. intros H s f [= <-]. exact H. Qed.

Lemma avoids_throw {A} (e : Exn) :
  (∀ s, ¬ P (FThrow e s)) → avoids P (@throw _ A e).
Proof. intros H s f [= <-]. apply H. Qed.

Lemma avoids_out_of_fuel {A} : ¬ P FOutOfFuel → avoids P (@out_of_fuel _ A).
Proof. intros H s f [= <-]. exact H. Qed.

Lemma avoids_bind {A B} (m : M A) (k : A → M B) :
  avoids P m → (∀ a, avoids P (k a)) → avoids P (m ≫= k).
Proof.
  intros Hm Hk s f. unfold mbind, M_bind.
  destruct (m s) as [a s1|e s1|c|] eqn:E; [apply Hk|..];
    intros [= <-]; eapply Hm; by rewrite ?E.
Qed.

Lemma avoids_when (b : bool) (m : M unit) : avoids P m → avoids P (when b m).
Proof. destruct b; [done|]. intros _. apply avoids_ret. Qed.

End Avoids.

Lemma never_throws_spec `{PF : Platform} {A} (m : M A) :
  never_throws m ↔ ∀ s e s', m s ≠ Throw e s'.
Proof.
  unfold never_throws, avoids. split.
  - intros H s e s' E. eapply (H s); [by rewrite E|done].
  - intros H s f Hf Hp. destruct (m s) eqn:E; simplify_eq/=; try done.
    by eapply H.
Qed.

Lemma never_out_of_fuel_spec `{PF : Platform} {A} (m : M A) :
  never_out_of_fuel m ↔ ∀ s, m s ≠ OutOfFuel.
Proof.
  unfold never_out_of_fuel, avoids. split.
  - intros H s E. eapply (H s); [by rewrite E|done].
  - intros H s f Hf Hp. destruct (m s) eqn:E; simplify_eq/=; try done.
    by eapply H.
Qed.

(** Decomposes a goal [avoids P m] along the structure of [m]. *)
Ltac avoid :=
  unfold never_throws, never_out_of_fuel in *;
  repeat first
    [ assumption
    | apply avoids_ret | apply avoids_get
    | apply avoids_gets | apply avoids_modify
    | apply avoids_call
    | apply avoids_exit; solve [simpl; tauto]
    | apply avoids_out_of_fuel; solve [simpl; tauto]
    | apply avoids_throw; solve [simpl; intros; tauto]
    | apply avoids_when
    | apply avoids_bind; [|intros ?]
    | match goal with
      | |- avoids _ (if ?b then _ else _) => destruct b eqn:?
      | |- avoids _ (match ?x with _ => _ end) => destruct x
      | |- avoids _ (let '(_, _) := ?x in _) => destruct x
      end ].

Section Throwing.
Context `{CO : Collab}.
Context (P : Failure → Prop).

Lemma avoids_new_var (bva : bool) (orig_outer : N) :
  avoids P (new_var bva orig_outer).
Proof. unfold new_var, check_switchoff_limits_newvar. avoid. Qed.

Lemma avoids_add_clause_int lits red stats attach_long finalLits
    addDrat drat_first :
  avoids P
    (add_clause_int lits red stats attach_long finalLits addDrat drat_first).
Proof.
  unfold add_clause_int, sort_and_clean_clause, Clause_new, alter_clause,
    attachClause, attach_bin_clause, add_lit_count.
  avoid.
Qed.

Lemma avoids_addClause_file cl red : avoids P (addClause_file cl red).
Proof. unfold addClause_file, alter_clause. avoid. Qed.

Lemma avoids_cleaned_cut_loop lits attach addDrat combs :
  avoids P (cleaned_cut_loop lits attach addDrat combs).
Proof.
  induction combs as [|i combs IH]; simpl; avoid;
    try apply avoids_add_clause_int.
Qed.

(** A pass fails only where the rest of the loop does. *)
Lemma avoids_add_every_combination_xor_pass (lits : list Lit)
    (attach addDrat : bool) (at_ : nat) (last : Lit)
    (k : nat → Lit → M unit) :
  at_ ≤ length lits →
  (∀ at' l, at_ < at' ≤ length lits → avoids P (k at' l)) →
  avoids P (add_every_combination_xor_pass lits attach addDrat at_ last k).
Proof.
  intros Hat Hk. unfold add_every_combination_xor_pass.
  destruct (Nat.eqb_spec at_ (length lits)) as [|Hne]; [apply avoids_ret|].
  assert (Hlen : 1 ≤ length (take 2 (drop at_ lits))).
  { rewrite length_take, length_drop. lia. }
  assert (Hlen2 : at_ + length (take 2 (drop at_ lits)) ≤ length lits).
  { rewrite length_take, length_drop. lia. }
  set (at1 := at_ + length (take 2 (drop at_ lits))) in *.
  destruct (negb (bool_decide (last = lit_Undef)));
    [|destruct (Nat.ltb_spec at1 (length lits))];
    match goal with
    | |- context [S ?a =? length lits] =>
        destruct (Nat.eqb_spec (S a) (length lits))
    end;
    cbv beta iota zeta;
    (apply avoids_bind;
     [avoid; apply avoids_new_var
     |intros [xl ll]; apply avoids_bind;
      [apply avoids_cleaned_cut_loop
      |intros []; apply avoids_bind; [apply avoids_get|];
       intros s3; destruct (negb (ok s3)); [apply avoids_ret|];
       apply Hk; lia]]).
Qed.

End Throwing.

Section ThrowingIngress.
Context `{CO : Collab}.

Lemma never_throws_addClauseHelper_update (ps : list Lit) :
  never_throws (addClauseHelper_update ps).
Proof.
  induction ps as [|l ps IH]; simpl; avoid.
Qed.

Lemma never_throws_addClauseHelper_uneliminate (ps : list Lit) :
  never_throws (addClauseHelper_uneliminate ps).
Proof. induction ps as [|l ps IH]; simpl; avoid. Qed.

Lemma never_throws_add_every_combination_xor_loop fuel lits attach addDrat :
  ∀ at_ lastlit_added,
    at_ ≤ length lits →
    never_throws
      (add_every_combination_xor_loop fuel lits attach addDrat at_
         lastlit_added).
Proof.
  induction fuel as [|fuel IH]; intros at_ lastlit_added Hat; simpl;
    [avoid|].
  apply avoids_add_every_combination_xor_pass; [done|].
  intros at' l ?. apply IH. lia.
Qed.

(** The cutting loop is total: with the fuel [add_every_combination_xor]
    gives it, it is never cut short. *)
Lemma never_out_of_fuel_add_every_combination_xor_loop fuel lits attach
    addDrat :
  ∀ at_ lastlit_added,
    at_ ≤ length lits → length lits - at_ ≤ fuel →
    never_out_of_fuel
      (add_every_combination_xor_loop fuel lits attach addDrat at_
         lastlit_added).
Proof.
  induction fuel as [|fuel IH]; intros at_ lastlit_added Hat Hfuel; simpl.
  - assert (at_ = length lits) as -> by lia. rewrite Nat.eqb_refl. avoid.
  - apply avoids_add_every_combination_xor_pass; [done|].
    intros at' l ?. apply IH; lia.
Qed.

Lemma add_every_combination_xor_total (lits : list Lit)
    (attach addDrat : bool) (s : Solver) :
  add_every_combination_xor lits attach addDrat s ≠ OutOfFuel.
Proof.
  apply never_out_of_fuel_spec.
  apply never_out_of_fuel_add_every_combination_xor_loop; lia.
Qed.

(** A clause of at most 2^28 literals gets through [addClause] without an
    exception. *)
Lemma addClause_not_too_long (s : Solver) (lits : list Lit) (red : bool) :
  (N.of_nat (length lits) ≤ 2 ^ 28)%N →
  ∀ e s', addClause lits red s ≠ Throw e s'.
Proof.
  intros Hlen. revert s. apply never_throws_spec.
  unfold addClause, addClauseHelper. avoid.
  all: try apply avoids_add_clause_int.
  all: try apply avoids_addClause_file.
  all: try apply never_throws_addClauseHelper_update.
  all: try apply never_throws_addClauseHelper_uneliminate.
  match goal with
  | H : (_ <? _)%N = true |- _ => apply N.ltb_lt in H; lia
  end.
Qed.

End ThrowingIngress.

(** ** The bound on the length of a clause *)

Section TooLong.
Context `{CO : Collab}.

Lemma check_too_large_variable_number_ok (s : Solver) (lits : list Lit) :
  Forall (λ l, (var l < nVarsOutside s)%N ∧ (var l < var_Undef)%N) lits →
  check_too_large_variable_number lits s = Ret tt s.
Proof.
  induction 1 as [|l lits [H1 H2] _ IH]; simpl; [done|].
  unfold mbind, M_bind, get.
  apply N.leb_gt in H1, H2. by rewrite H1, H2.
Qed.

Lemma add_clause_outer_refuted (s : Solver) (lits : list Lit) (red : bool) :
  ok s = false → add_clause_outer lits red s = Ret false s.
Proof. intros Hok. unfold add_clause_outer. unfold_M. by rewrite Hok. Qed.

(** With [ok] set and declared variables, what [add_clause_outer] does is
    what [addClause] does on the renumbered literals. *)
Lemma add_clause_outer_admitted (s : Solver) (lits : list Lit) (red : bool) :
  ok s = true →
  Forall (λ l, (var l < nVarsOutside s)%N ∧ (var l < var_Undef)%N) lits →
  add_clause_outer lits red s
  = addClause (back_number_from_outside_to_outer s lits) red s.
Proof.
  intros Hok Hvars. unfold add_clause_outer.
  unfold mbind at 1, M_bind, get. rewrite Hok. simpl.
  unfold mbind at 1, M_bind.
  by rewrite check_too_large_variable_number_ok.
Qed.

Lemma add_xor_clause_inter_never_throws_below (s : Solver) (xlits : list Lit)
    (rhs attach addDrat : bool) :
  (N.of_nat (length (xor_cleaned s xlits rhs).1) < 2 ^ 28)%N →
  ∀ e s', add_xor_clause_inter xlits rhs attach addDrat s ≠ Throw e s'.
Proof.
  intros Hlen. unfold add_xor_clause_inter.
  unfold mbind at 1, M_bind, get.
  destruct (xor_cleaned s xlits rhs) as [ps rhs']. simpl in Hlen.
  apply N.leb_gt in Hlen. rewrite Hlen.
  revert s Hlen. intros s _. revert s. apply never_throws_spec.
  unfold add_every_combination_xor. avoid.
  all: apply never_throws_add_every_combination_xor_loop; lia.
Qed.

End TooLong.

(** ** The XOR cutting *)

Section XorCut.
Context `{CO : Collab}.

Lemma mbind_ext {A B} (m : M A) (k1 k2 : A → M B) (s : Solver) :
  (∀ a s1, k1 a s1 = k2 a s1) → (m ≫= k1) s = (m ≫= k2) s.
Proof. intros H. unfold mbind, M_bind. destruct (m s); auto. Qed.

(** A pass hands to the rest of the loop a position that is further on. *)
Lemma add_every_combination_xor_pass_ext (lits : list Lit)
    (attach addDrat : bool) (at_ : nat) (last : Lit)
    (k1 k2 : nat → Lit → M unit) (s : Solver) :
  at_ ≤ length lits →
  (∀ at' l s', at_ < at' ≤ length lits → k1 at' l s' = k2 at' l s') →
  add_every_combination_xor_pass lits attach addDrat at_ last k1 s
  = add_every_combination_xor_pass lits attach addDrat at_ last k2 s.
Proof.
  intros Hat Hk. unfold add_every_combination_xor_pass.
  destruct (Nat.eqb_spec at_ (length lits)) as [|Hne]; [done|].
  assert (Hlen : 1 ≤ length (take 2 (drop at_ lits))).
  { rewrite length_take, length_drop. lia. }
  assert (Hlen2 : at_ + length (take 2 (drop at_ lits)) ≤ length lits).
  { rewrite length_take, length_drop. lia. }
  set (at1 := at_ + length (take 2 (drop at_ lits))) in *.
  destruct (negb (bool_decide (last = lit_Undef)));
    [|destruct (Nat.ltb_spec at1 (length lits))];
    match goal with
    | |- context [S ?a =? length lits] =>
        destruct (Nat.eqb_spec (S a) (length lits))
    end;
    cbv beta iota zeta;
    apply mbind_ext; intros [xl ll] s1;
    apply mbind_ext; intros [] s2;
    apply mbind_ext; intros s3 s4;
    (destruct (negb (ok s3)); [done|]); apply Hk; lia.
Qed.

(** The fuel of the cutting loop is never used up: any two amounts that
    cover the literals still to be placed give the same run. *)
Lemma add_every_combination_xor_loop_fuel (lits : list Lit)
    (attach addDrat : bool) :
  ∀ fuel fuel' at_ lastlit_added s,
    at_ ≤ length lits →
    length lits - at_ ≤ fuel → length lits - at_ ≤ fuel' →
    add_every_combination_xor_loop fuel lits attach addDrat at_
      lastlit_added s
    = add_every_combination_xor_loop fuel' lits attach addDrat at_
        lastlit_added s.
Proof.
  induction fuel as [|fuel IH]; intros fuel' at_ last s Hat Hf Hf'.
  - assert (at_ = length lits) as -> by lia.
    destruct fuel'; simpl; [done|].
    unfold add_every_combination_xor_pass. by rewrite Nat.eqb_refl.
  - destruct fuel' as [|fuel'].
    { assert (at_ = length lits) as -> by lia. simpl.
      unfold add_every_combination_xor_pass. by rewrite Nat.eqb_refl. }
    simpl. apply add_every_combination_xor_pass_ext; [done|].
    intros at' l s' Hat'. apply IH; lia.
Qed.

Lemma xor_combinations4 (a b c d : Lit) :
  map (xor_combination [a; b; c; d]) [1; 2; 4; 7; 8; 11; 13; 14]%N
  = odd_parity_clauses4 a b c d.
Proof.
  unfold xor_combination, odd_parity_clauses4. cbn.
  by rewrite !lit_xor_false.
Qed.

(** A cut of four literals is expanded into its eight odd-parity clauses. *)
Lemma cleaned_cut4 (a b c d : Lit) (attach addDrat : bool) (s : Solver) :
  add_xor_clause_inter_cleaned_cut [a; b; c; d] attach addDrat s
  = ingest_until_refuted (odd_parity_clauses4 a b c d) attach addDrat s.
Proof. rewrite <- xor_combinations4. reflexivity. Qed.

(** Four literals make one cut, and no variable is asked for. *)
Lemma single_cut4 (a b c d : Lit) (attach addDrat : bool) (s : Solver) :
  add_every_combination_xor [a; b; c; d] attach addDrat s
  = add_xor_clause_inter_cleaned_cut [a; b; c; d] attach addDrat s.
Proof.
  unfold add_every_combination_xor. simpl length.
  unfold add_every_combination_xor_loop, add_every_combination_xor_pass.
  cbn -[add_xor_clause_inter_cleaned_cut lit_Undef bool_decide].
  rewrite bool_decide_eq_true_2 by done.
  cbn -[add_xor_clause_inter_cleaned_cut lit_Undef].
  unfold mbind, M_bind, mret, M_ret, get.
  destruct (add_xor_clause_inter_cleaned_cut _ _ _ s) as [[] s1| | |];
    [|done|done|done].
  by destruct (negb (ok s1)).
Qed.

(** C1, as the code has it. An XOR that is left with four literals
    [a, b, c, d] and right-hand side 0 after its cleaning is stored and
    encoded by one cut holding all four literals: no variable is allocated,
    and the cut is expanded into the eight clauses over [a, b, c, d] with an
    odd number of negated literals, which are handed to [add_clause_int] in
    turn until [ok] turns false. *)
Theorem xor4_is_one_cut (s : Solver) (lits : list Lit)
    (rhs attach addDrat : bool) (a b c d : Lit) :
  xor_cleaned s lits rhs = ([a; b; c; d], false) →
  add_xor_clause_inter lits rhs attach addDrat s
  = (modify (λ s, set_xorclauses
       (xorclauses s ++ [mkXor (map var [a; b; c; d]) false]) s);;
     ingest_until_refuted (odd_parity_clauses4 a b c d) attach addDrat;;
     gets ok) s
  ∧ add_every_combination_xor [a; b; c; d] attach addDrat s
    = add_xor_clause_inter_cleaned_cut [a; b; c; d] attach addDrat s
  ∧ add_xor_clause_inter_cleaned_cut [a; b; c; d] attach addDrat s
    = ingest_until_refuted (odd_parity_clauses4 a b c d) attach addDrat s.
Proof.
  intros Hclean. split; [|split; [apply single_cut4|apply cleaned_cut4]].
  unfold add_xor_clause_inter.
  unfold mbind at 1, M_bind, get. rewrite Hclean.
  cbn -[add_every_combination_xor ingest_until_refuted odd_parity_clauses4].
  unfold mbind, M_bind, modify.
  change (2 ^ 28 <=? N.of_nat 4)%N with false. cbv beta iota.
  rewrite lit_xor_false, single_cut4, cleaned_cut4. reflexivity.
Qed.

End XorCut.

(** ** The inprocessing scheduler *)

Section Scheduler.
Context `{CO : Collab}.

Lemma budget_exhausted_spec (s : Solver) :
  budget_exhausted s = true ↔
    (u64_of_long (maxConfl (conf s)) ≤ sumConflicts s)%N
    ∨ double_ltb (maxTime (conf s)) (cpuTime s) = true
    ∨ must_interrupt_asap s = true
    ∨ nVars s = 0%N
    ∨ ok s = false.
Proof.
  unfold budget_exhausted.
  rewrite !orb_true_iff, N.leb_le, N.eqb_eq, negb_true_iff. tauto.
Qed.

(** The stream of tokens is never empty: the scheduler appends ", " to the
    strategy, so a last token is read after the last comma. *)
Lemma getline_tokens_nonempty (l cur : list ascii) :
  getline_tokens cur (l ++ list_ascii_of_string ", ") ≠ [].
Proof.
  revert cur. induction l as [|c l IH]; intros cur; simpl; [done|].
  destruct (Ascii.eqb c ","); [done|apply IH].
Qed.

Lemma list_ascii_of_string_app (a b : string) :
  list_ascii_of_string (a ++ b)
  = list_ascii_of_string a ++ list_ascii_of_string b.
Proof. induction a as [|c a IH]; simpl; [done|]. by rewrite IH. Qed.

Lemma tokens_of_nonempty (strategy : string) : tokens_of strategy ≠ [].
Proof.
  unfold tokens_of. rewrite list_ascii_of_string_app.
  apply getline_tokens_nonempty.
Qed.

(** At the head of a turn of the loop with the budget exhausted, the call
    returns [ok] and nothing was executed. *)
Lemma execute_tokens_with_exhausted flush dispatch (startup : bool)
    (token : string) (rest : list string) (occ : string) (s : Solver) :
  budget_exhausted s = true →
  execute_tokens_with flush dispatch startup (token :: rest) occ s
  = Ret (ok s) s.
Proof. intros H. simpl. unfold mbind, M_bind, get. by rewrite H. Qed.

(** The budget check after the buffered [occ-] tokens were executed. *)
Lemma execute_tokens_with_exhausted_after_flush flush dispatch
    (startup : bool) (token : string) (rest : list string) (occ : string)
    (s0 s : Solver) :
  budget_exhausted s0 = false →
  occ ≠ "" → substr03 (tolower (trim token)) ≠ "occ" →
  flush startup occ s0 = Ret tt s →
  budget_exhausted s = true →
  execute_tokens_with flush dispatch startup (token :: rest) occ s0
  = Ret (ok s) s.
Proof.
  intros H0 Hocc Htok Hflush H. simpl. unfold mbind, M_bind, get.
  rewrite H0. rewrite !bool_decide_eq_false_2 by done. simpl.
  rewrite Hflush. by rewrite H.
Qed.

(** The loop runs [flush] and [dispatch] in states within budget only: what
    they would do in a state with the budget exhausted has no influence on
    the run. *)
Lemma execute_tokens_with_within_budget flush1 flush2 dispatch1 dispatch2
    (startup : bool) (tokens : list string) :
  (∀ occ s, budget_exhausted s = false →
            flush1 startup occ s = flush2 startup occ s) →
  (∀ tok occ s, budget_exhausted s = false →
                dispatch1 tok occ s = dispatch2 tok occ s) →
  ∀ occ s,
    execute_tokens_with flush1 dispatch1 startup tokens occ s
    = execute_tokens_with flush2 dispatch2 startup tokens occ s.
Proof.
  intros Hflush Hdispatch.
  induction tokens as [|token rest IH]; intros occ s; simpl; [done|].
  rewrite !mbind_get.
  destruct (budget_exhausted s) eqn:Hs; [done|].
  apply mbind_cong.
  - destruct (_ && _); [|done].
    apply mbind_cong; [by apply Hflush|done].
  - intros [occ0|b] s' Hst; [|done].
    assert (Hs' : budget_exhausted s' = false).
    { destruct (_ && _).
      - apply mbind_Ret in Hst as ([] & s1 & _ & Hst).
        rewrite mbind_get in Hst. unfold mret, M_ret in Hst.
        destruct (budget_exhausted s1) eqn:Hs1; by simplify_eq.
      - unfold mret, M_ret in Hst. by simplify_eq. }
    apply mbind_cong; [by apply Hdispatch|].
    intros [occ1|b] s2 _; [|done].
    rewrite !mbind_get. destruct (negb (ok s2)); [done|]. apply IH.
Qed.

(** C7. When a budget condition holds (the conflicts have reached
    [maxConfl], the CPU time exceeds [maxTime], an interrupt is asked for, no
    variable is left, or [ok] is false) at the head of a turn of the token
    loop, [execute_inprocess_strategy] returns the current [ok] at once, from
    its first turn or any later one, and likewise when it holds after the
    buffered [occ-] tokens were executed; and a token is only ever executed in
    a state where none of the conditions holds. *)
Theorem no_token_once_budget_exhausted (startup : bool) (strategy : string)
    (token : string) (rest : list string) (occ : string) (s : Solver) :
  (u64_of_long (maxConfl (conf s)) ≤ sumConflicts s)%N
  ∨ double_ltb (maxTime (conf s)) (cpuTime s) = true
  ∨ must_interrupt_asap s = true
  ∨ nVars s = 0%N
  ∨ ok s = false →
  execute_inprocess_strategy startup strategy s = Ret (ok s) s
  ∧ execute_tokens_with flush_occ dispatch_token startup (token :: rest) occ s
    = Ret (ok s) s
  ∧ (∀ s0, budget_exhausted s0 = false →
       occ ≠ "" → substr03 (tolower (trim token)) ≠ "occ" →
       flush_occ startup occ s0 = Ret tt s →
       execute_tokens_with flush_occ dispatch_token startup (token :: rest)
         occ s0
       = Ret (ok s) s)
  ∧ (∀ flush' dispatch',
       (∀ occ' s', budget_exhausted s' = false →
                   flush' startup occ' s' = flush_occ startup occ' s') →
       (∀ tok occ' s', budget_exhausted s' = false →
                       dispatch' tok occ' s' = dispatch_token tok occ' s') →
       ∀ tokens occ' s',
         execute_tokens_with flush' dispatch' startup tokens occ' s'
         = execute_tokens_with flush_occ dispatch_token startup tokens occ' s').
Proof.
  intros H. apply budget_exhausted_spec in H. repeat split.
  - unfold execute_inprocess_strategy.
    destruct (tokens_of strategy) as [|t ts] eqn:E.
    + by apply tokens_of_nonempty in E.
    + by apply execute_tokens_with_exhausted.
  - by apply execute_tokens_with_exhausted.
  - intros s0 H0 Hocc Htok Hflush.
    by apply execute_tokens_with_exhausted_after_flush.
  - intros flush' dispatch' Hf Hd tokens occ' s'.
    by apply execute_tokens_with_within_budget.
Qed.

End Scheduler.

(** ** The search driver *)

Section Driver.
Context `{CO : Collab}.

Lemma calc_num_confl_to_do_this_iter_burst (x : N) (s : Solver) (it : N) :
  calc_num_confl_to_do_this_iter (set_burst_search_len x s) it
  = calc_num_confl_to_do_this_iter s it.
Proof. reflexivity. Qed.

(** With a budget that is not positive the loop ends without a search. *)
Lemma iterate_loop_with_no_budget search (fuel : nat)
    (backup_burst_len iteration_num : N) (status : lbool) (s : Solver) :
  search_may_continue s status = true →
  (calc_num_confl_to_do_this_iter s (u64 (iteration_num + 1)) ≤ 0)%Z →
  iterate_loop_with search (S fuel) backup_burst_len iteration_num status s
  = Ret status
      (if (2 <=? u64 (iteration_num + 1))%N
       then set_burst_search_len backup_burst_len s else s).
Proof.
  intros Hgo Hle. simpl. rewrite mbind_get, Hgo. simpl.
  unfold mbind, M_bind, when, modify, get, mret, M_ret.
  destruct (2 <=? u64 (iteration_num + 1))%N;
    rewrite ?calc_num_confl_to_do_this_iter_burst;
    apply Z.leb_le in Hle; by rewrite Hle.
Qed.

(** The loop calls the searcher with the budget of the iteration, and with a
    positive one, only: what the searcher would do on any other call has no
    influence on the run. *)
Lemma iterate_loop_with_budget search1 search2 :
  (∀ n it s, n = calc_num_confl_to_do_this_iter s it → (0 < n)%Z →
             search1 n it s = search2 n it s) →
  ∀ fuel backup_burst_len iteration_num status s,
    iterate_loop_with search1 fuel backup_burst_len iteration_num status s
    = iterate_loop_with search2 fuel backup_burst_len iteration_num status s.
Proof.
  intros Hsearch fuel backup.
  induction fuel as [|fuel IH]; intros it status s; simpl; [done|].
  rewrite !mbind_get. destruct (negb (search_may_continue s status)); [done|].
  apply mbind_cong; [done|]. intros [] s1 _.
  rewrite !mbind_get.
  destruct (Z.leb_spec (calc_num_confl_to_do_this_iter s1 (u64 (it + 1))) 0);
    [done|].
  apply mbind_cong.
  { unfold call. by rewrite (Hsearch _ _ _ eq_refl). }
  intros status1 s2 _.
  do 5 (apply mbind_cong; [done|]; intros [] ? _).
  destruct (negb (bool_decide (status1 = l_Undef))); [done|].
  rewrite !mbind_get. destruct (over_the_limit _); [done|].
  apply mbind_cong; [done|]. intros status2 s3 _. apply IH.
Qed.

(** C9, as the code has it. In an iteration of the driver loop the conflict
    budget is the smaller of the conflicts left ([maxConfl] minus the
    conflicts so far) and of the search length, which is 500,000,000 when
    [never_stop_search] is set and otherwise the base times the growth to
    the power of the iteration number, the power being capped by
    [num_conflicts_of_search_inc_max] and the product truncated to a [long].
    When that budget is not positive the loop ends without a search; and the
    searcher is only ever called with that budget. *)
Theorem conflict_budget_of_an_iteration
    (search : Z → N → Solver → lbool * Solver) (fuel : nat)
    (backup_burst_len iteration_num : N) (status : lbool) (s : Solver) :
  search_may_continue s status = true →
  let it := u64 (iteration_num + 1) in
  let s1 := if (2 <=? it)%N then set_burst_search_len backup_burst_len s
            else s in
  let budget := calc_num_confl_to_do_this_iter s1 it in
  budget
  = Z.min
      (if never_stop_search (conf s) then 500000000%Z
       else long_of_double
              (double_mul (double_of_long (num_conflicts_of_search (conf s)))
                 (double_min
                    (double_pow (num_conflicts_of_search_inc (conf s))
                       (double_of_size_t it))
                    (num_conflicts_of_search_inc_max (conf s)))))
      (maxConfl (conf s) - long_of_u64 (sumConflicts s))
  ∧ ((budget ≤ 0)%Z →
     iterate_loop_with search (S fuel) backup_burst_len iteration_num status s
     = Ret status s1)
  ∧ (∀ search',
       (∀ n it' s', n = calc_num_confl_to_do_this_iter s' it' → (0 < n)%Z →
                    search' n it' s' = search n it' s') →
       ∀ fuel' backup' it' status' s',
         iterate_loop_with search' fuel' backup' it' status' s'
         = iterate_loop_with search fuel' backup' it' status' s').
Proof.
  intros Hgo it s1 budget. split; [|split].
  - subst budget s1. by destruct (2 <=? it)%N.
  - intros Hle. subst budget s1 it.
    apply iterate_loop_with_no_budget; [done|].
    destruct (2 <=? u64 (iteration_num + 1))%N; [|done].
    by rewrite calc_num_confl_to_do_this_iter_burst in Hle.
  - intros search' Hs. by apply iterate_loop_with_budget.
Qed.

(** C10. Whatever the verdict, a call of [solve] that returns leaves
    [conf.maxConfl] at the largest [long] and [conf.maxTime] at the largest
    [double]: the budgets the caller had set are gone for the next call. *)
Theorem solve_resets_the_budgets (fuel : nat) (s s' : Solver)
    (status : lbool) :
  solve fuel s = Ret status s' →
  maxConfl (conf s') = LONG_MAX ∧ maxTime (conf s') = double_max.
Proof.
  unfold solve. intros H.
  do 5 (apply mbind_Ret in H as ([] & ? & _ & H)).
  apply mbind_Ret in H as (st & ? & _ & H).
  apply mbind_Ret in H as ([] & ? & _ & H).
  apply mbind_Ret in H as (? & ? & _ & H).
  do 3 (apply mbind_Ret in H as ([] & ? & _ & H)).
  apply mbind_Ret in H as ([] & s1 & [= <-] & H).
  apply mbind_Ret in H as ([] & s2 & [= <-] & [= _ <-]).
  done.
Qed.

End Driver.

(** ** Renumbering *)

Section Renumber.
Context `{PF : Platform}.

(** In the claim's words: a variable is active when its value is undefined
    and it was not removed. *)
Lemma var_inactive_false (s : Solver) (i : nat) :
  var_inactive s i = false ↔
    default l_Undef (assigns s !! i) = l_Undef
    ∧ default Removed_none (varData s !! i) = Removed_none.
Proof.
  unfold var_inactive.
  destruct (default l_Undef _), (default Removed_none _); simpl;
    split; (discriminate || (intros [? ?]; discriminate) || done).
Qed.

(** Placing the variables of [xs] one after the other. *)
Lemma foldl_renumber_place (xs : list nat) :
  ∀ r,
    NoDup xs →
    (∀ x, x ∈ xs → x < length (outerToInter r)) →
    at_ r + length xs ≤ length (interToOuter r) →
    at_ (foldl renumber_place r xs) = at_ r + length xs
    ∧ length (outerToInter (foldl renumber_place r xs))
      = length (outerToInter r)
    ∧ interToOuter (foldl renumber_place r xs)
      = take (at_ r) (interToOuter r) ++ xs
        ++ drop (at_ r + length xs) (interToOuter r)
    ∧ (∀ k x, xs !! k = Some x →
              outerToInter (foldl renumber_place r xs) !! x
              = Some (at_ r + k))
    ∧ (∀ y, y ∉ xs →
            outerToInter (foldl renumber_place r xs) !! y
            = outerToInter r !! y).
Proof.
  induction xs as [|x xs IH]; intros r Hnd Hlt Hlen; simpl in *.
  - rewrite !Nat.add_0_r, take_drop. repeat split; try done.
  - apply NoDup_cons in Hnd as [Hx Hnd].
    assert (Hxlt : x < length (outerToInter r)).
    { apply Hlt. left. }
    destruct (IH (renumber_place r x)) as (Hat & Hlo & Hi & Ho & Hother).
    { done. }
    { intros y Hy. simpl. rewrite length_insert. apply Hlt. by right. }
    { simpl. rewrite length_insert. lia. }
    simpl in *. rewrite length_insert in Hlo.
    split; [lia|]. split; [done|]. split; [|split].
    + rewrite Hi.
      rewrite (take_S_r _ _ x) by (apply list_lookup_insert_eq; lia).
      rewrite take_insert_ge by lia. rewrite drop_insert_lt by lia.
      rewrite <- app_assoc. simpl.
      by replace (at_ r + S (length xs)) with (S (at_ r + length xs)) by lia.
    + intros [|k] y Hk; simpl in Hk.
      * injection Hk as ->. rewrite Hother by done.
        rewrite Nat.add_0_r. by apply list_lookup_insert_eq.
      * rewrite (Ho _ _ Hk). f_equal. lia.
    + intros y Hy. apply not_elem_of_cons in Hy as [Hne Hy].
      rewrite Hother by done. by apply list_lookup_insert_ne.
Qed.

(** The first loop places the active variables and puts the others aside. *)
Lemma foldl_renumber_first_loop (s : Solver) (l : list nat) :
  ∀ r useless numEffectiveVars,
    foldl (renumber_first_loop s) (r, useless, numEffectiveVars) l
    = (foldl renumber_place r (filter (λ i, var_inactive s i = false) l),
       useless ++ filter (λ i, var_inactive s i = true) l,
       numEffectiveVars + length (filter (λ i, var_inactive s i = false) l)).
Proof.
  induction l as [|i l IH]; intros r useless ne; simpl.
  - by rewrite app_nil_r, Nat.add_0_r.
  - rewrite !filter_cons.
    destruct (var_inactive s i) eqn:Hi; repeat case_decide; try done;
      simpl; rewrite IH.
    + by rewrite <- app_assoc.
    + simpl. f_equal. lia.
Qed.

(** The third loop places the variables from [a] on at their own index. *)
Lemma foldl_renumber_identity (k : nat) :
  ∀ a r1 r2,
    outerToInter r1 = outerToInter r2 → interToOuter r1 = interToOuter r2 →
    at_ r2 = a →
    outerToInter (foldl renumber_identity r1 (seq a k))
    = outerToInter (foldl renumber_place r2 (seq a k))
    ∧ interToOuter (foldl renumber_identity r1 (seq a k))
      = interToOuter (foldl renumber_place r2 (seq a k)).
Proof.
  induction k as [|k IH]; intros a r1 r2 Ho Hi Ha; simpl; [done|].
  apply IH; simpl; by rewrite ?Ho, ?Hi, ?Ha.
Qed.

Lemma length_filter_both (f : nat → bool) (l : list nat) :
  length (filter (λ i, f i = false) l) + length (filter (λ i, f i = true) l)
  = length l.
Proof.
  induction l as [|i l IH]; simpl; [done|].
  rewrite !filter_cons.
  destruct (f i); repeat case_decide; try done; simpl; lia.
Qed.

Lemma new_order_length (s : Solver) :
  (nVars s ≤ nVarsOuter s)%N → length (new_order s) = N.to_nat (nVarsOuter s).
Proof.
  intros H. unfold new_order. rewrite app_assoc, length_app, length_app.
  rewrite length_filter_both, !length_seq. lia.
Qed.

Lemma new_order_NoDup (s : Solver) : NoDup (new_order s).
Proof.
  unfold new_order. apply NoDup_app. split; [|split].
  - apply NoDup_filter, NoDup_seq.
  - intros x Hx Hx'. apply list_elem_of_filter in Hx as [Hact Hx].
    apply elem_of_app in Hx' as [Hx'|Hx'].
    + apply list_elem_of_filter in Hx' as [Hin _]. congruence.
    + apply elem_of_seq in Hx, Hx'. lia.
  - apply NoDup_app. split; [|split].
    + apply NoDup_filter, NoDup_seq.
    + intros x Hx Hx'. apply list_elem_of_filter in Hx as [_ Hx].
      apply elem_of_seq in Hx, Hx'. lia.
    + apply NoDup_seq.
Qed.

Lemma new_order_bound (s : Solver) (x : nat) :
  (nVars s ≤ nVarsOuter s)%N →
  x ∈ new_order s → x < N.to_nat (nVarsOuter s).
Proof.
  intros H. unfold new_order. rewrite !elem_of_app, !list_elem_of_filter.
  rewrite !elem_of_seq. lia.
Qed.

(** What [calculate_interToOuter_and_outerToInter] computes: the variables
    are placed in their new order, from position 0 on. *)
Lemma calculate_is_placing (s : Solver) (o0 i0 : list nat) :
  let r := foldl renumber_place
             {| outerToInter := o0; interToOuter := i0; at_ := 0 |}
             (new_order s) in
  calculate_interToOuter_and_outerToInter s o0 i0
  = (outerToInter r, interToOuter r,
     length (filter (λ i, var_inactive s i = false)
               (seq 0 (N.to_nat (nVars s))))).
Proof.
  unfold calculate_interToOuter_and_outerToInter, new_order.
  rewrite foldl_renumber_first_loop. simpl.
  rewrite !foldl_app.
  set (r2 := foldl renumber_place (foldl renumber_place _ _) _).
  destruct (foldl_renumber_identity
    (N.to_nat (nVarsOuter s) - N.to_nat (nVars s)) (N.to_nat (nVars s))
    r2 r2 eq_refl eq_refl) as [-> ->]; [|done].
  (* the position after the first two loops is nVars() *)
  subst r2.
  set (A := filter (λ i, var_inactive s i = false) _).
  set (I := filter (λ i, var_inactive s i = true) _).
  rewrite <- foldl_app.
  assert (Hat : ∀ (xs : list nat) r, at_ (foldl renumber_place r xs)
                                     = at_ r + length xs).
  { induction xs as [|x xs IH]; intros r; simpl; [lia|].
    rewrite IH. simpl. lia. }
  rewrite Hat. simpl. rewrite length_app. subst A I.
  rewrite length_filter_both, length_seq. done.
Qed.

Lemma StronglySorted_lt_lookup (l : list nat) :
  StronglySorted lt l →
  ∀ k k' x x', l !! k = Some x → l !! k' = Some x' → x < x' → k < k'.
Proof.
  induction 1 as [|y l Hl IH Hall]; intros k k' x x' Hk Hk' Hlt; [done|].
  destruct k as [|k], k' as [|k']; simpl in *; simplify_eq; try lia.
  - rewrite Forall_forall in Hall.
    assert (x' < x) by (eapply Hall, list_elem_of_lookup_2; done). lia.
  - apply -> Nat.succ_lt_mono. eauto.
Qed.

Lemma StronglySorted_filter_seq (P : nat → Prop) `{∀ x, Decision (P x)}
    (a n : nat) :
  StronglySorted lt (filter P (seq a n)).
Proof.
  revert a. induction n as [|n IH]; intros a; simpl; [constructor|].
  rewrite filter_cons. destruct (decide (P a)); [|apply IH].
  constructor; [apply IH|].
  apply Forall_forall. intros x Hx.
  apply list_elem_of_filter in Hx as [_ Hx]. apply elem_of_seq in Hx. lia.
Qed.

(** A list of inactive variables after a list of active ones passes the
    test. *)
Lemma test_renumbering_loop_inactive (s : Solver) (l : list nat)
    (uninteresting : bool) :
  Forall (λ i, var_inactive s i = true) l →
  test_renumbering_loop s l uninteresting false = false.
Proof.
  revert uninteresting.
  induction l as [|i l IH]; intros u Hl; simpl; [done|].
  apply Forall_cons in Hl as [Hi Hl]. rewrite Hi. simpl. by apply IH.
Qed.

Lemma test_renumbering_loop_active_then_inactive (s : Solver)
    (l1 l2 : list nat) :
  Forall (λ i, var_inactive s i = false) l1 →
  Forall (λ i, var_inactive s i = true) l2 →
  test_renumbering_loop s (l1 ++ l2) false false = false.
Proof.
  induction l1 as [|i l1 IH]; intros H1 H2; simpl.
  - by apply test_renumbering_loop_inactive.
  - apply Forall_cons in H1 as [Hi H1]. rewrite Hi. simpl. by apply IH.
Qed.

(** [calculate_interToOuter_and_outerToInter] leaves in [interToOuter]
    the active variables (value undefined and not removed) in their old
    order, then the inactive ones, then the identity up to [nVarsOuter()],
    and in [outerToInter] the inverse map; the number it returns is the
    number of active variables. So an active variable gets an index below
    [numEffectiveVars], in the order the active variables had, an inactive
    one an index from [numEffectiveVars] on, a variable beyond [nVars()] its
    own; and a solver whose variables were moved by these maps passes
    [test_renumbering]. *)
Lemma calculate_maps_spec (s : Solver) (o0 i0 : list nat)
    (outerToInter' interToOuter' : list nat) (numEffectiveVars : nat) :
  (nVars s ≤ nVarsOuter s)%N →
  length o0 = N.to_nat (nVarsOuter s) →
  length i0 = N.to_nat (nVarsOuter s) →
  calculate_interToOuter_and_outerToInter s o0 i0
  = (outerToInter', interToOuter', numEffectiveVars) →
  let n := N.to_nat (nVars s) in
  let active := filter (λ i, var_inactive s i = false) (seq 0 n) in
  let inactive := filter (λ i, var_inactive s i = true) (seq 0 n) in
  interToOuter'
  = active ++ inactive ++ seq n (N.to_nat (nVarsOuter s) - n)
  ∧ numEffectiveVars = length active
  ∧ length outerToInter' = N.to_nat (nVarsOuter s)
  ∧ (∀ k x, interToOuter' !! k = Some x → outerToInter' !! x = Some k)
  ∧ (∀ x, x < n → var_inactive s x = false →
       ∃ k, outerToInter' !! x = Some k ∧ k < numEffectiveVars)
  ∧ (∀ x, x < n → var_inactive s x = true →
       ∃ k, outerToInter' !! x = Some k ∧ numEffectiveVars ≤ k < n)
  ∧ (∀ x, n ≤ x < N.to_nat (nVarsOuter s) → outerToInter' !! x = Some x)
  ∧ (∀ x x' k k', x < x' < n →
       var_inactive s x = false → var_inactive s x' = false →
       outerToInter' !! x = Some k → outerToInter' !! x' = Some k' → k < k')
  ∧ (∀ s', nVars s' = nVars s →
       (∀ k x, k < n → interToOuter' !! k = Some x →
               var_inactive s' k = var_inactive s x) →
       test_renumbering s' = true).
Proof.
  intros Hn Ho0 Hi0 Hcalc n active inactive.
  rewrite calculate_is_placing in Hcalc. simpl in Hcalc.
  destruct (foldl_renumber_place (new_order s)
              {| outerToInter := o0; interToOuter := i0; at_ := 0 |})
    as (_ & Hlen & Hi & Hinv & _).
  { apply new_order_NoDup. }
  { intros x Hx. simpl. rewrite Ho0. by apply new_order_bound. }
  { simpl. rewrite new_order_length, Hi0 by done. lia. }
  simpl in *. injection Hcalc as <- <- Hnum.
  assert (Hnum' : numEffectiveVars = length active) by done. clear Hnum.
  rewrite new_order_length, <- Hi0, drop_all, app_nil_r in Hi by done.
  set (o' := outerToInter _) in *. set (i' := interToOuter _) in *.
  assert (Horder : new_order s
                   = active ++ inactive ++ seq n (N.to_nat (nVarsOuter s) - n))
    by done.
  assert (Hin_active : ∀ x, x ∈ active ↔ var_inactive s x = false ∧ x < n).
  { intros x. subst active. rewrite list_elem_of_filter, elem_of_seq.
    intuition lia. }
  assert (Hin_inactive : ∀ x, x ∈ inactive ↔ var_inactive s x = true ∧ x < n).
  { intros x. subst inactive. rewrite list_elem_of_filter, elem_of_seq.
    intuition lia. }
  assert (Hlenai : length active + length inactive = n).
  { subst active inactive. rewrite length_filter_both, length_seq. done. }
  assert (Hsorted : StronglySorted lt active).
  { apply StronglySorted_filter_seq. }
  assert (Hnm : n ≤ N.to_nat (nVarsOuter s)) by lia.
  assert (Hn_def : n = N.to_nat (nVars s)) by done.
  rewrite Horder in Hi, Hinv.
  clearbody active inactive n o' i'. clear Horder. subst numEffectiveVars.
  assert (Hactive : ∀ x, x < n → var_inactive s x = false →
            ∃ k, active !! k = Some x ∧ o' !! x = Some k).
  { intros x Hx Hact.
    assert (x ∈ active) as [k Hk]%list_elem_of_lookup by by apply Hin_active.
    exists k. split; [done|]. apply Hinv. by apply lookup_app_l_Some. }
  split; [exact Hi|]. split; [done|]. split; [by rewrite Hlen|].
  split; [by rewrite Hi|].
  split; [|split; [|split; [|split]]].
  - intros x Hx Hact. destruct (Hactive x Hx Hact) as (k & Hk & Hok).
    exists k. split; [done|]. by apply lookup_lt_Some in Hk.
  - intros x Hx Hinact.
    assert (x ∈ inactive) as [k Hk]%list_elem_of_lookup
      by by apply Hin_inactive.
    exists (length active + k). split.
    + apply Hinv. rewrite lookup_app_r by lia.
      replace (length active + k - length active) with k by lia.
      by apply lookup_app_l_Some.
    + apply lookup_lt_Some in Hk. lia.
  - intros x Hx.
    replace (Some x) with (Some (length active + (length inactive + (x - n))))
      by (f_equal; lia).
    apply Hinv. rewrite lookup_app_r by lia.
    replace (length active + _ - length active)
      with (length inactive + (x - n)) by lia.
    rewrite lookup_app_r by lia.
    replace (length inactive + _ - length inactive) with (x - n) by lia.
    rewrite lookup_seq_lt by lia. f_equal. lia.
  - intros x x' k k' Hxx' Hact Hact' Hk Hk'.
    destruct (Hactive x) as (j & Hj & Hoj); [lia|done|].
    destruct (Hactive x') as (j' & Hj' & Hoj'); [lia|done|].
    simplify_eq.
    eapply (StronglySorted_lt_lookup active); [done|exact Hj|exact Hj'|lia].
  - intros s' Hn' Hmoved. unfold test_renumbering.
    apply negb_true_iff.
    replace (N.to_nat (nVars s')) with (length active + length inactive)
      by (rewrite Hn', <- Hn_def; lia).
    rewrite seq_app.
    apply test_renumbering_loop_active_then_inactive.
    + apply Forall_forall. intros k Hk. apply elem_of_seq in Hk.
      destruct (lookup_lt_is_Some_2 active k) as [x Hx]; [lia|].
      rewrite (Hmoved k x); [|lia|].
      * apply list_elem_of_lookup_2, Hin_active in Hx. tauto.
      * rewrite Hi. by apply lookup_app_l_Some.
    + apply Forall_forall. intros k Hk. apply elem_of_seq in Hk.
      destruct (lookup_lt_is_Some_2 inactive (k - length active)) as [x Hx];
        [lia|].
      rewrite (Hmoved k x); [|lia|].
      * apply list_elem_of_lookup_2, Hin_inactive in Hx. tauto.
      * rewrite Hi. rewrite lookup_app_r by lia.
        by apply lookup_app_l_Some.
Qed.

End Renumber.

(** ** The model minimiser *)

Section Minimiser.
Context `{CO : Collab}.
Implicit Types (s : Solver) (u : FindUndef) (c : list Lit).
#[local] Arguments clause_safe : simpl never.

Lemma progress_refl u : progress u u.
Proof.
  split; [done|]. split; [done|]. split; [done|]. intros H. split; [done|lia].
Qed.

(** [x--] on a [uint32_t] that is not zero *)
Lemma u32_pred (k : N) : (0 < k < 2 ^ 32)%N → u32 (k + 2 ^ 32 - 1) = (k - 1)%N.
Proof.
  intros H. unfold u32.
  replace (k + 2 ^ 32 - 1)%N with (k - 1 + 1 * 2 ^ 32)%N by lia.
  rewrite N.Div0.mod_add. apply N.mod_small. lia.
Qed.

Lemma progress_trans u1 u2 u3 :
  progress u1 u2 → progress u2 u3 → progress u1 u3.
Proof.
  intros (Hl1 & Hc1 & Hm1 & Hk1) (Hl2 & Hc2 & Hm2 & Hk2).
  split; [congruence|]. split; [auto|]. split; [auto|].
  intros Hok. destruct (Hk1 Hok) as [Hok2 Hle1].
  destruct (Hk2 Hok2) as [Hok3 Hle2]. split; [done|lia].
Qed.

Lemma progress_must_fix_false u u' :
  progress u u' → must_fix u' = false → must_fix u = false.
Proof.
  intros (_ & _ & Hmono & _) Hf. destruct (must_fix u); [|done].
  rewrite Hmono in Hf; done.
Qed.

Lemma is_candidate_lookup u v :
  is_candidate u v = true ↔
    ∃ x, can_be_unset u !! N.to_nat v = Some x ∧ x ≠ 0%N.
Proof.
  unfold is_candidate. rewrite negb_true_iff, N.eqb_neq.
  destruct (can_be_unset u !! N.to_nat v) as [x|]; simpl; split.
  - eauto.
  - by intros (y & [= <-] & H).
  - done.
  - by intros (y & [=] & _).
Qed.

Lemma true_and_fixed_spec s u l :
  true_and_fixed s u l = true ↔
    model_value s l = l_True ∧ is_candidate u (var l) = false.
Proof.
  unfold true_and_fixed.
  rewrite andb_true_iff, bool_decide_eq_true, negb_true_iff. done.
Qed.

Lemma clause_safe_spec s u c :
  clause_safe s u c = true ↔
    ∃ l, l ∈ c ∧ model_value s l = l_True ∧ is_candidate u (var l) = false.
Proof.
  unfold clause_safe. rewrite existsb_exists.
  setoid_rewrite true_and_fixed_spec. setoid_rewrite list_elem_of_In. done.
Qed.

(** A clause that is safe stays safe when candidates are taken away. *)
Lemma clause_safe_progress s u u' c :
  progress u u' → clause_safe s u c = true → clause_safe s u' c = true.
Proof.
  intros (_ & Hc & _) (l & Hl & Ht & Hf)%clause_safe_spec.
  apply clause_safe_spec. exists l. split; [done|]. split; [done|].
  destruct (is_candidate u' (var l)) eqn:E; [|done].
  apply Hc in E. congruence.
Qed.

Lemma filter_nonzero_insert_zero (l : list N) (i : nat) (x : N) :
  l !! i = Some x → x ≠ 0%N →
  S (length (filter (λ x, x ≠ 0%N) (<[i := 0%N]> l)))
  = length (filter (λ x, x ≠ 0%N) l).
Proof.
  revert i. induction l as [|y l IH]; intros i Hi Hx; [done|].
  destruct i as [|i]; simpl in *.
  - injection Hi as ->. rewrite !filter_cons.
    rewrite decide_False by (intros ?; done).
    by rewrite decide_True by done.
  - rewrite !filter_cons. destruct (decide (y ≠ 0%N)); simpl;
      by rewrite (IH i).
Qed.

(** Taking a candidate away: the vector, the count and the sum. *)
Lemma remove_candidate_progress u v (f : FindUndef → FindUndef) :
  is_candidate u v = true →
  (∀ u0, can_be_unset (f u0) = can_be_unset u0) →
  (∀ u0, can_be_unsetSum (f u0) = can_be_unsetSum u0) →
  (∀ u0, must_fix u0 = true → must_fix (f u0) = true) →
  let u' := f (set_can_be_unsetSum (u32 (can_be_unsetSum u + 2 ^ 32 - 1))
                 (set_can_be_unset (<[N.to_nat v := 0%N]> (can_be_unset u))
                    u)) in
  progress u u'
  ∧ is_candidate u' v = false
  ∧ (count_ok u → (can_be_unsetSum u' < can_be_unsetSum u)%N).
Proof.
  intros Hv Hf1 Hf2 Hf3 u'.
  apply is_candidate_lookup in Hv as (x & Hx & Hx0).
  assert (Hcount : S (num_candidates u') = num_candidates u).
  { unfold num_candidates. subst u'. rewrite Hf1. simpl.
    by apply (filter_nonzero_insert_zero _ _ x). }
  assert (Hsum : count_ok u →
            can_be_unsetSum u' = N.of_nat (num_candidates u')).
  { intros [Hs Hlen].
    pose proof (length_filter (λ x, x ≠ 0%N) (can_be_unset u)) as Hle.
    fold (num_candidates u) in Hle.
    replace (can_be_unsetSum u')
      with (u32 (can_be_unsetSum u + 2 ^ 32 - 1))
      by (subst u'; by rewrite Hf2).
    rewrite u32_pred by lia. lia. }
  split; [|split].
  - split; [|split; [|split]].
    + subst u'. rewrite Hf1. simpl. by rewrite length_insert.
    + intros w Hw. apply is_candidate_lookup in Hw as (y & Hy & Hy0).
      apply is_candidate_lookup. subst u'. rewrite Hf1 in Hy. simpl in Hy.
      destruct (decide (N.to_nat v = N.to_nat w)) as [E|E].
      * rewrite E in Hy. rewrite list_lookup_insert_eq in Hy; [congruence|].
        rewrite <- E. by apply lookup_lt_Some in Hx.
      * rewrite list_lookup_insert_ne in Hy by done. eauto.
    + intros Hm. subst u'. by apply Hf3.
    + intros Hok. split; [split|].
      * by apply Hsum.
      * subst u'. rewrite Hf1. simpl. rewrite length_insert. apply Hok.
      * rewrite (Hsum Hok). destruct Hok as [-> _]. lia.
  - unfold is_candidate. subst u'. rewrite Hf1. simpl.
    rewrite list_lookup_insert_eq by (by apply lookup_lt_Some in Hx). done.
  - intros Hok. rewrite (Hsum Hok). destruct Hok as [-> _]. lia.
Qed.

(** The early return of the scan: a true literal that is no candidate. *)
Lemma look_scan_None s u c :
  ∀ v numTrue,
    look_scan s u c v numTrue = None → clause_safe s u c = true.
Proof.
  unfold clause_safe.
  induction c as [|l c IH]; intros v nt; simpl; [done|].
  unfold true_and_fixed.
  case_bool_decide as Hl; simpl; [|apply IH].
  destruct (is_candidate u (var l)); simpl; [|done].
  apply IH.
Qed.

(** The scan to its end: either no literal is true and the counter was not
    touched, or [v] is the variable of a true literal that is a candidate. *)
Lemma look_scan_Some s u c :
  ∀ v0 nt0 v nt,
    look_scan s u c v0 nt0 = Some (v, nt) →
    (v = v0 ∧ nt = nt0)
    ∨ (∃ l, l ∈ c ∧ model_value s l = l_True ∧ var l = v
            ∧ is_candidate u v = true).
Proof.
  induction c as [|l c IH]; intros v0 nt0 v nt; simpl.
  - intros [= <- <-]. by left.
  - case_bool_decide as Hl.
    + destruct (is_candidate u (var l)) eqn:Hc; [|done].
      intros [[-> ->]|(l' & Hl' & ?)]%IH; right.
      * exists l. split; [left|done].
      * exists l'. split; [by right|done].
    + intros [?|(l' & Hl' & ?)]%IH; [by left|right].
      exists l'. split; [by right|done].
Qed.

(** [undef_look_at_one_clause]: an answer of true comes with a literal of
    the clause that is true and no candidate (any more); an answer of false
    raises [must_fix] and leaves the candidates. *)
Lemma undef_look_at_one_clause_spec s c u :
  let '(b, u') := undef_look_at_one_clause s c u in
  progress u u'
  ∧ dontLookAtClause u' = dontLookAtClause u
  ∧ (b = true → clause_safe s u' c = true)
  ∧ (b = false → must_fix u' = true).
Proof.
  unfold undef_look_at_one_clause.
  destruct (look_scan s u c var_Undef 0) as [[v nt]|] eqn:Hscan.
  - destruct (N.eqb_spec nt 1) as [->|Hnt].
    + apply look_scan_Some in Hscan
        as [[_ ?]|(l & Hl & Ht & <- & Hc)]; [done|].
      destruct (remove_candidate_progress u (var l) (λ u0, u0) Hc)
        as (Hp & Hv & _); try done.
      split; [exact Hp|]. split; [done|]. split; [|done].
      intros _. apply clause_safe_spec. exists l. by repeat split.
    + split; [|by repeat split].
      split; [done|]. split; [done|]. split; [done|]. intros Hok.
      split; [exact Hok|done].
  - split; [apply progress_refl|]. split; [done|]. split; [|done].
    intros _. by eapply look_scan_None.
Qed.

Lemma marks_ok_progress s u u' :
  progress u u' → dontLookAtClause u' = dontLookAtClause u →
  marks_ok s u → marks_ok s u'.
Proof.
  intros Hp Hd Hm i off Hi Hmark. rewrite Hd in Hmark.
  eapply clause_safe_progress; [exact Hp|]. by eapply Hm.
Qed.

(** One turn of the loop over the long clauses. *)
Lemma check_long_clause_spec s u i offset :
  longIrredCls s !! i = Some offset →
  marks_ok s u →
  let u' := check_long_clause s u (i, offset) in
  progress u u' ∧ marks_ok s u'
  ∧ (must_fix u' = false → clause_safe s u' (clause_at s offset) = true).
Proof.
  intros Hi Hm. unfold check_long_clause.
  destruct (dontLookAtClause u !! i) as [[]|] eqn:Hd; simpl.
  { split; [apply progress_refl|]. split; [done|]. intros _. by eapply Hm. }
  all: pose proof (undef_look_at_one_clause_spec s (clause_at s offset) u)
    as Hlook;
    destruct (undef_look_at_one_clause s (clause_at s offset) u) as [b u1];
    destruct Hlook as (Hp & Hdl & Ht & Hf);
    pose proof (marks_ok_progress s u u1 Hp Hdl Hm) as Hm1;
    destruct b.
  all: try (split; [exact Hp|]; split; [exact Hm1|];
            intros Hmf; rewrite Hf in Hmf; done).
  all: split; [exact Hp|];
    split; [|intros _; by apply (Ht eq_refl)].
  all: intros j off' Hj Hmark; simpl in *;
    destruct (decide (i = j)) as [<-|Hne];
    [simplify_eq; by apply (Ht eq_refl)|];
    rewrite list_lookup_insert_ne in Hmark by done;
    by eapply Hm1.
Qed.

(** The loop over the long clauses. *)
Lemma check_long_clauses_spec s (entries : list (nat * nat)) :
  ∀ u,
    (∀ i offset, (i, offset) ∈ entries → longIrredCls s !! i = Some offset) →
    marks_ok s u →
    let u' := foldl (check_long_clause s) u entries in
    progress u u' ∧ marks_ok s u'
    ∧ (must_fix u' = false →
       ∀ i offset, (i, offset) ∈ entries →
                   clause_safe s u' (clause_at s offset) = true).
Proof.
  induction entries as [|[i off] entries IH]; intros u Hent Hm; simpl.
  - split; [apply progress_refl|]. split; [done|].
    intros _ i off Hin. by apply elem_of_nil in Hin.
  - destruct (check_long_clause_spec s u i off) as (Hp1 & Hm1 & Hs1);
      [apply Hent; left|done|].
    destruct (IH (check_long_clause s u (i, off))) as (Hp2 & Hm2 & Hs2);
      [intros; apply Hent; by right|done|].
    split; [by eapply progress_trans|]. split; [done|].
    intros Hmf j off' [[= -> ->]|Hin]%elem_of_cons.
    + eapply clause_safe_progress; [exact Hp2|]. apply Hs1.
      eapply progress_must_fix_false; [exact Hp2|exact Hmf].
    + by eapply Hs2.
Qed.

(** One binary entry of a watch list. *)
Lemma check_watch_spec s l u w :
  marks_ok s u →
  let u' := check_watch s l u w in
  progress u u' ∧ marks_ok s u'
  ∧ (must_fix u' = false →
     ∀ lit2 red, w = WBin lit2 red → Lit_ltb l lit2 = true →
                 clause_safe s u' [l; lit2] = true).
Proof.
  intros Hm. unfold check_watch. destruct w as [lit2 red|off bl].
  2:{ split; [apply progress_refl|]. split; [done|]. by intros. }
  destruct (Lit_ltb l lit2) eqn:Hlt.
  2:{ split; [apply progress_refl|]. split; [done|].
      intros _ ? ? [= <- <-]. by rewrite Hlt. }
  pose proof (undef_look_at_one_clause_spec s [l; lit2] u) as Hlook.
  destruct (undef_look_at_one_clause s [l; lit2] u) as [b u1]. simpl.
  destruct Hlook as (Hp & Hdl & Ht & Hf).
  split; [done|]. split; [by eapply marks_ok_progress|].
  intros Hmf ? ? [= <- <-] _. destruct b; [by apply Ht|].
  rewrite Hf in Hmf; done.
Qed.

Lemma check_watch_list_spec s l (ws : list Watched) :
  ∀ u,
    marks_ok s u →
    let u' := foldl (check_watch s l) u ws in
    progress u u' ∧ marks_ok s u'
    ∧ (must_fix u' = false →
       ∀ lit2 red, WBin lit2 red ∈ ws → Lit_ltb l lit2 = true →
                   clause_safe s u' [l; lit2] = true).
Proof.
  induction ws as [|w ws IH]; intros u Hm; simpl.
  - split; [apply progress_refl|]. split; [done|].
    intros _ ? ? Hin. by apply elem_of_nil in Hin.
  - destruct (check_watch_spec s l u w Hm) as (Hp1 & Hm1 & Hs1).
    destruct (IH (check_watch s l u w) Hm1) as (Hp2 & Hm2 & Hs2).
    split; [by eapply progress_trans|]. split; [done|].
    intros Hmf lit2 red [<-|Hin]%elem_of_cons Hlt.
    + eapply clause_safe_progress; [exact Hp2|]. eapply Hs1; [|done..].
      eapply progress_must_fix_false; [exact Hp2|exact Hmf].
    + by eapply Hs2.
Qed.

(** The turn of one literal in the loop over the watch lists. *)
Lemma check_watches_of_spec s u i :
  marks_ok s u →
  let u' := check_watches_of s u i in
  progress u u' ∧ marks_ok s u'
  ∧ (must_fix u' = false →
     ∀ lit2 red, WBin lit2 red ∈ default [] (watches s !! i) →
                 Lit_ltb (toLit (N.of_nat i)) lit2 = true →
                 clause_safe s u' [toLit (N.of_nat i); lit2] = true).
Proof.
  intros Hm. unfold check_watches_of.
  destruct (negb _ && _) eqn:Hskip.
  - split; [apply progress_refl|]. split; [done|].
    intros _ lit2 red _ _. unfold clause_safe. simpl. unfold true_and_fixed.
    apply andb_true_iff in Hskip as [Hc Ht]. by rewrite Ht, Hc.
  - by apply check_watch_list_spec.
Qed.

Lemma check_all_watches_spec s (k : nat) :
  ∀ u,
    marks_ok s u →
    let u' := foldl (check_watches_of s) u (seq 0 k) in
    progress u u' ∧ marks_ok s u'
    ∧ (must_fix u' = false →
       ∀ i lit2 red, i < k → WBin lit2 red ∈ default [] (watches s !! i) →
                     Lit_ltb (toLit (N.of_nat i)) lit2 = true →
                     clause_safe s u' [toLit (N.of_nat i); lit2] = true).
Proof.
  induction k as [|k IH]; intros u Hm.
  - simpl. split; [apply progress_refl|]. split; [done|]. intros; lia.
  - rewrite seq_S, foldl_app. simpl.
    destruct (IH u Hm) as (Hp1 & Hm1 & Hs1).
    destruct (check_watches_of_spec s (foldl (check_watches_of s) u (seq 0 k))
                k Hm1) as (Hp2 & Hm2 & Hs2).
    split; [by eapply progress_trans|]. split; [done|].
    intros Hmf i lit2 red Hi Hin Hlt.
    destruct (decide (i = k)) as [->|Hne]; [by eapply Hs2|].
    eapply clause_safe_progress; [exact Hp2|]. eapply Hs1; [|lia|done..].
    eapply progress_must_fix_false; [exact Hp2|exact Hmf].
Qed.

Lemma elem_of_bin_clauses s (l lit2 : Lit) :
  (l, lit2) ∈ bin_clauses s ↔
    ∃ i red, l = toLit (N.of_nat i) ∧ i < length (watches s)
             ∧ WBin lit2 red ∈ default [] (watches s !! i).
Proof.
  unfold bin_clauses. rewrite list_elem_of_join. split.
  - intros (ws' & Hin & (i & ws & -> & Hws)%elem_of_lookup_imap).
    apply list_elem_of_omap in Hin as (w & Hw & Hsome).
    destruct w as [l2 red|]; [|done]. injection Hsome as <- <-.
    exists i, red. split; [done|]. split; [by eapply lookup_lt_Some|].
    by rewrite Hws.
  - intros (i & red & -> & Hi & Hin).
    destruct (lookup_lt_is_Some_2 (watches s) i Hi) as [ws Hws].
    rewrite Hws in Hin. simpl in Hin.
    eexists. split; [|apply elem_of_lookup_imap; eauto].
    apply list_elem_of_omap. by exists (WBin lit2 red).
Qed.

Lemma clause_safe_swap s u (a b : Lit) :
  clause_safe s u [a; b] = clause_safe s u [b; a].
Proof. unfold clause_safe. simpl. rewrite !orb_false_r. apply orb_comm. Qed.

(** [undef_check_must_fix]: when it answers that nothing must be fixed,
    every long irredundant clause and every binary clause has a true
    literal that is no candidate. *)
Lemma undef_check_must_fix_spec s u :
  watches_wf s = true →
  marks_ok s u →
  let u' := undef_check_must_fix s u in
  progress (set_must_fix false u) u' ∧ marks_ok s u'
  ∧ (must_fix u' = false →
     (∀ offset, offset ∈ longIrredCls s →
                clause_safe s u' (clause_at s offset) = true)
     ∧ (∀ l lit2, (l, lit2) ∈ bin_clauses s →
                  clause_safe s u' [l; lit2] = true)).
Proof.
  intros Hwf Hm. unfold undef_check_must_fix.
  apply andb_true_iff in Hwf as [Hlen Hbins].
  apply Nat.eqb_eq in Hlen. rewrite forallb_forall in Hbins.
  destruct (check_long_clauses_spec s (imap pair (longIrredCls s))
              (set_must_fix false u)) as (Hp1 & Hm1 & Hs1).
  { intros i off (j & off' & [= -> ->] & Hj)%elem_of_lookup_imap. done. }
  { exact Hm. }
  set (u1 := foldl (check_long_clause s) _ _) in *.
  destruct (check_all_watches_spec s (N.to_nat (nVars s * 2)) u1 Hm1)
    as (Hp2 & Hm2 & Hs2).
  set (u2 := foldl (check_watches_of s) _ _) in *.
  split; [by eapply progress_trans|]. split; [done|].
  intros Hmf.
  assert (Hmf1 : must_fix u1 = false).
  { eapply progress_must_fix_false; [exact Hp2|exact Hmf]. }
  split.
  - intros off (i & Hi)%list_elem_of_lookup.
    eapply clause_safe_progress; [exact Hp2|]. eapply (Hs1 Hmf1 i).
    apply elem_of_lookup_imap. eauto.
  - assert (Hlt : ∀ l lit2, (l, lit2) ∈ bin_clauses s →
                    Lit_ltb l lit2 = true → clause_safe s u2 [l; lit2] = true).
    { intros l lit2 (i & red & -> & Hi & Hin)%elem_of_bin_clauses Hlt.
      eapply Hs2; [done|lia|done..]. }
    intros l lit2 Hin.
    destruct (Lit_ltb l lit2) eqn:E; [by apply Hlt|].
    pose proof (Hbins (l, lit2)) as Hb. simpl in Hb.
    rewrite <- list_elem_of_In in Hb. specialize (Hb Hin).
    apply andb_true_iff in Hb as [Hne Hsym].
    apply bool_decide_eq_true in Hsym.
    rewrite clause_safe_swap. apply Hlt; [done|].
    unfold Lit_ltb, Lit_eqb in *.
    apply negb_true_iff, N.eqb_neq in Hne. apply N.ltb_ge in E.
    apply N.ltb_lt. lia.
Qed.

(** The variable picked for fixing is a candidate, as long as there is
    one. *)
Lemma pick_var_to_fix_prefix u (k : nat) :
  let '(maximum, v) :=
    foldl (λ '(maximum, v) i,
             if is_candidate u (N.of_nat i)
                && (maximum <=? default 0 (satisfies u !! i))%N
             then (default 0%N (satisfies u !! i), N.of_nat i)
             else (maximum, v))
          (0%N, var_Undef) (seq 0 k) in
  (maximum = 0%N ∧ v = var_Undef
   ∧ ∀ j, j < k → is_candidate u (N.of_nat j) = false)
  ∨ (∃ j, j < k ∧ v = N.of_nat j ∧ is_candidate u (N.of_nat j) = true).
Proof.
  induction k as [|k IH].
  - simpl. left. repeat split. intros; lia.
  - rewrite seq_S, foldl_app. simpl.
    destruct (foldl _ _ (seq 0 k)) as [m v].
    destruct (is_candidate u (N.of_nat k)) eqn:Hk; simpl.
    + destruct IH as [(-> & -> & Hno)|(j & Hj & -> & Hc)].
      * replace (0 <=? _)%N with true by (symmetry; apply N.leb_le; lia).
        right. exists k. by repeat split; try lia.
      * destruct (m <=? _)%N.
        -- right. exists k. by repeat split; try lia.
        -- right. exists j. by repeat split; try lia.
    + destruct IH as [(-> & -> & Hno)|(j & Hj & -> & Hc)].
      * left. repeat split. intros j Hj.
        destruct (decide (j = k)) as [->|]; [done|]. apply Hno. lia.
      * right. exists j. by repeat split; try lia.
Qed.

Lemma num_candidates_pos u :
  0 < num_candidates u →
  ∃ j, j < length (can_be_unset u) ∧ is_candidate u (N.of_nat j) = true.
Proof.
  unfold num_candidates. intros Hpos.
  destruct (filter _ _) as [|x l] eqn:E; [simpl in Hpos; lia|].
  assert (Hx : x ∈ filter (λ x, x ≠ 0%N) (can_be_unset u))
    by (rewrite E; left).
  apply list_elem_of_filter in Hx as [Hx0 (j & Hj)%list_elem_of_lookup].
  exists j. split; [by eapply lookup_lt_Some|].
  apply is_candidate_lookup. exists x. by rewrite Nat2N.id.
Qed.

Lemma num_candidates_zero u v :
  num_candidates u = 0 → is_candidate u v = false.
Proof.
  unfold num_candidates. intros Hz.
  destruct (is_candidate u v) eqn:E; [|done].
  apply is_candidate_lookup in E as (x & Hx & Hx0).
  assert (x ∈ filter (λ x, x ≠ 0%N) (can_be_unset u)) as Hin.
  { apply list_elem_of_filter. split; [done|].
    by eapply list_elem_of_lookup_2. }
  destruct (filter _ _); [by apply elem_of_nil in Hin|done].
Qed.

Lemma pick_var_to_fix_spec u :
  0 < num_candidates u →
  (N.of_nat (length (can_be_unset u)) ≤ var_Undef)%N →
  (pick_var_to_fix u).2 ≠ var_Undef
  ∧ is_candidate u (pick_var_to_fix u).2 = true.
Proof.
  intros (j & Hj & Hc)%num_candidates_pos Hlen.
  unfold pick_var_to_fix.
  pose proof (pick_var_to_fix_prefix u (length (can_be_unset u))) as H.
  destruct (foldl _ _ _) as [m v]. simpl.
  destruct H as [(_ & _ & Hno)|(j' & Hj' & -> & Hc')].
  - rewrite Hno in Hc; done.
  - split; [lia|done].
Qed.

(** What a model that passes the verification gives for each clause. *)
Lemma verify_model_long_clauses_spec s (cs : list nat) :
  verify_model_long_clauses s cs = true ↔
    ∀ offset, offset ∈ cs →
      ∃ l, l ∈ clause_at s offset ∧ model_value s l = l_True.
Proof.
  unfold verify_model_long_clauses. rewrite forallb_forall.
  setoid_rewrite existsb_exists. setoid_rewrite bool_decide_eq_true.
  setoid_rewrite list_elem_of_In. done.
Qed.

Lemma verify_model_implicit_clauses_spec s :
  verify_model_implicit_clauses s = true ↔
    ∀ l lit2, (l, lit2) ∈ bin_clauses s →
      model_value s l = l_True ∨ model_value s lit2 = l_True.
Proof.
  unfold verify_model_implicit_clauses. rewrite forallb_forall. split.
  - intros H l lit2 (i & red & -> & Hi & Hin)%elem_of_bin_clauses.
    destruct (lookup_lt_is_Some_2 (watches s) i Hi) as [ws Hws].
    rewrite Hws in Hin. simpl in Hin.
    specialize (H (i, ws)). simpl in H. rewrite forallb_forall in H.
    rewrite <- list_elem_of_In in H.
    assert ((i, ws) ∈ imap pair (watches s)) as Hiws
      by (apply elem_of_lookup_imap; eauto).
    specialize (H Hiws (WBin lit2 red)).
    rewrite <- list_elem_of_In in H. specialize (H Hin). simpl in H.
    apply orb_true_iff in H. by rewrite !bool_decide_eq_true in H.
  - intros H [i ws] Hiws. rewrite <- list_elem_of_In in Hiws.
    apply elem_of_lookup_imap in Hiws as (i' & ws' & [= -> ->] & Hws).
    apply forallb_forall. intros [lit2 red|] Hw; [|done].
    rewrite <- list_elem_of_In in Hw.
    apply orb_true_iff. rewrite !bool_decide_eq_true.
    apply H. apply elem_of_bin_clauses. exists i', red.
    split; [done|]. split; [by eapply lookup_lt_Some|]. by rewrite Hws.
Qed.

(** The loop of [undefine] ends, and ends with every clause holding a true
    literal that is no candidate. *)
Lemma undefine_loop_spec s :
  watches_wf s = true →
  verify_model_long_clauses s (longIrredCls s) = true →
  verify_model_implicit_clauses s = true →
  ∀ fuel u,
    count_ok u → marks_ok s u →
    (N.of_nat (length (can_be_unset u)) ≤ var_Undef)%N →
    N.to_nat (can_be_unsetSum u) < fuel →
    ∃ u', undefine_loop fuel s u = Finished u'
      ∧ (∀ v, is_candidate u' v = true → is_candidate u v = true)
      ∧ length (can_be_unset u') = length (can_be_unset u)
      ∧ (∀ offset, offset ∈ longIrredCls s →
                   clause_safe s u' (clause_at s offset) = true)
      ∧ (∀ l lit2, (l, lit2) ∈ bin_clauses s →
                   clause_safe s u' [l; lit2] = true).
Proof.
  intros Hwf Hlong Hbin.
  rewrite verify_model_long_clauses_spec in Hlong.
  rewrite verify_model_implicit_clauses_spec in Hbin.
  induction fuel as [|fuel IH]; intros u Hok Hm Hlen Hfuel; [lia|].
  simpl.
  destruct (undef_check_must_fix_spec s u Hwf Hm) as (Hp & Hm1 & Hsafe).
  set (u1 := undef_check_must_fix s u) in *.
  destruct Hp as (Hl1 & Hc1 & _ & Hk1).
  destruct (Hk1 Hok) as [Hok1 Hle1]. simpl in Hl1, Hc1, Hle1.
  destruct (must_fix u1 && (0 <? can_be_unsetSum u1)%N) eqn:Hcond.
  - apply andb_true_iff in Hcond as [Hmf Hpos]. apply N.ltb_lt in Hpos.
    destruct (pick_var_to_fix_spec u1) as [Hv Hcv].
    { destruct Hok1 as [Hs _]. lia. }
    { by rewrite Hl1. }
    rewrite bool_decide_eq_false_2 by done.
    destruct (remove_candidate_progress u1 (pick_var_to_fix u1).2
      (λ u0, set_satisfies (replicate (length (satisfies u1)) 0%N)
               (set_num_fixed (u32 (num_fixed u1 + 1)) u0)) Hcv)
      as (Hp2 & _ & Hlt2); try done.
    set (u2 := set_satisfies _ _) in *.
    destruct Hp2 as (Hl2 & Hc2 & Hmono2 & Hk2).
    destruct (Hk2 Hok1) as [Hok2 _].
    destruct (IH u2) as (u' & Hrun & Hc' & Hl' & Hlongs & Hbins).
    { done. }
    { apply (marks_ok_progress s u1 u2); [|done|done].
      split; [exact Hl2|]. split; [exact Hc2|]. split; [exact Hmono2|].
      exact Hk2. }
    { rewrite Hl2, Hl1. done. }
    { specialize (Hlt2 Hok1). lia. }
    exists u'. split; [done|].
    split; [intros v Hv'; by apply (Hc1 v), Hc2, Hc'|].
    split; [congruence|done].
  - exists u1. split; [done|]. split; [exact Hc1|]. split; [exact Hl1|].
    apply andb_false_iff in Hcond as [Hmf|Hzero].
    + by apply Hsafe.
    + apply N.ltb_ge in Hzero.
      assert (Hnone : ∀ v, is_candidate u1 v = false).
      { intros v. apply num_candidates_zero. destruct Hok1 as [Hs _]. lia. }
      split.
      * intros off (l & Hl & Ht)%Hlong. apply clause_safe_spec. eauto.
      * intros l lit2 [Ht|Ht]%Hbin; apply clause_safe_spec.
        -- exists l. split; [left|done].
        -- exists lit2. split; [right; left|done].
Qed.

(** *** The candidates that [undef_fill_potentials] leaves *)

Lemma length_filter_alter {A} (P : A → Prop) `{!∀ x, Decision (P x)}
    (f : A → A) (l : list A) (i : nat) (x : A) :
  l !! i = Some x →
  length (filter P (alter f i l)) + (if decide (P x) then 1 else 0)
  = length (filter P l) + (if decide (P (f x)) then 1 else 0).
Proof.
  revert i. induction l as [|y l IH]; intros [|i] Hi; simplify_eq/=.
  - rewrite !filter_cons. repeat case_decide; simpl; lia.
  - rewrite !filter_cons. specialize (IH i Hi).
    destruct (decide (P y)); simpl; lia.
Qed.

Lemma filter_nonzero_replicate (n : nat) :
  filter (λ x, x ≠ 0%N) (replicate n 0%N) = [].
Proof.
  induction n as [|n IH]; [done|]. simpl. rewrite filter_cons.
  by rewrite decide_False by (intros ?; done).
Qed.

Lemma filter_nonzero_threshold (l : list N) :
  length (filter (λ x, x ≠ 0%N) (map (λ x, if (x <? 2)%N then 0%N else x) l))
  = length (filter (λ x, (2 ≤ x)%N) l).
Proof.
  induction l as [|x l IH]; [done|]. simpl. rewrite !filter_cons.
  destruct (N.ltb_spec x 2); repeat case_decide; simpl; lia.
Qed.

(** The loop over the trail, when no variable is in it twice. *)
Lemma fill_from_trail_spec s (vs : list N) :
  ∀ u,
    NoDup vs →
    (∀ v, v ∈ vs → can_be_unset u !! N.to_nat v = Some 0%N) →
    Forall (λ x, (x ≤ 1)%N) (can_be_unset u) →
    (N.of_nat (length (can_be_unset u)) < 2 ^ 32)%N →
    let u' := foldl (fill_from_trail s) u vs in
    length (can_be_unset u') = length (can_be_unset u)
    ∧ dontLookAtClause u' = dontLookAtClause u
    ∧ Forall (λ x, (x ≤ 1)%N) (can_be_unset u')
    ∧ match independent_vars (conf s) with
      | None => can_be_unsetSum u = N.of_nat (num_candidates u) →
                can_be_unsetSum u' = N.of_nat (num_candidates u')
      | Some _ => can_be_unsetSum u' = can_be_unsetSum u
      end.
Proof.
  induction vs as [|v vs IH]; intros u Hnd Hzero Hone Hlen.
  { simpl. repeat split; try done. by destruct (independent_vars _). }
  apply NoDup_cons in Hnd as [Hv Hnd]. simpl.
  assert (Hv0 : can_be_unset u !! N.to_nat v = Some 0%N)
    by (apply Hzero; left).
  set (u1 := fill_from_trail s u v).
  assert (H1 : length (can_be_unset u1) = length (can_be_unset u)
    ∧ dontLookAtClause u1 = dontLookAtClause u
    ∧ Forall (λ x, (x ≤ 1)%N) (can_be_unset u1)
    ∧ (∀ w, w ∈ vs → can_be_unset u1 !! N.to_nat w = Some 0%N)
    ∧ match independent_vars (conf s) with
      | None => can_be_unsetSum u = N.of_nat (num_candidates u) →
                can_be_unsetSum u1 = N.of_nat (num_candidates u1)
      | Some _ => can_be_unsetSum u1 = can_be_unsetSum u
      end).
  { subst u1. unfold fill_from_trail.
    destruct (negb _ && negb _).
    2:{ repeat split; try done.
        - intros w Hw. apply Hzero. by right.
        - by destruct (independent_vars _). }
    assert (Hcount :
      length (filter (λ x, x ≠ 0%N)
                (alter (λ x, u8 (x + 1)) (N.to_nat v) (can_be_unset u)))
      = S (num_candidates u)).
    { pose proof (length_filter_alter (λ x, x ≠ 0%N) (λ x, u8 (x + 1))
                    _ _ _ Hv0) as E.
      rewrite decide_False in E by (intros ?; done).
      rewrite decide_True in E by done. unfold num_candidates. lia. }
    assert (Hothers : ∀ w, w ∈ vs →
      alter (λ x, u8 (x + 1)) (N.to_nat v) (can_be_unset u) !! N.to_nat w
      = Some 0%N).
    { intros w Hw. rewrite list_lookup_alter_ne.
      - apply Hzero. by right.
      - intros E. apply N2Nat.inj in E. by subst. }
    assert (Hones : Forall (λ x, (x ≤ 1)%N)
      (alter (λ x, u8 (x + 1)) (N.to_nat v) (can_be_unset u))).
    { apply Forall_alter; [done|]. intros x Hx _.
      rewrite Hv0 in Hx. injection Hx as <-. done. }
    destruct (independent_vars (conf s)); simpl.
    - rewrite length_alter. by repeat split.
    - rewrite length_alter. repeat split; try done.
      intros ->. unfold num_candidates at 2. simpl. rewrite Hcount.
      pose proof (length_filter (λ x, x ≠ 0%N)
        (alter (λ x, u8 (x + 1)) (N.to_nat v) (can_be_unset u))) as Hle.
      rewrite length_alter in Hle.
      unfold u32. rewrite N.mod_small by lia. lia. }
  destruct H1 as (Hl1 & Hd1 & Hone1 & Hzero1 & Hsum1).
  destruct (IH u1 Hnd Hzero1 Hone1) as (Hl' & Hd' & Hone' & Hsum').
  { by rewrite Hl1. }
  split; [congruence|]. split; [congruence|]. split; [done|].
  destruct (independent_vars (conf s)); [congruence|auto].
Qed.

(** The loop over the independent variables, when no two of them are the
    same variable of the solver. *)
Lemma fill_from_independent_spec s (vars : list N) :
  ∀ u u',
    fill_from_independent s vars u = Some u' →
    NoDup (independent_inter s <$> vars) →
    (∀ v x, v ∈ vars →
       can_be_unset u !! N.to_nat (independent_inter s v) = Some x →
       (x ≤ 1)%N) →
    N.to_nat (nVars s) ≤ length (can_be_unset u) →
    (N.of_nat (length (can_be_unset u)) < 2 ^ 32)%N →
    can_be_unsetSum u
    = N.of_nat (length (filter (λ x, (2 ≤ x)%N) (can_be_unset u))) →
    length (can_be_unset u') = length (can_be_unset u)
    ∧ dontLookAtClause u' = dontLookAtClause u
    ∧ can_be_unsetSum u'
      = N.of_nat (length (filter (λ x, (2 ≤ x)%N) (can_be_unset u'))).
Proof.
  induction vars as [|v vars IH]; intros u u' Hrun Hnd Hone Hn Hlen Hsum.
  { simpl in Hrun. by injection Hrun as <-. }
  rewrite fmap_cons in Hnd. apply NoDup_cons in Hnd as [Hv Hnd].
  simpl in Hrun. destruct (nVarsOutside s <? v)%N; [done|].
  fold (independent_inter s v) in Hrun.
  destruct (N.ltb_spec (independent_inter s v) (nVars s)) as [Hin|Hout].
  2:{ apply (IH u u' Hrun Hnd); try done.
      intros w x Hw. apply Hone. by right. }
  set (i := N.to_nat (independent_inter s v)) in *.
  destruct (lookup_lt_is_Some_2 (can_be_unset u) i) as [x Hx]; [lia|].
  assert (Hx1 : (x ≤ 1)%N) by (eapply Hone; [left|exact Hx]).
  set (l1 := alter (λ x, u8 (x + 1)) i (can_be_unset u)) in *.
  assert (Hl1 : l1 !! i = Some (u8 (x + 1))).
  { subst l1. rewrite list_lookup_alter_eq, Hx. done. }
  assert (Hlen1 : length l1 = length (can_be_unset u))
    by (subst l1; by rewrite length_alter).
  pose proof (length_filter_alter (λ x, (2 ≤ x)%N) (λ x, u8 (x + 1))
                _ _ _ Hx) as Hcount. fold l1 in Hcount.
  pose proof (length_filter (λ x, (2 ≤ x)%N) l1) as Hle.
  assert (Hothers : ∀ w y, w ∈ vars →
    l1 !! N.to_nat (independent_inter s w) = Some y → (y ≤ 1)%N).
  { intros w y Hw. subst l1. rewrite list_lookup_alter_ne.
    - apply Hone. by right.
    - intros E. apply N2Nat.inj in E. apply Hv. rewrite E.
      by apply list_elem_of_fmap_2. }
  cbn in Hrun. rewrite Hl1 in Hrun. cbn in Hrun.
  assert (x = 0 ∨ x = 1)%N as [->| ->] by lia.
  - change (u8 (0 + 1) =? 2)%N with false in Hrun.
    rewrite decide_False in Hcount by lia.
    rewrite decide_False in Hcount by (change (u8 (0 + 1)) with 1%N; lia).
    destruct (IH _ _ Hrun Hnd) as (Hl' & Hd' & Hs'); try done.
    + cbn. lia.
    + cbn. lia.
    + cbn. rewrite Hsum. f_equal. lia.
    + cbn in Hl', Hd'. split; [congruence|]. by split.
  - change (u8 (1 + 1) =? 2)%N with true in Hrun.
    rewrite decide_False in Hcount by lia.
    rewrite decide_True in Hcount by (change (u8 (1 + 1)) with 2%N; lia).
    destruct (IH _ _ Hrun Hnd) as (Hl' & Hd' & Hs'); try done.
    + cbn. lia.
    + cbn. lia.
    + cbn. rewrite Hsum. unfold u32. rewrite N.mod_small by lia. lia.
    + cbn in Hl', Hd'. split; [congruence|]. by split.
Qed.

(** The loop that takes the variables that replace others away. *)
Lemma fill_exclude_replacer_spec (vs : list N) :
  ∀ u, let u' := foldl fill_exclude_replacer u vs in
       progress u u' ∧ dontLookAtClause u' = dontLookAtClause u.
Proof.
  induction vs as [|v vs IH]; intros u; simpl.
  { split; [apply progress_refl|done]. }
  destruct (IH (fill_exclude_replacer u v)) as [Hp Hd].
  unfold fill_exclude_replacer in *.
  destruct (is_candidate u v) eqn:Hc; [|done].
  destruct (remove_candidate_progress u v id Hc) as (Hp1 & _); try done.
  split; [by eapply progress_trans|done].
Qed.

Lemma fill_from_independent_total s (vars : list N) :
  forallb (λ v, v <=? nVarsOutside s)%N vars = true →
  ∀ u, is_Some (fill_from_independent s vars u).
Proof.
  induction vars as [|v vars IH]; intros Hall u; [done|].
  simpl in Hall. apply andb_true_iff in Hall as [Hv Hall].
  apply N.leb_le in Hv. simpl.
  destruct (N.ltb_spec (nVarsOutside s) v); [lia|].
  destruct (_ <? nVars s)%N; by apply IH.
Qed.

Lemma filter_threshold_small (l : list N) :
  Forall (λ x, (x ≤ 1)%N) l → filter (λ x, (2 ≤ x)%N) l = [].
Proof.
  induction 1 as [|x l Hx _ IH]; [done|]. rewrite filter_cons.
  by rewrite decide_False by lia.
Qed.

(** [undef_fill_potentials] returns, with the candidates counted. *)
Lemma undef_fill_potentials_spec s (trail_lim_vars : list N) :
  NoDup trail_lim_vars →
  (∀ v, v ∈ trail_lim_vars → (v < nVarsOuter s)%N) →
  (nVars s ≤ nVarsOuter s)%N →
  (nVarsOuter s < 2 ^ 32)%N →
  independent_vars_ok s = true →
  ∃ u, undef_fill_potentials s trail_lim_vars (FindUndef_new s) = Some u
    ∧ count_ok u ∧ marks_ok s u
    ∧ length (can_be_unset u) = N.to_nat (nVarsOuter s).
Proof.
  intros Hnd Hrange Hn Hbig Hind.
  unfold undef_fill_potentials, independent_vars_ok in *.
  set (u0 := FindUndef_new s).
  destruct (fill_from_trail_spec s (rev trail_lim_vars) u0)
    as (Hl1 & Hd1 & Hone1 & Hsum1).
  { by apply NoDup_ListNoDup, NoDup_rev, NoDup_ListNoDup. }
  { intros v Hv%list_elem_of_In%in_rev%list_elem_of_In.
    apply lookup_replicate_2.
    specialize (Hrange v Hv). lia. }
  { by apply Forall_replicate. }
  { simpl. rewrite length_replicate. lia. }
  set (u1 := foldl (fill_from_trail s) u0 (rev trail_lim_vars)) in *.
  assert (Hlen0 : length (can_be_unset u0) = N.to_nat (nVarsOuter s))
    by (simpl; by rewrite length_replicate).
  assert (Hmarks : ∀ u, dontLookAtClause u = dontLookAtClause u0 →
                        marks_ok s u).
  { intros u Hu i off _ Hmark. rewrite Hu in Hmark. simpl in Hmark.
    apply lookup_replicate in Hmark as [? _]. done. }
  destruct (independent_vars (conf s)) as [vars|] eqn:Evars.
  - apply andb_true_iff in Hind as [Hins Hdist].
    apply bool_decide_eq_true in Hdist.
    destruct (fill_from_independent_total s vars Hins u1) as [u2 Hu2].
    rewrite Hu2. cbn.
    destruct (fill_from_independent_spec s vars u1 u2 Hu2 Hdist)
      as (Hl2 & Hd2 & Hsum2).
    { intros v x _ Hx. by eapply (Forall_lookup_1 _ _ _ _ Hone1). }
    { lia. }
    { lia. }
    { rewrite Hsum1. simpl. by rewrite filter_threshold_small. }
    set (u3 := set_can_be_unset _ u2).
    destruct (fill_exclude_replacer_spec (get_vars_replacing_others s) u3)
      as [(Hl4 & _ & _ & Hk4) Hd4].
    eexists. split; [reflexivity|].
    assert (Hok3 : count_ok u3).
    { split.
      - unfold num_candidates. subst u3. cbn.
        by rewrite filter_nonzero_threshold.
      - subst u3. cbn. rewrite length_map. lia. }
    split; [by apply Hk4|]. split.
    + apply Hmarks. rewrite Hd4. exact (eq_trans Hd2 Hd1).
    + rewrite Hl4. subst u3. cbn. rewrite length_map. lia.
  - cbn.
    destruct (fill_exclude_replacer_spec (get_vars_replacing_others s) u1)
      as [(Hl4 & _ & _ & Hk4) Hd4].
    eexists. split; [reflexivity|].
    assert (Hok1 : count_ok u1).
    { split; [|lia]. apply Hsum1. unfold num_candidates. simpl.
      by rewrite filter_nonzero_replicate. }
    split; [by apply Hk4|]. split.
    + apply Hmarks. exact (eq_trans Hd4 Hd1).
    + lia.
Qed.

(** *** The model that [undef_unset_potentials] leaves *)

Lemma undef_unset_potentials_prefix u (m : list lbool) (k i : nat) :
  foldl (λ m i, if is_candidate u (N.of_nat i) then <[i := l_Undef]> m
                else m) m (seq 0 k) !! i
  = if bool_decide (i < k) && is_candidate u (N.of_nat i)
    then (λ _, l_Undef) <$> m !! i else m !! i.
Proof.
  induction k as [|k IH]; [done|].
  rewrite seq_S, foldl_app. simpl.
  set (mk := foldl _ m (seq 0 k)) in *.
  destruct (decide (i = k)) as [->|Hne].
  - rewrite bool_decide_eq_true_2 by lia.
    rewrite bool_decide_eq_false_2 in IH by lia. simpl in *.
    destruct (is_candidate u (N.of_nat k)); [|done].
    destruct (m !! k) as [x|] eqn:E; simpl.
    + apply list_lookup_insert_eq. apply lookup_lt_is_Some.
      rewrite IH. eauto.
    + apply list_lookup_insert_None. by rewrite IH.
  - assert (E : bool_decide (i < S k) = bool_decide (i < k))
      by (apply bool_decide_ext; lia).
    rewrite E, <- IH.
    destruct (is_candidate u (N.of_nat k)); [|done].
    by apply list_lookup_insert_ne.
Qed.

Lemma undef_unset_potentials_fixed u (m : list lbool) (l : Lit) :
  is_candidate u (var l) = false →
  model_value_of (undef_unset_potentials u m) l = model_value_of m l.
Proof.
  intros Hc. unfold model_value_of, undef_unset_potentials.
  rewrite undef_unset_potentials_prefix, N2Nat.id, Hc.
  by rewrite andb_false_r.
Qed.

Lemma undef_unset_potentials_unset u (m : list lbool) (v : N) :
  is_candidate u v = true → N.to_nat v < length m →
  undef_unset_potentials u m !! N.to_nat v = Some l_Undef.
Proof.
  intros Hc Hv. unfold undef_unset_potentials.
  rewrite undef_unset_potentials_prefix, N2Nat.id, Hc.
  apply is_candidate_lookup in Hc as (x & Hx%lookup_lt_Some & _).
  rewrite bool_decide_eq_true_2 by done. simpl.
  destruct (lookup_lt_is_Some_2 m _ Hv) as [y ->]. done.
Qed.

Lemma clause_safe_still_satisfied s u c :
  clause_safe s u c = true →
  still_satisfied s u (undef_unset_potentials u (model s)) c.
Proof.
  intros (l & Hl & Ht & Hc)%clause_safe_spec. exists l.
  repeat split; try done. by rewrite undef_unset_potentials_fixed.
Qed.

(** C2. [undefine] returns: it neither exits nor fails the assertion
    [v != var_Undef] of its loop, on a
    solver whose model satisfies the irredundant clauses, whose watch lists
    hold every binary clause at both of its literals, and with a trail that
    holds no variable twice. When [U] is the set of candidates that the loop
    of [undefine] leaves, the model that [undefine] leaves is the old one
    with the variables of [U] set to [l_Undef], and every long irredundant
    clause and every binary clause of the watch lists has a literal that is
    true under the old model, whose variable is not in [U], and that is true
    under the new model too. *)
Theorem model_minimizer_is_sound s (trail_lim_vars : list N) :
  watches_wf s = true →
  verify_model_long_clauses s (longIrredCls s) = true →
  verify_model_implicit_clauses s = true →
  NoDup trail_lim_vars →
  (∀ v, v ∈ trail_lim_vars → (v < nVarsOuter s)%N) →
  (nVars s ≤ nVarsOuter s)%N →
  (nVarsOuter s ≤ var_Undef)%N →
  (nVarsOuter s < 2 ^ 32)%N →
  independent_vars_ok s = true →
  ∃ u U,
    undef_fill_potentials s trail_lim_vars (FindUndef_new s) = Some u
    ∧ undefine_loop (S (N.to_nat (can_be_unsetSum u))) s u = Finished U
    ∧ undefine s trail_lim_vars
      = Some (Finished (can_be_unsetSum U,
                        undef_unset_potentials U (model s)))
    ∧ let model' := undef_unset_potentials U (model s) in
      (∀ v, is_candidate U v = true → N.to_nat v < length (model s) →
            model' !! N.to_nat v = Some l_Undef)
      ∧ (∀ v, is_candidate U v = false →
              model' !! N.to_nat v = model s !! N.to_nat v)
      ∧ (∀ offset, offset ∈ longIrredCls s →
                   still_satisfied s U model' (clause_at s offset))
      ∧ (∀ l lit2, (l, lit2) ∈ bin_clauses s →
                   still_satisfied s U model' [l; lit2]).
Proof.
  intros Hwf Hlong Hbin Hnd Hrange Hn Hundef Hbig Hind.
  destruct (undef_fill_potentials_spec s trail_lim_vars Hnd Hrange Hn Hbig
              Hind) as (u & Hfill & Hok & Hmarks & Hlen).
  destruct (undefine_loop_spec s Hwf Hlong Hbin
              (S (N.to_nat (can_be_unsetSum u))) u Hok Hmarks)
    as (U & Hrun & _ & _ & Hlongs & Hbins).
  { rewrite Hlen. lia. }
  { lia. }
  exists u, U. split; [done|]. split; [done|]. split.
  { unfold undefine. rewrite Hfill. unfold mbind, option_bind.
    cbv beta iota. by rewrite Hrun. }
  split; [|split; [|split]].
  - intros v Hc Hv. by apply undef_unset_potentials_unset.
  - intros v Hc. unfold undef_unset_potentials.
    rewrite undef_unset_potentials_prefix, N2Nat.id, Hc.
    by rewrite andb_false_r.
  - intros off Hoff. by apply clause_safe_still_satisfied, Hlongs.
  - intros l lit2 Hin. by apply clause_safe_still_satisfied, Hbins.
Qed.

End Minimiser.







(** ** What the cleaning of a clause keeps *)

Section Literals.
Context `{PF : Platform}.

Lemma toInt_var_sign (l : Lit) : toInt l = (2 * var l + N.b2n (sign l))%N.
Proof.
  unfold var, sign. rewrite N.shiftr_div_pow2, N.bit0_mod.
  change (2 ^ 1)%N with 2%N. apply N.div_mod. done.
Qed.

Lemma var_mkLit (v : N) (b : bool) : var (mkLit v b) = v.
Proof.
  unfold var, mkLit. simpl. rewrite N.shiftr_div_pow2.
  change (2 ^ 1)%N with 2%N. destruct b; simpl.
  - rewrite N.mul_comm, N.div_add_l by done. by rewrite N.add_0_r.
  - rewrite N.add_0_r, N.mul_comm. by apply N.div_mul.
Qed.

Lemma var_lit_Undef : var lit_Undef = var_Undef.
Proof. apply var_mkLit. Qed.

Lemma var_le_of_toInt_le (x y : Lit) :
  (toInt x ≤ toInt y)%N → (var x ≤ var y)%N.
Proof.
  intros H. unfold var. rewrite !N.shiftr_div_pow2.
  by apply N.Div0.div_le_mono.
Qed.

(** Two literals of one variable are equal or each other's complement. *)
Lemma same_var (x y : Lit) : var x = var y → x = y ∨ x = lit_neg y.
Proof.
  intros Hv. pose proof (toInt_var_sign x) as Hx.
  pose proof (toInt_var_sign y) as Hy.
  destruct x as [nx], y as [ny]. simpl in Hx, Hy.
  destruct (decide (sign (toLit nx) = sign (toLit ny))) as [Hs|Hs].
  - left. f_equal. rewrite Hx, Hy, Hv, Hs. done.
  - right. unfold lit_neg. simpl. f_equal.
    apply N.bits_inj. intros k. rewrite N.lxor_spec.
    destruct (decide (k = 0%N)) as [->|Hk].
    + change (N.testbit nx 0) with (sign (toLit nx)).
      change (N.testbit ny 0) with (sign (toLit ny)).
      destruct (sign (toLit nx)), (sign (toLit ny)); done.
    + rewrite N.bits_above_log2 with (a := 1%N) (n := k) by (simpl; lia).
      rewrite xorb_false_r.
      replace k with (N.succ (N.pred k)) by lia.
      rewrite <- !N.testbit_div2. rewrite !N.div2_spec.
      change (N.shiftr nx 1) with (var (toLit nx)).
      change (N.shiftr ny 1) with (var (toLit ny)). by rewrite Hv.
Qed.

Lemma lit_neg_ne (l : Lit) : lit_neg l ≠ l.
Proof.
  intros H. pose proof (sign_lit_neg l) as Hs. rewrite H in Hs.
  by destruct (sign l).
Qed.

Lemma lit_neg_involutive (l : Lit) : lit_neg (lit_neg l) = l.
Proof.
  destruct l as [n]. unfold lit_neg. simpl. f_equal.
  rewrite N.lxor_assoc. simpl. apply N.lxor_0_r.
Qed.

Lemma lit_true_lit_neg (a : N → bool) (l : Lit) :
  lit_true a (lit_neg l) = negb (lit_true a l).
Proof.
  unfold lit_true. rewrite var_lit_neg, sign_lit_neg.
  by destruct (a (var l)), (sign l).
Qed.

Lemma lit_true_lit_xor (a : N → bool) (l : Lit) (b : bool) :
  lit_true a (lit_xor l b) = xorb (lit_true a l) b.
Proof.
  destruct b.
  - rewrite lit_xor_true, lit_true_lit_neg. by destruct (lit_true a l).
  - rewrite lit_xor_false. by destruct (lit_true a l).
Qed.

Lemma extends_false (a : N → bool) (assigns : list lbool) (l : Lit) :
  extends a assigns → value_of assigns l = l_False → lit_true a l = false.
Proof.
  intros Ha Hl. specialize (Ha (lit_neg l)).
  rewrite value_of_lit_neg, Hl, lit_true_lit_neg in Ha.
  specialize (Ha eq_refl). by destruct (lit_true a l).
Qed.

(** The value of an assigned literal is its truth under the assignment. *)
Lemma extends_assigned (a : N → bool) (assigns : list lbool) (l : Lit) :
  extends a assigns → value_of assigns l ≠ l_Undef →
  lit_true a l = bool_decide (value_of assigns l = l_True).
Proof.
  intros Ha Hl. destruct (value_of assigns l) eqn:E; [| |done].
  - by rewrite (Ha l E).
  - by rewrite (extends_false a assigns l Ha E).
Qed.

(** [std::sort] gives the literals back in ascending order. *)
Lemma sort_insert_Permutation (x : Lit) (l : list Lit) :
  sort_insert x l ≡ₚ x :: l.
Proof.
  induction l as [|y l IH]; simpl; [done|].
  destruct (Lit_leb x y); [done|]. rewrite IH. apply Permutation_swap.
Qed.

Lemma std_sort_Permutation (l : list Lit) : std_sort l ≡ₚ l.
Proof.
  induction l as [|x l IH]; simpl; [done|].
  by rewrite sort_insert_Permutation, IH.
Qed.

Lemma elem_of_std_sort (x : Lit) (l : list Lit) : x ∈ std_sort l ↔ x ∈ l.
Proof. by rewrite std_sort_Permutation. Qed.

Lemma elem_of_std_sort_1 (x : Lit) (l : list Lit) : x ∈ std_sort l → x ∈ l.
Proof. apply elem_of_std_sort. Qed.

Lemma elem_of_std_sort_2 (x : Lit) (l : list Lit) : x ∈ l → x ∈ std_sort l.
Proof. apply elem_of_std_sort. Qed.

Lemma sort_insert_sorted (x : Lit) (l : list Lit) :
  StronglySorted (λ a b, (toInt a ≤ toInt b)%N) l →
  StronglySorted (λ a b, (toInt a ≤ toInt b)%N) (sort_insert x l).
Proof.
  induction 1 as [|y l Hl IH Hy]; simpl.
  { repeat constructor. }
  unfold Lit_leb. destruct (N.leb_spec (toInt x) (toInt y)) as [Hle|Hgt].
  - constructor; [by constructor|]. constructor; [done|].
    eapply Forall_impl; [exact Hy|]. simpl. intros z Hz. lia.
  - constructor; [done|]. rewrite sort_insert_Permutation.
    constructor; [lia|done].
Qed.

Lemma std_sort_sorted (l : list Lit) :
  StronglySorted (λ a b, (toInt a ≤ toInt b)%N) (std_sort l).
Proof.
  induction l as [|x l IH]; simpl; [constructor|].
  by apply sort_insert_sorted.
Qed.

(** In a list with ascending variables a variable has one literal. *)
Lemma var_lt_sorted_inj (k : list Lit) (x y : Lit) :
  StronglySorted var_lt k → x ∈ k → y ∈ k → var x = var y → x = y.
Proof.
  induction 1 as [|z k Hk IH Hz]; intros Hx Hy Hv.
  { by apply elem_of_nil in Hx. }
  rewrite Forall_forall in Hz. unfold var_lt in Hz.
  apply elem_of_cons in Hx as [->|Hx], Hy as [->|Hy]; [done| | |by apply IH].
  - specialize (Hz y Hy). lia.
  - specialize (Hz x Hx). lia.
Qed.

Lemma var_lt_sorted_last (k : list Lit) (p x : Lit) :
  StronglySorted var_lt k → last k = Some p → x ∈ k →
  (var x ≤ var p)%N.
Proof.
  intros Hk (k' & ->)%last_Some Hx.
  apply elem_of_app in Hx as [Hx|Hx].
  - apply N.lt_le_incl.
    apply (StronglySorted_app_1_elem_of var_lt k' [p] x p Hk Hx). left.
  - apply list_elem_of_singleton in Hx as ->. done.
Qed.

End Literals.

Section CleaningKeeps.
Context `{CO : Collab}.

(** A scan that retains: what it retained, and what it went over. *)
Lemma clean_scan_ScanKept (a : list lbool) (rest : list Lit) :
  ∀ p kept p' kept',
    StronglySorted (λ x y, (toInt x ≤ toInt y)%N) rest →
    (∀ l, l ∈ rest → var l ≠ var_Undef) →
    (kept = [] ∧ p = lit_Undef)
    ∨ (last kept = Some p ∧ ∀ l, l ∈ rest → (toInt p ≤ toInt l)%N) →
    StronglySorted var_lt kept →
    clean_scan a p kept rest = ScanKept p' kept' →
    StronglySorted var_lt kept'
    ∧ (∀ l, l ∈ kept' → l ∈ kept ∨ (l ∈ rest ∧ value_of a l = l_Undef))
    ∧ (∀ l, l ∈ kept → l ∈ kept')
    ∧ (∀ l, l ∈ rest →
         value_of a l ≠ l_True ∧ (l ∈ kept' ∨ value_of a l = l_False)).
Proof.
  induction rest as [|l rest IH]; intros p kept p' kept' Hs Hv Hp Hk; simpl.
  { intros [= <- <-]. split; [done|]. split; [by left|]. split; [done|].
    intros x Hx. by apply elem_of_nil in Hx. }
  apply StronglySorted_inv in Hs as [Hs Hl].
  rewrite Forall_forall in Hl.
  assert (Hv' : ∀ x, x ∈ rest → var x ≠ var_Undef)
    by (intros x Hx; apply Hv; by right).
  assert (Hlv : var l ≠ var_Undef) by (apply Hv; left).
  destruct (decide (value_of a l = l_True)) as [|Hnt]; [done|].
  destruct (decide (l = lit_neg p)) as [|Hnn]; [done|].
  destruct (decide (value_of a l ≠ l_False ∧ l ≠ p)) as [[Hnf Hne]|Hno].
  - (* the literal is retained *)
    intros Hscan.
    assert (Hsnoc : StronglySorted var_lt (kept ++ [l])).
    { apply StronglySorted_app_2; [|done|repeat constructor].
      intros x y Hx ->%list_elem_of_singleton. unfold var_lt.
      destruct Hp as [[-> _]|[Hlast Hle]]; [by apply elem_of_nil in Hx|].
      pose proof (var_lt_sorted_last kept p x Hk Hlast Hx) as Hxp.
      assert (toInt p ≤ toInt l)%N as Hpy by (apply Hle; left).
      apply var_le_of_toInt_le in Hpy.
      assert (var l ≠ var p); [|lia].
      intros [E|E]%same_var; done. }
    destruct (IH l (kept ++ [l]) p' kept' Hs Hv') as (H1 & H2 & H3 & H4);
      [|done|done|].
    { right. split; [apply last_snoc|]. intros x Hx. by apply Hl. }
    split; [done|]. split; [|split].
    + intros x Hx. destruct (H2 x Hx) as [[Hin|Hin]%elem_of_app|[Hin Hu]].
      * by left.
      * apply list_elem_of_singleton in Hin as ->. right.
        split; [left|]. by destruct (value_of a l).
      * right. split; [by right|done].
    + intros x Hx. apply H3, elem_of_app. by left.
    + intros x [->|Hx]%elem_of_cons; [|by apply H4].
      split; [done|]. left. apply H3, elem_of_app. right. left.
  - (* the literal is skipped: it is false or a copy of [p] *)
    intros Hscan.
    destruct (IH p kept p' kept' Hs Hv') as (H1 & H2 & H3 & H4);
      [|done|done|].
    { destruct Hp as [Hp|[Hlast Hle]]; [by left|right].
      split; [done|]. intros x Hx. apply Hle. by right. }
    split; [done|]. split; [|split; [done|]].
    + intros x Hx. destruct (H2 x Hx) as [Hin|[Hin Hu]]; [by left|].
      right. split; [by right|done].
    + intros x [->|Hx]%elem_of_cons; [|by apply H4].
      split; [done|].
      destruct (decide (value_of a l = l_False)) as [|Hnf]; [by right|].
      left. assert (l = p) as -> by (destruct (decide (l = p)); tauto).
      destruct Hp as [[_ ->]|[Hlast _]].
      * by rewrite var_lit_Undef in Hlv.
      * apply H3. apply last_Some in Hlast as [k' ->].
        apply elem_of_app. right. left.
Qed.

(** A scan that drops the clause: why. *)
Lemma clean_scan_dropped (a : list lbool) (rest : list Lit) :
  ∀ p kept,
    match clean_scan a p kept rest with
    | ScanSatisfied => ∃ l, l ∈ rest ∧ value_of a l = l_True
    | ScanTautology q => lit_neg q ∈ rest ∧ (q = p ∨ q ∈ rest)
    | ScanKept _ _ => True
    end.
Proof.
  induction rest as [|l rest IH]; intros p kept; simpl; [done|].
  destruct (decide (value_of a l = l_True)) as [Ht|_].
  { exists l. split; [left|done]. }
  destruct (decide (l = lit_neg p)) as [->|_].
  { split; [left|by left]. }
  destruct (decide (value_of a l ≠ l_False ∧ l ≠ p)) as [_|_].
  - specialize (IH l (kept ++ [l])).
    destruct (clean_scan a l (kept ++ [l]) rest) as [|q|]; [| |done].
    + destruct IH as (x & Hx & Hxt). exists x. split; [by right|done].
    + destruct IH as [Hq [->|Hq']].
      * split; [by right|]. right. left.
      * split; [by right|]. right. by right.
  - specialize (IH p kept).
    destruct (clean_scan a p kept rest) as [|q|]; [| |done].
    + destruct IH as (x & Hx & Hxt). exists x. split; [by right|done].
    + destruct IH as [Hq [->|Hq']].
      * split; [by right|]. by left.
      * split; [by right|]. right. by right.
Qed.

Lemma clause_true_spec (a : N → bool) (c : list Lit) :
  clause_true a c = true ↔ ∃ l, l ∈ c ∧ lit_true a l = true.
Proof.
  unfold clause_true. rewrite existsb_exists.
  by setoid_rewrite list_elem_of_In.
Qed.

Lemma sort_and_clean_clause_ScanKept (s s' : Solver) (ps kept : list Lit)
    (red : bool) :
  sort_and_clean_clause ps red s = Ret (Some kept) s' →
  s' = s ∧ ∃ p, clean_scan (assigns s) lit_Undef [] (std_sort ps)
                = ScanKept p kept.
Proof.
  unfold sort_and_clean_clause. unfold_M.
  destruct (clean_scan _ _ _ _) as [|q|p k]; [done| |].
  - by destruct red.
  - intros [= <- <-]. eauto.
Qed.

(** X1. When [sort_and_clean_clause] keeps a clause (no variable of which
    is [var_Undef]) the solver is untouched, and the literals left are
    exactly the literals of the clause that have no value, once each, in
    the ascending order of their variables, so that no variable is left
    twice; and under every assignment that agrees with the values fixed so
    far the cleaned clause is true exactly when the clause is. *)
Theorem cleaned_clause_is_equivalent (s s' : Solver) (ps kept : list Lit)
    (red : bool) :
  (∀ l, l ∈ ps → var l ≠ var_Undef) →
  sort_and_clean_clause ps red s = Ret (Some kept) s' →
  s' = s
  ∧ StronglySorted var_lt kept
  ∧ (∀ l, l ∈ kept ↔ l ∈ ps ∧ value s l = l_Undef)
  ∧ (∀ a, extends a (assigns s) → clause_true a kept = clause_true a ps).
Proof.
  intros Hv [-> [p Hscan]]%sort_and_clean_clause_ScanKept.
  destruct (clean_scan_ScanKept (assigns s) (std_sort ps) lit_Undef [] p kept)
    as (H1 & H2 & _ & H4); try done.
  { apply std_sort_sorted. }
  { intros l Hl%elem_of_std_sort_1. by apply Hv. }
  { by left. }
  { constructor. }
  assert (Hkept : ∀ l, l ∈ kept ↔ l ∈ ps ∧ value s l = l_Undef).
  { intros l. split.
    - intros Hl. destruct (H2 l Hl) as [Hin|[Hin Hu]].
      + by apply elem_of_nil in Hin.
      + split; [by apply elem_of_std_sort_1|done].
    - intros [Hin%elem_of_std_sort_2 Hu].
      destruct (H4 l Hin) as [_ [Hk|Hf]]; [done|].
      unfold value in Hu. congruence. }
  split; [done|]. split; [done|]. split; [done|].
  intros a Ha. apply eq_true_iff_eq. rewrite !clause_true_spec. split.
  - intros (l & Hl & Ht). exists l. split; [|done]. by apply Hkept.
  - intros (l & Hl & Ht). exists l. split; [|done].
    destruct (H4 l (elem_of_std_sort_2 _ _ Hl)) as [_ [Hk|Hf]]; [done|].
    by rewrite (extends_false a _ l Ha Hf) in Ht.
Qed.

(** X2. [sort_and_clean_clause] drops a clause (no variable of which is
    [var_Undef]) exactly when one of its literals is true already or it
    holds a literal together with its complement; a clause that is dropped
    is true under every assignment that agrees with the values fixed so
    far. *)
Theorem dropped_clause_is_satisfied (s : Solver) (ps : list Lit)
    (red : bool) :
  (∀ l, l ∈ ps → var l ≠ var_Undef) →
  ((∃ s', sort_and_clean_clause ps red s = Ret None s')
   ↔ ∃ l, l ∈ ps ∧ (value s l = l_True ∨ lit_neg l ∈ ps))
  ∧ (∀ s', sort_and_clean_clause ps red s = Ret None s' →
           ∀ a, extends a (assigns s) → clause_true a ps = true).
Proof.
  intros Hv.
  assert (Hwhy : ∀ s', sort_and_clean_clause ps red s = Ret None s' →
            ∃ l, l ∈ ps ∧ (value s l = l_True ∨ lit_neg l ∈ ps)).
  { intros s'. unfold sort_and_clean_clause. unfold_M.
    pose proof (clean_scan_dropped (assigns s) (std_sort ps) lit_Undef [])
      as Hd.
    destruct (clean_scan _ _ _ _) as [|q|p k]; [| |done]; intros _.
    - destruct Hd as (l & Hl%elem_of_std_sort_1 & Ht). eauto.
    - destruct Hd as [Hn%elem_of_std_sort_1 [->|Hq%elem_of_std_sort_1]].
      + apply Hv in Hn. by rewrite var_lit_neg, var_lit_Undef in Hn.
      + eauto. }
  split; [split|].
  - intros [s' Hs']. by eapply Hwhy.
  - intros (l & Hl & Hwhy').
    unfold sort_and_clean_clause. unfold_M.
    destruct (clean_scan _ _ _ _) as [|q|p k] eqn:Hscan; [by eauto| |].
    { destruct red; eauto. }
    exfalso.
    destruct (clean_scan_ScanKept (assigns s) (std_sort ps) lit_Undef [] p k)
      as (H1 & _ & _ & H4); try done.
    { apply std_sort_sorted. }
    { intros x Hx%elem_of_std_sort_1. by apply Hv. }
    { by left. }
    { constructor. }
    pose proof (elem_of_std_sort_2 _ _ Hl) as Hl'.
    destruct (H4 l Hl') as [Hnt Hl4].
    destruct Hwhy' as [Ht|Hn]; [done|].
    pose proof (elem_of_std_sort_2 _ _ Hn) as Hn'.
    destruct (H4 _ Hn') as [Hnt' Hn4].
    rewrite value_of_lit_neg in Hnt', Hn4.
    destruct Hl4 as [Hlk|Hf]; [|by rewrite Hf in Hnt'].
    destruct Hn4 as [Hnk|Hf].
    2:{ destruct (value_of (assigns s) l); done. }
    apply (lit_neg_ne l).
    apply (var_lt_sorted_inj k _ _ H1 Hnk Hlk), var_lit_neg.
  - intros s' Hs' a Ha. destruct (Hwhy s' Hs') as (l & Hl & [Ht|Hn]).
    + apply clause_true_spec. exists l. split; [done|]. by apply Ha.
    + apply clause_true_spec. destruct (lit_true a l) eqn:E.
      * by exists l.
      * exists (lit_neg l). split; [done|]. by rewrite lit_true_lit_neg, E.
Qed.

Lemma clean_scan_all_false (a : list lbool) (rest : list Lit) (p : Lit)
    (kept : list Lit) :
  (∀ l, l ∈ rest → value_of a l = l_False ∧ l ≠ lit_neg p) →
  clean_scan a p kept rest = ScanKept p kept.
Proof.
  induction rest as [|l rest IH]; intros H; simpl; [done|].
  destruct (H l) as [Hf Hn]; [left|].
  rewrite decide_False by congruence. rewrite decide_False by done.
  rewrite decide_False by tauto. apply IH. intros x Hx. apply H. by right.
Qed.

(** X3. A clause every literal of which is false already (the empty clause
    is one) refutes the solver: [add_clause_int] makes no clause, sets [ok]
    to false and, asked for the final literals, hands back none. *)
Theorem falsified_clause_refutes (s : Solver) (lits : list Lit) (red : bool)
    (stats : ClauseStats) (attach_long finalLits : bool) (drat_first : Lit) :
  (∀ l, l ∈ lits → value s l = l_False ∧ var l ≠ var_Undef) →
  add_clause_int lits red stats attach_long finalLits false drat_first s
  = Ret None (set_ok false (if finalLits then set_finalCl_tmp [] s else s)).
Proof.
  intros H.
  assert (Hscan : clean_scan (assigns s) lit_Undef [] (std_sort lits)
                  = ScanKept lit_Undef []).
  { apply clean_scan_all_false. intros l Hl%elem_of_std_sort_1.
    destruct (H l Hl) as [Hf Hv]. split; [done|]. intros ->.
    by rewrite var_lit_neg, var_lit_Undef in Hv. }
  unfold add_clause_int, sort_and_clean_clause. unfold_M.
  rewrite Hscan. by destruct finalLits.
Qed.

End CleaningKeeps.

(** ** What the cleaning of an XOR keeps *)

Section XorKeeps.
Context `{CO : Collab}.

Lemma xor_parity_app (a : N → bool) (c1 c2 : list Lit) :
  xor_parity a (c1 ++ c2) = xorb (xor_parity a c1) (xor_parity a c2).
Proof.
  induction c1 as [|l c1 IH]; simpl.
  - by destruct (xor_parity a c2).
  - rewrite IH. by rewrite xorb_assoc.
Qed.

Lemma xor_parity_Permutation (a : N → bool) (c1 c2 : list Lit) :
  c1 ≡ₚ c2 → xor_parity a c1 = xor_parity a c2.
Proof.
  induction 1 as [|x c1 c2 _ IH|x y c|c1 c2 c3 _ IH1 _ IH2]; simpl.
  - done.
  - by rewrite IH.
  - by destruct (lit_true a x), (lit_true a y), (xor_parity a c).
  - congruence.
Qed.

(** The signs are pulled into the right-hand side. *)
Lemma xor_pull_signs_spec (lits : list Lit) :
  ∀ rhs ps rhs',
    xor_pull_signs lits rhs = (ps, rhs') →
    (∀ l, l ∈ ps → sign l = false ∧ ∃ l0, l0 ∈ lits ∧ var l0 = var l)
    ∧ ∀ a, xorb (xor_parity a ps) rhs' = xorb (xor_parity a lits) rhs.
Proof.
  induction lits as [|l lits IH]; intros rhs ps rhs'; simpl.
  { intros [= <- <-]. split; [|done]. intros l Hl.
    by apply elem_of_nil in Hl. }
  destruct (sign l) eqn:Hs.
  - destruct (xor_pull_signs lits (xorb rhs true)) as [ps1 rhs1] eqn:E.
    intros [= <- <-]. destruct (IH _ _ _ E) as [H1 H2]. split.
    + intros x [->|Hx]%elem_of_cons.
      * split.
        -- rewrite lit_xor_true, sign_lit_neg, Hs. done.
        -- exists l. split; [left|]. by rewrite lit_xor_true, var_lit_neg.
      * destruct (H1 x Hx) as [Hx1 (l0 & Hl0 & Hv)]. split; [done|].
        exists l0. split; [by right|done].
    + intros a. simpl. rewrite lit_true_lit_xor.
      specialize (H2 a).
      destruct (lit_true a l), (xor_parity a ps1), rhs1,
        (xor_parity a lits), rhs; simpl in *; congruence.
  - destruct (xor_pull_signs lits rhs) as [ps1 rhs1] eqn:E.
    intros [= <- <-]. destruct (IH _ _ _ E) as [H1 H2]. split.
    + intros x [->|Hx]%elem_of_cons.
      * split; [done|]. exists l. split; [left|done].
      * destruct (H1 x Hx) as [Hx1 (l0 & Hl0 & Hv)]. split; [done|].
        exists l0. split; [by right|done].
    + intros a. simpl. specialize (H2 a).
      destruct (lit_true a l), (xor_parity a ps1), rhs1,
        (xor_parity a lits), rhs; simpl in *; congruence.
Qed.

(** The scan over the sorted positive literals. *)
Lemma xor_scan_spec (a : list lbool) (rest : list Lit) :
  ∀ p kept rhs kept' rhs',
    StronglySorted (λ x y, (toInt x ≤ toInt y)%N) rest →
    (∀ l, l ∈ rest → sign l = false ∧ var l ≠ var_Undef) →
    (∀ l, l ∈ kept → sign l = false ∧ value_of a l = l_Undef) →
    (p = lit_Undef ∧ ∀ x l, x ∈ kept → l ∈ rest → var_lt x l)
    ∨ (∃ k0, kept = k0 ++ [p]
             ∧ (∀ x l, x ∈ k0 → l ∈ rest → var_lt x l)
             ∧ ∀ l, l ∈ rest → (var p ≤ var l)%N) →
    StronglySorted var_lt kept →
    xor_scan a p kept rhs rest = (kept', rhs') →
    StronglySorted var_lt kept'
    ∧ (∀ l, l ∈ kept' →
         sign l = false ∧ value_of a l = l_Undef ∧ (l ∈ kept ∨ l ∈ rest))
    ∧ ∀ b, extends b a →
           xorb (xor_parity b kept') rhs'
           = xorb (xorb (xor_parity b kept) (xor_parity b rest)) rhs.
Proof.
  induction rest as [|l rest IH];
    intros p kept rhs kept' rhs' Hs Hr Hk Hp Hsorted; simpl.
  { intros [= <- <-]. split; [done|]. split.
    - intros l Hl. destruct (Hk l Hl). by repeat split; [..|left].
    - intros b _. by rewrite xorb_false_r. }
  apply StronglySorted_inv in Hs as [Hs Hl]. rewrite Forall_forall in Hl.
  destruct (Hr l) as [Hsl Hvl]; [left|].
  assert (Hr' : ∀ x, x ∈ rest → sign x = false ∧ var x ≠ var_Undef)
    by (intros x Hx; apply Hr; by right).
  assert (Hle : ∀ x, x ∈ rest → (var l ≤ var x)%N)
    by (intros x Hx; by apply var_le_of_toInt_le, Hl).
  destruct (decide (var l = var p)) as [Hlp|Hlp].
  - (* the variable of the literal kept last: the two cancel *)
    destruct Hp as [[-> _]|(k0 & -> & Hk0 & _)].
    { by rewrite var_lit_Undef in Hlp. }
    assert (l = p) as ->.
    { destruct (same_var l p Hlp) as [|E]; [done|].
      destruct (Hk p) as [Hsp _]; [apply elem_of_app; right; left|].
      rewrite E, sign_lit_neg, Hsp in Hsl. done. }
    destruct (Hk p) as [_ Hup]; [apply elem_of_app; right; left|].
    rewrite removelast_last. rewrite decide_True by done.
    intros Hscan.
    destruct (IH lit_Undef k0 rhs kept' rhs' Hs Hr') as (H1 & H2 & H3);
      [| |by eapply StronglySorted_app_1_l|done|].
    { intros x Hx. apply Hk, elem_of_app. by left. }
    { left. split; [done|]. intros x y Hx Hy. apply Hk0; [done|by right]. }
    split; [done|]. split.
    + intros x Hx. destruct (H2 x Hx) as (? & ? & [Hin|Hin]).
      * repeat split; try done. left. apply elem_of_app. by left.
      * repeat split; try done. right. by right.
    + intros b Hb. rewrite (H3 b Hb), xor_parity_app. simpl.
      destruct (xor_parity b k0), (lit_true b p), (xor_parity b rest), rhs;
        done.
  - assert (Hnew : ∀ x, x ∈ kept → var_lt x l).
    { intros x Hx. destruct Hp as [[_ Hk0]|(k0 & -> & Hk0 & Hpl)].
      - apply Hk0; [done|left].
      - apply elem_of_app in Hx as [Hx|Hx%list_elem_of_singleton].
        + apply Hk0; [done|left].
        + subst x. unfold var_lt. assert (var p ≤ var l)%N by (apply Hpl; left).
          lia. }
    destruct (decide (value_of a l = l_Undef)) as [Hu|Hu].
    + (* a new variable without a value: the literal is kept *)
      intros Hscan.
      destruct (IH l (kept ++ [l]) rhs kept' rhs' Hs Hr') as (H1 & H2 & H3);
        [| | |done|].
      { intros x [Hx|Hx%list_elem_of_singleton]%elem_of_app; [by apply Hk|].
        by subst x. }
      { right. exists kept. split; [done|]. split; [|done].
        intros x y Hx Hy. unfold var_lt. specialize (Hnew x Hx).
        specialize (Hle y Hy). unfold var_lt in Hnew. lia. }
      { apply StronglySorted_app_2; [|done|repeat constructor].
        intros x y Hx ->%list_elem_of_singleton. by apply Hnew. }
      split; [done|]. split.
      * intros x Hx. destruct (H2 x Hx) as (? & ? & [Hin|Hin]).
        -- repeat split; try done.
           apply elem_of_app in Hin as [Hin|Hin%list_elem_of_singleton].
           ++ by left.
           ++ subst x. right. left.
        -- repeat split; try done. right. by right.
      * intros b Hb. rewrite (H3 b Hb), xor_parity_app. simpl.
        destruct (xor_parity b kept), (lit_true b l), (xor_parity b rest),
          rhs; done.
    + (* a variable with a value: it goes into the right-hand side *)
      intros Hscan.
      destruct (IH p kept (xorb rhs (bool_decide (value_of a l = l_True)))
                  kept' rhs' Hs Hr' Hk) as (H1 & H2 & H3);
        [|done|exact Hscan|].
      { destruct Hp as [[-> Hk0]|(k0 & -> & Hk0 & Hpl)].
        - left. split; [done|]. intros x y Hx Hy. apply Hk0; [done|by right].
        - right. exists k0. split; [done|]. split.
          + intros x y Hx Hy. apply Hk0; [done|by right].
          + intros y Hy. apply Hpl. by right. }
      split; [done|]. split.
      * intros x Hx. destruct (H2 x Hx) as (? & ? & [Hin|Hin]).
        -- by repeat split; [..|left].
        -- repeat split; try done. right. by right.
      * intros b Hb. rewrite (H3 b Hb). simpl.
        rewrite (extends_assigned b a l Hb Hu).
        destruct (xor_parity b kept), (bool_decide _), (xor_parity b rest),
          rhs; done.
Qed.

Lemma xor_cleaned_spec (s : Solver) (lits ps : list Lit) (rhs rhs' : bool) :
  (∀ l, l ∈ lits → var l ≠ var_Undef) →
  xor_cleaned s lits rhs = (ps, rhs') →
  StronglySorted var_lt ps
  ∧ (∀ l, l ∈ ps →
       sign l = false ∧ value s l = l_Undef
       ∧ ∃ l0, l0 ∈ lits ∧ var l0 = var l)
  ∧ (∀ a, extends a (assigns s) →
          xorb (xor_parity a ps) rhs' = xorb (xor_parity a lits) rhs).
Proof.
  intros Hv. unfold xor_cleaned.
  destruct (xor_pull_signs lits rhs) as [ps0 rhs0] eqn:E. intros Hscan.
  destruct (xor_pull_signs_spec lits rhs ps0 rhs0 E) as [Hpos Hpar].
  destruct (xor_scan_spec (assigns s) (std_sort ps0) lit_Undef [] rhs0 ps rhs')
    as (H1 & H2 & H3); try done.
  { apply std_sort_sorted. }
  { intros l Hl%elem_of_std_sort_1.
    destruct (Hpos l Hl) as [Hs (l0 & Hl0 & Hv0)]. split; [done|].
    rewrite <- Hv0. by apply Hv. }
  { intros l Hl. by apply elem_of_nil in Hl. }
  { left. split; [done|]. intros x l Hx. by apply elem_of_nil in Hx. }
  { constructor. }
  split; [done|]. split.
  - intros l Hl. destruct (H2 l Hl) as (Hs & Hu & [Hin|Hin]).
    { by apply elem_of_nil in Hin. }
    split; [done|]. split; [done|].
    by apply Hpos, elem_of_std_sort_1.
  - intros a Ha. rewrite (H3 a Ha). simpl.
    rewrite (xor_parity_Permutation a _ _ (std_sort_Permutation ps0)).
    apply Hpar.
Qed.

(** X4. The cleaning of an XOR (no variable of which is [var_Undef]) keeps
    the constraint: the literals left are positive, have no value, their
    variables are variables of the XOR and ascend, so that no variable is
    left twice; and an assignment that agrees with the values fixed so far
    satisfies the cleaned XOR exactly when it satisfies the XOR. *)
Theorem xor_cleaning_keeps_the_constraint (s : Solver) (lits ps : list Lit)
    (rhs rhs' : bool) :
  (∀ l, l ∈ lits → var l ≠ var_Undef) →
  xor_cleaned s lits rhs = (ps, rhs') →
  StronglySorted var_lt ps
  ∧ (∀ l, l ∈ ps →
       sign l = false ∧ value s l = l_Undef
       ∧ ∃ l0, l0 ∈ lits ∧ var l0 = var l)
  ∧ (∀ a, extends a (assigns s) →
          xor_parity a ps = rhs' ↔ xor_parity a lits = rhs).
Proof.
  intros Hv Hc. destruct (xor_cleaned_spec s lits ps rhs rhs' Hv Hc)
    as (H1 & H2 & H3).
  split; [done|]. split; [done|]. intros a Ha. specialize (H3 a Ha).
  destruct (xor_parity a ps), rhs', (xor_parity a lits), rhs;
    simpl in H3; try discriminate; split; congruence.
Qed.

(** X5. An XOR (no variable of which is [var_Undef]) of which the cleaning
    leaves no literal is settled at once. When the right-hand side left is
    1, no assignment that agrees with the values fixed so far satisfies the
    XOR, and [add_xor_clause_inter] closes the proof trace, sets [ok] to
    false and returns false; when it is 0, every such assignment satisfies
    the XOR and nothing is changed. *)
Theorem emptied_xor_is_settled (s : Solver) (lits : list Lit)
    (rhs rhs' attach addDrat : bool) :
  (∀ l, l ∈ lits → var l ≠ var_Undef) →
  xor_cleaned s lits rhs = ([], rhs') →
  add_xor_clause_inter lits rhs attach addDrat s
  = (if rhs' then Ret false (set_ok false (drat_fin s)) else Ret (ok s) s)
  ∧ (∀ a, extends a (assigns s) → xor_parity a lits = rhs ↔ rhs' = false).
Proof.
  intros Hv Hc. split.
  - unfold add_xor_clause_inter. unfold_M. rewrite Hc. simpl.
    by destruct rhs'.
  - intros a Ha.
    destruct (xor_cleaned_spec s lits [] rhs rhs' Hv Hc) as (_ & _ & H3).
    specialize (H3 a Ha). simpl in H3.
    destruct rhs', (xor_parity a lits), rhs; simpl in H3;
      try discriminate; split; congruence.
Qed.

End XorKeeps.

(** ** The bound on the length of a clause, through the outer API *)

Section TooLongOuter.
Context `{CO : Collab}.

Lemma never_throws_check_too_large_variable_number (lits : list Lit) :
  never_throws (check_too_large_variable_number lits).
Proof. induction lits as [|l lits IH]; simpl; avoid. Qed.

(** The variable check changes nothing. *)
Lemma check_too_large_variable_number_Ret (lits : list Lit) (s s' : Solver)
    (u : ()) :
  check_too_large_variable_number lits s = Ret u s' → s' = s.
Proof.
  induction lits as [|l lits IH]; simpl.
  - by intros [= _ <-].
  - rewrite mbind_get. repeat case_match; try discriminate. exact IH.
Qed.

(** [addClauseHelper] leaves as many literals as it was given. *)
Lemma addClauseHelper_update_length (ps : list Lit) :
  ∀ s ps' s',
    addClauseHelper_update ps s = Ret ps' s' → length ps' = length ps.
Proof.
  induction ps as [|l ps IH]; intros s ps' s'; simpl.
  - by intros [= <- _].
  - rewrite mbind_get. case_match; [discriminate|]. intros Hrun.
    apply mbind_Ret in Hrun as ([] & s1 & _ & Hrun).
    apply mbind_Ret in Hrun as (rest' & s2 & Hrest & [= <- _]).
    simpl. f_equal. by eapply IH.
Qed.

Lemma addClauseHelper_length (ps ps' : list Lit) (b : bool) (s s' : Solver) :
  addClauseHelper ps s = Ret (b, ps') s' → length ps' = length ps.
Proof.
  unfold addClauseHelper. rewrite mbind_get.
  destruct (negb (ok s)); [by intros [= _ <- _]|].
  case_match; [discriminate|]. intros Hrun.
  apply mbind_Ret in Hrun as (ps1 & s1 & Hupd & Hrun).
  apply addClauseHelper_update_length in Hupd.
  apply mbind_Ret in Hrun as (ps2 & s2 & [= <- <-] & Hrun).
  rewrite mbind_get in Hrun.
  apply mbind_Ret in Hrun as ([] & s3 & _ & Hrun).
  apply mbind_Ret in Hrun as (b' & s4 & _ & [= _ <- _]).
  unfold renumber_outer_to_inter_lits. by rewrite length_map.
Qed.

Lemma addClauseHelper_not_too_long (s : Solver) (ps : list Lit) :
  (N.of_nat (length ps) ≤ 2 ^ 28)%N →
  ∀ e s', addClauseHelper ps s ≠ Throw e s'.
Proof.
  intros Hlen. revert s. apply never_throws_spec.
  unfold addClauseHelper. avoid.
  all: try apply never_throws_addClauseHelper_update.
  all: try apply never_throws_addClauseHelper_uneliminate.
  match goal with
  | H : (_ <? _)%N = true |- _ => apply N.ltb_lt in H; lia
  end.
Qed.

(** The cleaning of an XOR leaves no more literals than it was given. *)
Lemma xor_pull_signs_length (lits : list Lit) :
  ∀ rhs, length (xor_pull_signs lits rhs).1 = length lits.
Proof.
  induction lits as [|l lits IH]; intros rhs; simpl; [done|].
  destruct (sign l).
  - specialize (IH (xorb rhs true)).
    destruct (xor_pull_signs lits (xorb rhs true)). simpl in *. by f_equal.
  - specialize (IH rhs). destruct (xor_pull_signs lits rhs). simpl in *.
    by f_equal.
Qed.

Lemma length_removelast_le {A} (l : list A) :
  length (removelast l) ≤ length l.
Proof.
  induction l as [|x l IH] using rev_ind; [done|].
  rewrite removelast_last, length_app. lia.
Qed.

Lemma xor_scan_length (a : list lbool) (rest : list Lit) :
  ∀ p kept rhs,
    length (xor_scan a p kept rhs rest).1 ≤ length kept + length rest.
Proof.
  induction rest as [|l rest IH]; intros p kept rhs; simpl; [lia|].
  repeat case_decide.
  all: (etrans; [apply IH|]); rewrite ?length_app; simpl.
  all: pose proof (length_removelast_le kept); lia.
Qed.

Lemma xor_cleaned_length (s : Solver) (lits : list Lit) (rhs : bool) :
  length (xor_cleaned s lits rhs).1 ≤ length lits.
Proof.
  unfold xor_cleaned.
  pose proof (xor_pull_signs_length lits rhs) as H1.
  destruct (xor_pull_signs lits rhs) as [ps rhs0]. simpl in H1.
  pose proof (xor_scan_length (assigns s) (std_sort ps) lit_Undef [] rhs0)
    as H2.
  rewrite (Permutation_length (std_sort_Permutation ps)) in H2.
  simpl in H2. lia.
Qed.

Lemma add_clause_outer_never_throws_below (s : Solver) (lits : list Lit)
    (red : bool) :
  (N.of_nat (length lits) ≤ 2 ^ 28)%N →
  ∀ e s', add_clause_outer lits red s ≠ Throw e s'.
Proof.
  intros Hlen e s'. unfold add_clause_outer. rewrite mbind_get.
  destruct (negb (ok s)); [done|].
  unfold mbind at 1, M_bind.
  destruct (check_too_large_variable_number lits s) as [[] s1|e1 s1|c|] eqn:E;
    try done.
  - unfold mbind, M_bind, gets. apply addClause_not_too_long.
    unfold back_number_from_outside_to_outer. by rewrite length_map.
  - by apply never_throws_spec in E;
      [|apply never_throws_check_too_large_variable_number].
Qed.

Lemma add_xor_clause_outer_never_throws_below (s : Solver) (vars : list N)
    (rhs : bool) :
  (N.of_nat (length vars) < 2 ^ 28)%N →
  ∀ e s', add_xor_clause_outer vars rhs s ≠ Throw e s'.
Proof.
  intros Hlen e s'. unfold add_xor_clause_outer. rewrite mbind_get.
  destruct (negb (ok s)); [done|]. cbv zeta.
  unfold mbind at 1, M_bind.
  destruct (check_too_large_variable_number _ s) as [[] s1|e1 s1|c|] eqn:E;
    try done.
  2:{ by apply never_throws_spec in E;
        [|apply never_throws_check_too_large_variable_number]. }
  unfold mbind at 1, M_bind, gets.
  unfold mbind at 1, M_bind.
  set (tmp := back_number_from_outside_to_outer s1 _).
  assert (Htmp : length tmp = length vars).
  { unfold tmp, back_number_from_outside_to_outer. by rewrite !length_map. }
  destruct (addClauseHelper tmp s1) as [[b ps] s2|e2 s2|c|] eqn:Eh; try done.
  2:{ apply addClauseHelper_not_too_long in Eh; [done|lia]. }
  apply addClauseHelper_length in Eh.
  unfold mbind, M_bind.
  destruct (add_xor_clause_inter ps rhs true false s2) as [b' s3|e3 s3|c|]
    eqn:Ex; try done.
  apply add_xor_clause_inter_never_throws_below in Ex; [done|].
  pose proof (xor_cleaned_length s2 ps rhs). lia.
Qed.

(** An XOR over one variable is cleaned to one literal at most. *)
Lemma xor_cleaned_one_variable (s : Solver) (lits : list Lit) (rhs : bool)
    (v : N) :
  v ≠ var_Undef →
  (∀ l, l ∈ lits → var l = v) →
  length (xor_cleaned s lits rhs).1 ≤ 1.
Proof.
  intros Hv Hlits.
  destruct (xor_cleaned s lits rhs) as [ps rhs'] eqn:E. simpl.
  destruct (xor_cleaned_spec s lits ps rhs rhs') as (Hsorted & Hps & _);
    [|done|].
  { intros l Hl. by rewrite (Hlits l Hl). }
  assert (Hvar : ∀ l, l ∈ ps → var l = v).
  { intros l Hl. destruct (Hps l Hl) as (_ & _ & l0 & Hl0 & <-).
    by apply Hlits. }
  destruct ps as [|a [|b ps]]; simpl; [lia|lia|].
  apply StronglySorted_inv in Hsorted as [_ Hab].
  apply Forall_cons in Hab as [Hab _]. unfold var_lt in Hab.
  rewrite (Hvar a), (Hvar b) in Hab by (repeat constructor). lia.
Qed.

(** C6, as the code has it. A refuted solver answers false to a clause and
    to an XOR whatever their length. A solver that is not refuted throws
    [TooLongClauseError], from the state it was called in, when
    [add_clause_outer] is given more than 2^28 literals (of declared
    variables, and with no clause blocked) and when [add_xor_clause_outer]
    is given more than 2^28 variables (all declared). Given fewer than 2^28
    literals or variables neither of them throws anything, in whatever
    state. *)
Theorem too_long_clause_bound (s : Solver) (lits : list Lit) (vars : list N)
    (red rhs : bool) :
  (ok s = false →
   add_clause_outer lits red s = Ret false s
   ∧ add_xor_clause_outer vars rhs s = Ret false s)
  ∧ (ok s = true →
     Forall (λ l, (var l < nVarsOutside s)%N ∧ (var l < var_Undef)%N) lits →
     perform_occur_based_simp (conf s) && getAnythingHasBeenBlocked s = false →
     (2 ^ 28 < N.of_nat (length lits))%N →
     add_clause_outer lits red s = Throw TooLongClauseError s)
  ∧ (ok s = true →
     Forall (λ v, (v < nVarsOutside s)%N ∧ (v < var_Undef)%N) vars →
     (2 ^ 28 < N.of_nat (length vars))%N →
     add_xor_clause_outer vars rhs s = Throw TooLongClauseError s)
  ∧ ((N.of_nat (length lits) < 2 ^ 28)%N →
     ∀ e s', add_clause_outer lits red s ≠ Throw e s')
  ∧ ((N.of_nat (length vars) < 2 ^ 28)%N →
     ∀ e s', add_xor_clause_outer vars rhs s ≠ Throw e s').
Proof.
  split; [|split; [|split; [|split]]].
  - intros Hok. split; [by apply add_clause_outer_refuted|].
    unfold add_xor_clause_outer. unfold_M. by rewrite Hok.
  - intros Hok Hvars Hblocked Hlen.
    rewrite add_clause_outer_admitted by done.
    unfold addClause, addClauseHelper. unfold_M.
    rewrite Hblocked, Hok. simpl.
    unfold back_number_from_outside_to_outer. rewrite length_map.
    apply N.ltb_lt in Hlen. by rewrite Hlen.
  - intros Hok Hvars Hlen.
    unfold add_xor_clause_outer. rewrite mbind_get, Hok. cbv zeta.
    cbn [negb]. unfold mbind at 1, M_bind.
    rewrite check_too_large_variable_number_ok.
    2:{ apply Forall_fmap. eapply Forall_impl; [exact Hvars|].
        intros v Hv. simpl. by rewrite var_mkLit. }
    unfold mbind at 1, M_bind, gets. unfold mbind at 1, M_bind.
    unfold addClauseHelper. rewrite mbind_get, Hok. simpl.
    unfold back_number_from_outside_to_outer. rewrite !length_map.
    apply N.ltb_lt in Hlen. by rewrite Hlen.
  - intros Hlen. apply add_clause_outer_never_throws_below. lia.
  - apply add_xor_clause_outer_never_throws_below.
Qed.

End TooLongOuter.

(** ** What a cut of an XOR says *)

Section CutParity.
Context `{CO : Collab}.

Lemma num_bits_set_shift (i : N) (m n : nat) :
  length (filter (λ k, N.testbit i (N.of_nat k) = true) (seq (S m) n))
  = length (filter (λ k, N.testbit (N.div2 i) (N.of_nat k) = true) (seq m n)).
Proof.
  revert m. induction n as [|n IH]; intros m; cbn [seq]; [done|].
  rewrite !filter_cons.
  assert (E : N.testbit (N.div2 i) (N.of_nat m) = N.testbit i (N.of_nat (S m)))
    by (by rewrite N.testbit_div2, <- Nat2N.inj_succ).
  rewrite E. destruct (decide _); simpl; by rewrite (IH (S m)).
Qed.

Lemma num_bits_set_S (i : N) (n : nat) :
  num_bits_set i (S n)
  = (if N.testbit i 0 then 1 else 0) + num_bits_set (N.div2 i) n.
Proof.
  unfold num_bits_set. cbn [seq]. rewrite filter_cons.
  change (N.of_nat 0) with 0%N.
  destruct (N.testbit i 0); [rewrite decide_True by done
                            |rewrite decide_False by done];
    simpl; by rewrite num_bits_set_shift.
Qed.

Lemma xor_combination_cons (l : Lit) (lits : list Lit) (i : N) :
  xor_combination (l :: lits) i
  = lit_xor l (N.testbit i 0) :: xor_combination lits (N.div2 i).
Proof.
  unfold xor_combination. rewrite imap_cons. f_equal.
  apply imap_ext. intros k x _. simpl.
  by rewrite N.testbit_div2, <- Nat2N.inj_succ.
Qed.

(** A combination that leaves no literal true flips the true ones. *)
Lemma falsified_combination (a : N → bool) (lits : list Lit) :
  ∀ i, clause_true a (xor_combination lits i) = false →
       Nat.odd (num_bits_set i (length lits)) = xor_parity a lits.
Proof.
  induction lits as [|l lits IH]; intros i; [done|].
  rewrite xor_combination_cons. simpl.
  intros [Hl Hrest]%orb_false_iff. rewrite num_bits_set_S.
  rewrite lit_true_lit_xor in Hl. rewrite <- (IH _ Hrest).
  destruct (N.testbit i 0), (lit_true a l); simpl in *; try done.
  rewrite Nat.odd_succ, <- Nat.negb_odd. by destruct (Nat.odd _).
Qed.

Lemma combination_of_cons (b : bool) (bs : list bool) :
  N.testbit (combination_of (b :: bs)) 0 = b
  ∧ N.div2 (combination_of (b :: bs)) = combination_of bs.
Proof.
  cbn [combination_of foldr]. split.
  - apply N.add_b2n_double_bit0.
  - rewrite N.div2_div. apply N.add_b2n_double_div2.
Qed.

Lemma combination_of_lt (bs : list bool) :
  (combination_of bs < 2 ^ N.of_nat (length bs))%N.
Proof.
  induction bs as [|b bs IH]; simpl length; [done|].
  rewrite Nat2N.inj_succ, N.pow_succ_r'. simpl combination_of.
  destruct b; simpl N.b2n; lia.
Qed.

(** The combination that flips the true literals leaves none true. *)
Lemma combination_of_falsifies (a : N → bool) (lits : list Lit) :
  clause_true a (xor_combination lits (combination_of (map (lit_true a) lits)))
  = false.
Proof.
  induction lits as [|l lits IH]; [done|].
  rewrite map_cons, xor_combination_cons.
  destruct (combination_of_cons (lit_true a l) (map (lit_true a) lits))
    as [-> ->].
  simpl. rewrite IH, lit_true_lit_xor. by destruct (lit_true a l).
Qed.

Lemma cleaned_cut_loop_ingest (lits : list Lit) (attach addDrat : bool)
    (combs : list N) (s : Solver) :
  cleaned_cut_loop lits attach addDrat combs s
  = ingest_until_refuted
      (map (xor_combination lits)
         (filter (λ i, Nat.even (num_bits_set i (length lits)) = false) combs))
      attach addDrat s.
Proof.
  revert s. induction combs as [|i combs IH]; intros s; [done|].
  simpl. rewrite filter_cons.
  destruct (Nat.even (num_bits_set i (length lits))) eqn:E.
  - rewrite decide_False by done. apply IH.
  - rewrite decide_True by done. simpl.
    apply mbind_cong; [done|]. intros cl s1 _.
    apply mbind_cong; [done|]. intros [] s2 _.
    rewrite !mbind_get. destruct (negb (ok s2)); [done|]. apply IH.
Qed.

Lemma elem_of_cut_clauses (lits c : list Lit) :
  c ∈ cut_clauses lits ↔
    ∃ i, (i < 2 ^ N.of_nat (length lits))%N
         ∧ Nat.odd (num_bits_set i (length lits)) = true
         ∧ c = xor_combination lits i.
Proof.
  unfold cut_clauses. rewrite list_elem_of_fmap.
  setoid_rewrite list_elem_of_filter. setoid_rewrite list_elem_of_fmap.
  setoid_rewrite elem_of_seq. split.
  - intros (i & -> & He & k & -> & _ & Hk). exists (N.of_nat k).
    split; [|split; [|done]].
    + simpl in Hk. rewrite <- (Nat2N.inj_pow 2). lia.
    + by rewrite <- Nat.negb_even, He.
  - intros (i & Hi & Ho & ->). exists i. split; [done|]. split.
    + by rewrite <- Nat.negb_odd, Ho.
    + exists (N.to_nat i). split; [by rewrite N2Nat.id|].
      split; [lia|]. simpl. rewrite <- (Nat2N.inj_pow 2) in Hi. lia.
Qed.

(** X6. A cut of fewer than 64 literals is expanded into the clauses with
    an odd number of flipped literals, handed to [add_clause_int] one after
    the other until [ok] turns false; and an assignment satisfies all of
    these clauses exactly when an even number of the literals of the cut is
    true under it. *)
Theorem cut_encodes_even_parity (lits : list Lit) (attach addDrat : bool) :
  length lits < 64 →
  (∀ s, add_xor_clause_inter_cleaned_cut lits attach addDrat s
        = ingest_until_refuted (cut_clauses lits) attach addDrat s)
  ∧ (∀ a, (∀ c, c ∈ cut_clauses lits → clause_true a c = true)
          ↔ xor_parity a lits = false).
Proof.
  intros _. split.
  { intros s. apply cleaned_cut_loop_ingest. }
  intros a. split.
  - intros Hall. destruct (xor_parity a lits) eqn:Hpar; [|done].
    pose proof (combination_of_falsifies a lits) as Hfalse.
    rewrite Hall in Hfalse; [done|].
    apply elem_of_cut_clauses. eexists. split; [|split; [|done]].
    + pose proof (combination_of_lt (map (lit_true a) lits)) as Hlt.
      by rewrite length_map in Hlt.
    + by rewrite (falsified_combination a lits _ Hfalse).
  - intros Hpar c (i & _ & Ho & ->)%elem_of_cut_clauses.
    destruct (clause_true a (xor_combination lits i)) eqn:E; [done|].
    rewrite (falsified_combination a lits i E) in Ho. congruence.
Qed.

End CutParity.

(** ** Variables that were not declared *)

Section Undeclared.
Context `{CO : Collab}.

Lemma check_too_large_variable_number_exit (s : Solver) (lits : list Lit) :
  Exists (λ l, (nVarsOutside s ≤ var l)%N ∨ (var_Undef ≤ var l)%N) lits →
  check_too_large_variable_number lits s = Exit (-1).
Proof.
  induction lits as [|l lits IH]; intros H; [by apply Exists_nil in H|].
  simpl. unfold mbind, M_bind, get.
  destruct (N.leb_spec (nVarsOutside s) (var l)) as [|H1]; [done|].
  destruct (N.leb_spec var_Undef (var l)) as [|H2]; [done|].
  apply IH. apply Exists_cons in H as [[|]|]; [lia|lia|done].
Qed.

(** X7. On a solver that is not refuted, a clause or an XOR that names a
    variable which was not declared (not below [nVarsOutside()]) or is not
    below [var_Undef] ends the program with exit code -1, before anything
    is changed. *)
Theorem undeclared_variable_exits (s : Solver) (lits : list Lit)
    (vars : list N) (red rhs : bool) :
  ok s = true →
  (Exists (λ l, (nVarsOutside s ≤ var l)%N ∨ (var_Undef ≤ var l)%N) lits →
   add_clause_outer lits red s = Exit (-1))
  ∧ (Exists (λ v, (nVarsOutside s ≤ v)%N ∨ (var_Undef ≤ v)%N) vars →
     add_xor_clause_outer vars rhs s = Exit (-1)).
Proof.
  intros Hok. split; intros H.
  - unfold add_clause_outer. unfold mbind at 1, M_bind, get. rewrite Hok.
    simpl. unfold mbind at 1, M_bind.
    by rewrite check_too_large_variable_number_exit.
  - unfold add_xor_clause_outer. unfold mbind at 1, M_bind, get. rewrite Hok.
    simpl. unfold mbind at 1, M_bind.
    rewrite check_too_large_variable_number_exit; [done|].
    apply Exists_fmap. eapply Exists_impl; [exact H|]. simpl.
    intros v Hv. by rewrite var_mkLit.
Qed.

End Undeclared.

(** ** The tokens of a strategy *)

Section Tokens.
Context `{CO : Collab}.

Lemma dispatch_token_unknown (token occ : string) (s : Solver) :
  token ∉ known_tokens → substr03 token ≠ "occ" →
  dispatch_token token occ s = Exit (-1).
Proof.
  intros Hk Hocc. unfold known_tokens in Hk.
  rewrite !not_elem_of_cons in Hk.
  destruct Hk as (?&?&?&?&?&?&?&?&?&?&?&?&?&?&?&_).
  unfold dispatch_token. unfold mbind at 1, M_bind, get.
  rewrite !bool_decide_eq_false_2 by done. done.
Qed.

Lemma dispatch_token_known (token occ : string) (s : Solver) (c : Z) :
  token ∈ known_tokens ∨ substr03 token = "occ" →
  dispatch_token token occ s ≠ Exit c.
Proof.
  intros Hk. unfold dispatch_token. unfold_M.
  repeat (case_bool_decide; simpl;
          [repeat (match goal with |- context [if ?b then _ else _] =>
                     destruct b end); simpl; discriminate|]).
  destruct (bool_decide (token = "renumber")
            || bool_decide (token = "must-renumber")) eqn:E.
  { destruct (doRenumberVars _); [|discriminate].
    destruct (doCache _); [|discriminate].
    destruct (implCache_clean_to_fixpoint s) as [[] ?]; discriminate. }
  apply orb_false_iff in E as [E1%bool_decide_eq_false E2%bool_decide_eq_false].
  case_bool_decide; [discriminate|]. case_bool_decide; [discriminate|].
  destruct Hk as [Hk|Hk]; [|done].
  unfold known_tokens in Hk. rewrite !elem_of_cons in Hk.
  rewrite elem_of_nil in Hk.
  repeat (destruct Hk as [Hk|Hk]; [congruence|]). done.
Qed.

(** X8. A token that is neither known by name nor begins with [occ] ends
    the program with exit code -1 when its turn comes: here it is the first
    token of the strategy, met with the budget not exhausted. A token that
    is known by name or begins with [occ] never ends the program. *)
Theorem unknown_token_exits (startup : bool) (strategy tok : string)
    (rest : list string) (s : Solver) :
  tokens_of strategy = tok :: rest →
  budget_exhausted s = false →
  (tolower (trim tok) ∉ known_tokens →
   substr03 (tolower (trim tok)) ≠ "occ" →
   execute_inprocess_strategy startup strategy s = Exit (-1))
  ∧ (∀ token occ s0 c,
       token ∈ known_tokens ∨ substr03 token = "occ" →
       dispatch_token token occ s0 ≠ Exit c).
Proof.
  intros Htok Hb. split.
  - intros Hk Hocc. unfold execute_inprocess_strategy. rewrite Htok.
    simpl. rewrite mbind_get, Hb. simpl.
    unfold mbind at 1, M_bind, mret, M_ret.
    unfold mbind at 1, M_bind. by rewrite dispatch_token_unknown.
  - intros token occ s0 c. apply dispatch_token_known.
Qed.

Lemma drop_spaces_blank (l : list ascii) :
  Forall (λ c, is_space c = true) l → drop_spaces l = [].
Proof.
  induction 1 as [|c l Hc _ IH]; simpl; [done|]. by rewrite Hc.
Qed.

Lemma trim_blank (l : list ascii) :
  Forall (λ c, is_space c = true) l → trim (string_of_list_ascii l) = "".
Proof.
  intros H. unfold trim. rewrite list_ascii_of_string_of_list_ascii.
  rewrite (drop_spaces_blank l) by done. reflexivity.
Qed.

Lemma getline_tokens_blank (l : list ascii) :
  ∀ cur,
    Forall (λ c, blank_or_comma c = true) l →
    Forall (λ c, is_space c = true) cur →
    Forall (λ t, trim t = "") (getline_tokens cur l).
Proof.
  induction l as [|c l IH]; intros cur Hl Hcur; simpl.
  - destruct cur; [constructor|]. repeat constructor.
    apply trim_blank. by apply Forall_rev.
  - apply Forall_cons in Hl as [Hc Hl].
    destruct (Ascii.eqb c ",") eqn:E.
    + constructor; [|by apply IH]. apply trim_blank. by apply Forall_rev.
    + apply IH; [done|]. constructor; [|done].
      unfold blank_or_comma in Hc. rewrite E in Hc.
      by rewrite orb_false_r in Hc.
Qed.

Lemma dispatch_token_empty (occ : string) (s : Solver) :
  dispatch_token "" occ s = Ret (Continue occ) s.
Proof. reflexivity. Qed.

Lemma blank_tokens_do_nothing (startup : bool) (tokens : list string) :
  Forall (λ t, trim t = "") tokens →
  ∀ s, execute_tokens_with flush_occ dispatch_token startup tokens "" s
       = Ret (ok s) s.
Proof.
  induction 1 as [|t tokens Ht _ IH]; intros s; [done|].
  simpl. rewrite mbind_get. destruct (budget_exhausted s); [done|].
  rewrite Ht. simpl. unfold mbind at 1, M_bind, mret, M_ret.
  unfold mbind at 1, M_bind. change (tolower "") with "".
  rewrite dispatch_token_empty. cbv beta iota. unfold mbind, get.
  destruct (ok s) eqn:Hok; simpl; [|done]. rewrite IH. by rewrite Hok.
Qed.

(** X9. A strategy that names no token (it holds nothing but white space
    and commas; the empty strategy is one) changes nothing:
    [execute_inprocess_strategy] returns [ok] from the state it was called
    in. *)
Theorem blank_strategy_does_nothing (startup : bool) (strategy : string)
    (s : Solver) :
  Forall (λ c, blank_or_comma c = true) (list_ascii_of_string strategy) →
  execute_inprocess_strategy startup strategy s = Ret (ok s) s.
Proof.
  intros H. unfold execute_inprocess_strategy.
  apply blank_tokens_do_nothing. unfold tokens_of.
  rewrite list_ascii_of_string_app. apply getline_tokens_blank; [|done].
  apply Forall_app. split; [done|]. by repeat constructor.
Qed.

End Tokens.

(** ** The burst length and the start of [solve] *)

Section DriverKeeps.
Context `{CO : Collab}.

(** The searcher is consulted in states with the burst length of the
    schedule only: 0 in the first iteration, the caller's afterwards. *)
Lemma iterate_loop_with_burst search1 search2 (backup : N) :
  (∀ n it s,
     burst_search_len (conf s) = (if (it =? 1)%N then 0%N else backup) →
     search1 n it s = search2 n it s) →
  ∀ fuel iteration_num status s,
    (iteration_num + N.of_nat fuel < 2 ^ 64)%N →
    (iteration_num = 0%N → burst_search_len (conf s) = 0%N) →
    iterate_loop_with search1 fuel backup iteration_num status s
    = iterate_loop_with search2 fuel backup iteration_num status s.
Proof.
  intros Hsearch.
  induction fuel as [|fuel IH]; intros it status s Hfuel Hfirst; simpl;
    [done|].
  rewrite !mbind_get. destruct (negb (search_may_continue s status)); [done|].
  assert (Hit : u64 (it + 1) = (it + 1)%N).
  { unfold u64. apply N.mod_small. lia. }
  rewrite Hit.
  set (s1 := if (2 <=? it + 1)%N then set_burst_search_len backup s else s).
  assert (Hwhen : ∀ B (k : unit → M B),
            (when (2 <=? it + 1)%N (modify (set_burst_search_len backup))
             ≫= k) s = k tt s1).
  { intros B k. subst s1. by destruct (2 <=? it + 1)%N. }
  rewrite !Hwhen. rewrite !mbind_get.
  destruct (Z.leb_spec (calc_num_confl_to_do_this_iter s1 (it + 1)) 0);
    [done|].
  assert (Hburst : burst_search_len (conf s1)
                   = if (it + 1 =? 1)%N then 0%N else backup).
  { subst s1. destruct (N.leb_spec 2 (it + 1)) as [Hge|Hlt].
    - destruct (N.eqb_spec (it + 1) 1); [lia|done].
    - destruct (N.eqb_spec (it + 1) 1); [|lia]. apply Hfirst. lia. }
  apply mbind_cong.
  { unfold call. by rewrite (Hsearch _ _ _ Hburst). }
  intros status1 s2 _.
  do 5 (apply mbind_cong; [done|]; intros [] ? _).
  destruct (negb (bool_decide (status1 = l_Undef))); [done|].
  rewrite !mbind_get. destruct (over_the_limit _); [done|].
  apply mbind_cong; [done|]. intros status2 s3 _. apply IH; lia.
Qed.

(** X10. [iterate_until_solved] hands the burst length back: when it
    returns, [conf.burst_search_len] is what it was at the call, whatever
    the searcher and the simplifier did to it. In a run of fewer than 2^64
    iterations the searcher is only ever consulted with the burst length 0
    in the first iteration and with the caller's in every later one. *)
Theorem burst_search_len_is_handed_back
    (search : Z → N → Solver → lbool * Solver) (fuel : nat) (s : Solver) :
  (N.of_nat fuel < 2 ^ 64)%N →
  (∀ status s', iterate_until_solved_with search fuel s = Ret status s' →
                burst_search_len (conf s') = burst_search_len (conf s))
  ∧ (∀ search',
       (∀ n it s1,
          burst_search_len (conf s1)
          = (if (it =? 1)%N then 0%N else burst_search_len (conf s)) →
          search' n it s1 = search n it s1) →
       iterate_until_solved_with search' fuel s
       = iterate_until_solved_with search fuel s).
Proof.
  intros Hfuel. split.
  - intros status s'. unfold iterate_until_solved_with.
    rewrite mbind_get. intros H.
    apply mbind_Ret in H as ([] & ? & _ & H).
    apply mbind_Ret in H as (st & ? & _ & H).
    apply mbind_Ret in H as ([] & ? & _ & H).
    apply mbind_Ret in H as ([] & s1 & [= <-] & [= _ <-]). done.
  - intros search' Hs. unfold iterate_until_solved_with.
    rewrite !mbind_get. apply mbind_cong; [done|].
    intros [] s0 [= <-]. apply mbind_cong; [|done].
    apply iterate_loop_with_burst; [done|lia|done].
Qed.

(** X11. [solve] checks the configuration before anything else: with a
    negative [maxConfl] or a [shortTermHistorySize] that is not positive
    the program ends with exit code -1, whether the solver is refuted or
    not. With a valid configuration a refuted solver answers [l_False]
    whatever the fuel, that is, without a search. (The clearing of the
    conflict and the setting of the restart parameters are taken to leave
    [ok] and the configuration alone.) *)
Theorem solve_starts_with_the_configuration (fuel : nat) (s : Solver) :
  (∀ s0, ok (conflict_clear s0) = ok s0 ∧ conf (conflict_clear s0) = conf s0) →
  (∀ s0, ok (Searcher_set_restart_params s0) = ok s0) →
  ((maxConfl (conf s) < 0)%Z ∨ (shortTermHistorySize (conf s) ≤ 0)%Z →
   solve fuel s = Exit (-1))
  ∧ ((0 ≤ maxConfl (conf s))%Z → (0 < shortTermHistorySize (conf s))%Z →
     ok s = false → ∃ s', solve fuel s = Ret l_False s').
Proof.
  intros Hcc Hrp.
  set (s1 := conflict_clear
               (set_num_solve_calls
                  (u64 (num_solve_calls (solveStats s) + 1)) s)).
  assert (Hconf : conf s1 = conf s) by (subst s1; by rewrite (proj2 (Hcc _))).
  assert (Hok : ok s1 = ok s) by (subst s1; by rewrite (proj1 (Hcc _))).
  split.
  - intros Hbad. unfold solve. unfold mbind at 1 2, M_bind, modify.
    fold s1. unfold mbind at 1, M_bind, check_config_parameters.
    rewrite mbind_get, Hconf.
    destruct (Z.ltb_spec (maxConfl (conf s)) 0) as [|H1]; [done|].
    destruct (Z.leb_spec (shortTermHistorySize (conf s)) 0) as [|H2];
      [done|lia].
  - intros H1 H2 Hrefuted. unfold solve. unfold mbind at 1 2, M_bind, modify.
    fold s1. unfold mbind at 1, M_bind, check_config_parameters.
    rewrite mbind_get, Hconf.
    destruct (Z.ltb_spec (maxConfl (conf s)) 0) as [|_]; [lia|].
    destruct (Z.leb_spec (shortTermHistorySize (conf s)) 0) as [|_]; [lia|].
    unfold mret at 1, M_ret. unfold mbind at 1 2, M_bind, modify.
    unfold mbind at 1, M_bind, solve_until_end. rewrite mbind_get.
    cbn [ok set_conf]. rewrite Hrp, Hok, Hrefuted. simpl.
    unfold_M. destruct (preprocess _ =? 1)%N; eauto.
Qed.

End DriverKeeps.

(** ** The renumbering maps and their test *)

Section RenumberKeeps.
Context `{PF : Platform}.

Lemma elem_of_new_order (s : Solver) (x : nat) :
  (nVars s ≤ nVarsOuter s)%N →
  x ∈ new_order s ↔ x < N.to_nat (nVarsOuter s).
Proof.
  intros Hn. unfold new_order.
  rewrite !elem_of_app, !list_elem_of_filter, !elem_of_seq.
  destruct (var_inactive s x); intuition lia.
Qed.

(** X12. The two maps that [calculate_interToOuter_and_outerToInter]
    leaves are permutations of the outer variables, and each is the inverse
    of the other: [outerToInter[x] = k] exactly when [interToOuter[k] = x]. *)
Theorem renumbering_maps_are_inverse (s : Solver) (o0 i0 : list nat)
    (outerToInter' interToOuter' : list nat) (numEffectiveVars : nat) :
  (nVars s ≤ nVarsOuter s)%N →
  length o0 = N.to_nat (nVarsOuter s) →
  length i0 = N.to_nat (nVarsOuter s) →
  calculate_interToOuter_and_outerToInter s o0 i0
  = (outerToInter', interToOuter', numEffectiveVars) →
  interToOuter' ≡ₚ seq 0 (N.to_nat (nVarsOuter s))
  ∧ outerToInter' ≡ₚ seq 0 (N.to_nat (nVarsOuter s))
  ∧ (∀ x k, outerToInter' !! x = Some k ↔ interToOuter' !! k = Some x).
Proof.
  intros Hn Ho0 Hi0 Hcalc.
  rewrite calculate_is_placing in Hcalc. simpl in Hcalc.
  destruct (foldl_renumber_place (new_order s)
              {| outerToInter := o0; interToOuter := i0; at_ := 0 |})
    as (_ & Hlen & Hi & Hinv & _).
  { apply new_order_NoDup. }
  { intros x Hx. simpl. rewrite Ho0. by apply new_order_bound. }
  { simpl. rewrite new_order_length, Hi0 by done. lia. }
  simpl in *. injection Hcalc as <- <- _.
  rewrite new_order_length, <- Hi0, drop_all, app_nil_r in Hi by done.
  set (o' := outerToInter _) in *. set (i' := interToOuter _) in *.
  clearbody o' i'. subst i'.
  assert (Hiff : ∀ x k, o' !! x = Some k ↔ new_order s !! k = Some x).
  { intros x k. split; [|apply Hinv]. intros Hx.
    assert (x ∈ new_order s) as [k0 Hk0]%list_elem_of_lookup.
    { apply elem_of_new_order; [done|]. apply lookup_lt_Some in Hx.
      by rewrite Hlen, Ho0 in Hx. }
    pose proof (Hinv _ _ Hk0) as Hx'. by simplify_eq. }
  split; [|split; [|done]].
  - apply NoDup_Permutation; [apply new_order_NoDup|apply NoDup_seq|].
    intros x. rewrite elem_of_new_order, elem_of_seq by done. lia.
  - apply NoDup_Permutation; [|apply NoDup_seq|].
    + apply NoDup_alt. intros a b k Ha%Hiff Hb%Hiff. by simplify_eq.
    + intros k. rewrite elem_of_seq, list_elem_of_lookup. split.
      * intros [x Hx%Hiff]. apply lookup_lt_Some in Hx.
        rewrite new_order_length in Hx by done. lia.
      * intros [_ Hk]. simpl in Hk.
        destruct (lookup_lt_is_Some_2 (new_order s) k) as [x Hx].
        { by rewrite new_order_length. }
        exists x. by apply Hiff.
Qed.

Lemma test_renumbering_loop_spec (s : Solver) (l : list nat) :
  ∀ u p,
    test_renumbering_loop s l u p = true ↔
      p = true
      ∨ ∃ k j, l !! k = Some j ∧ var_inactive s j = false
               ∧ (u = true
                  ∨ ∃ k' i, k' < k ∧ l !! k' = Some i
                            ∧ var_inactive s i = true).
Proof.
  induction l as [|i l IH]; intros u p; simpl.
  { split; [by left|]. intros [|(k & j & Hk & _)]; done. }
  rewrite IH. split.
  - intros [Hp|(k & j & Hk & Hj & Hu)].
    + apply orb_true_iff in Hp as [Hp|[Hi Hu]%andb_true_iff]; [by left|].
      right. exists 0, i. split; [done|].
      apply negb_true_iff in Hi. split; [done|]. left.
      rewrite Hi in Hu. by rewrite orb_false_r in Hu.
    + right. exists (S k), j. split; [done|]. split; [done|].
      destruct Hu as [Hu|(k' & i0 & Hlt & Hk' & Hi0)].
      * apply orb_true_iff in Hu as [Hu|Hi]; [by left|].
        right. exists 0, i. split; [lia|done].
      * right. exists (S k'), i0. split; [lia|done].
  - intros [->|(k & j & Hk & Hj & Hu)]; [by left|].
    destruct k as [|k]; simpl in Hk.
    + injection Hk as ->. left. rewrite Hj. simpl.
      destruct Hu as [->|(k' & _ & Hlt & _)]; [|lia].
      by rewrite orb_true_r.
    + right. exists k, j. split; [done|]. split; [done|].
      destruct Hu as [->|(k' & i0 & Hlt & Hk' & Hi0)]; [by left|].
      destruct k' as [|k']; simpl in Hk'.
      * injection Hk' as ->. left. rewrite Hi0. by rewrite orb_true_r.
      * right. exists k', i0. split; [lia|done].
Qed.

(** X13. [test_renumbering] passes exactly when the inactive variables
    (assigned, eliminated, replaced or decomposed) come last: no variable
    below [nVars()] that follows an inactive one is active. *)
Theorem test_renumbering_passes_iff (s : Solver) :
  test_renumbering s = true ↔
    ∀ i j, i < j < N.to_nat (nVars s) →
           var_inactive s i = true → var_inactive s j = true.
Proof.
  unfold test_renumbering. rewrite negb_true_iff.
  rewrite <- not_true_iff_false, test_renumbering_loop_spec. split.
  - intros Hno i j Hij Hi. destruct (var_inactive s j) eqn:Hj; [done|].
    exfalso. apply Hno. right. exists j, j.
    split; [by apply lookup_seq_lt; lia|]. split; [done|]. right.
    exists i, i. split; [lia|]. split; [|done]. apply lookup_seq_lt. lia.
  - intros Hall [|(k & j & Hk & Hj & [|(k' & i & Hlt & Hk' & Hi)])];
      [done|done|].
    apply lookup_seq in Hk as [-> Hk]. apply lookup_seq in Hk' as [-> Hk'].
    simpl in *. rewrite (Hall k' k) in Hj; [done|lia|done].
Qed.

End RenumberKeeps.

(** ** The state [renumber_variables] leaves *)

Section RenumberVariables.
Context `{CO : Collab} {RN : Renumberer}.

(** A state of which exactly the variables below [num] are active passes
    [test_renumbering]. *)
Lemma dense_prefix_passes (s : Solver) (num : nat) :
  (∀ k, k < N.to_nat (nVars s) → var_inactive s k = false ↔ k < num) →
  test_renumbering s = true.
Proof.
  intros Hdense. unfold test_renumbering. apply negb_true_iff.
  apply not_true_is_false. intros Hloop.
  apply test_renumbering_loop_spec in Hloop
    as [?|(k & j & Hk & Hj & [?|(k' & i & Hlt & Hk' & Hi)])]; try done.
  apply lookup_seq in Hk as [-> Hk]. apply lookup_seq in Hk' as [-> Hk'].
  simpl in *. apply Hdense in Hj; [|done].
  assert (¬ k' < num); [|lia].
  intros Hlt'. apply Hdense in Hlt'; [|done]. congruence.
Qed.

Lemma renumber_clauses_keeps (o : list nat) :
  keeps_variables (renumber_clauses o).
Proof. by intros s. Qed.

Lemma renumber_xor_clauses_keeps (o : list nat) :
  keeps_variables (renumber_xor_clauses o).
Proof. by intros s. Qed.

(** The rewriting moves the variables when the [updateVars] of [CNF],
    [PropEngine] and [Searcher], run one after the other, do, and the other
    updates leave them where they are. *)
Lemma renumber_rewrite_moves (o i i2 : list nat) (num : nat) :
  moves_variables i
    (λ s, Searcher_updateVars o i
            (PropEngine_updateVars o i i2 (CNF_updateVars o i s))) →
  keeps_variables (stamp_updateVars o i2) →
  keeps_variables (varReplacer_updateVars o i) →
  keeps_variables (implCache_updateVars o i2 num) →
  keeps_variables (datasync_updateVars o i) →
  moves_variables i (renumber_rewrite o i i2 num).
Proof.
  intros Hbase Hstamp Hrepl Hcache Hsync s.
  unfold renumber_rewrite.
  set (s1 := renumber_clauses o s).
  set (s2 := CNF_updateVars o i s1).
  set (s3 := PropEngine_updateVars o i i2 s2).
  set (s4 := Searcher_updateVars o i s3).
  set (s5 := if doStamp (conf s4) then stamp_updateVars o i2 s4 else s4).
  set (s6 := renumber_xor_clauses o s5).
  set (s7 := varReplacer_updateVars o i s6).
  set (s8 := if doCache (conf s7) then implCache_updateVars o i2 num s7
             else s7).
  cbv zeta.
  destruct (renumber_clauses_keeps o s) as [N1 V1].
  destruct (Hbase s1) as [N4 V4].
  assert (nVars s5 = nVars s4 ∧ ∀ k, var_inactive s5 k = var_inactive s4 k)
    as [N5 V5].
  { unfold s5. destruct (doStamp (conf s4)); [apply Hstamp|done]. }
  destruct (renumber_xor_clauses_keeps o s5) as [N6 V6].
  destruct (Hrepl s6) as [N7 V7].
  assert (nVars s8 = nVars s7 ∧ ∀ k, var_inactive s8 k = var_inactive s7 k)
    as [N8 V8].
  { unfold s8. destruct (doCache (conf s7)); [apply Hcache|done]. }
  destruct (Hsync s8) as [N9 V9].
  fold s1 s2 s3 s4 s5 s6 s7 s8 in N1, V1, N4, V4, N6, V6, N7, V7, N9, V9
    |- *.
  split.
  - by rewrite N9, N8, N7, N6, N5, N4, N1.
  - intros k x Hk. rewrite V9, V8, V7, V6, V5, (V4 k x Hk), V1. done.
Qed.

(** [save_on_var_memory] sets [nVars()] and leaves the variables below it
    as they are, when its collaborators do. *)
Lemma save_on_var_memory_keeps (m : N) (s : Solver) :
  keeps_variables_below Searcher_save_on_var_memory →
  keeps_variables_below varReplacer_save_on_var_memory →
  keeps_variables_below occsimplifier_save_on_var_memory →
  keeps_variables_below compHandler_save_on_var_memory →
  keeps_variables_below datasync_save_on_var_memory →
  nVars (save_on_var_memory m s) = m
  ∧ ∀ k, k < N.to_nat m →
         var_inactive (save_on_var_memory m s) k = var_inactive s k.
Proof.
  intros Hsearch Hrepl Hocc Hcomp Hsync. unfold save_on_var_memory.
  set (s1 := set_nVars m s).
  set (s2 := Searcher_save_on_var_memory s1).
  set (s3 := varReplacer_save_on_var_memory s2).
  set (s4 := if occsimplifier s3 then occsimplifier_save_on_var_memory s3
             else s3).
  set (s5 := if compHandler s4 then compHandler_save_on_var_memory s4
             else s4).
  set (s6 := datasync_save_on_var_memory s5).
  cbv zeta.
  destruct (Hsearch s1) as [N2 V2]. destruct (Hrepl s2) as [N3 V3].
  assert (nVars s4 = nVars s3
          ∧ ∀ k, k < N.to_nat (nVars s3) →
                 var_inactive s4 k = var_inactive s3 k) as [N4 V4].
  { unfold s4. destruct (occsimplifier s3); [apply Hocc|done]. }
  assert (nVars s5 = nVars s4
          ∧ ∀ k, k < N.to_nat (nVars s4) →
                 var_inactive s5 k = var_inactive s4 k) as [N5 V5].
  { unfold s5. destruct (compHandler s4); [apply Hcomp|done]. }
  destruct (Hsync s5) as [N6 V6].
  fold s1 s2 s3 s4 s5 s6 in N2, V2, N3, V3, N6, V6 |- *.
  assert (E1 : nVars s1 = m) by done.
  assert (E2 : nVars s2 = m) by congruence.
  assert (E3 : nVars s3 = m) by congruence.
  assert (E4 : nVars s4 = m) by congruence.
  assert (E5 : nVars s5 = m) by congruence.
  split.
  - change (nVars s6 = m). congruence.
  - intros k Hk.
    change (var_inactive s6 k = var_inactive s1 k).
    rewrite V6, V5, V4, V3, V2 by (rewrite ?E1, ?E2, ?E3, ?E4, ?E5; done).
    done.
Qed.

(** C8, as the code has it. [renumber_variables] returns at once, leaving
    the state as it is, when [nVars()] is 0, and when it is not asked to
    renumber in any case and [calc_renumber_saving()] is below 0.2.
    Otherwise it computes, on the state the clause cleaner leaves (in which
    [nVars()] is at most [nVarsOuter()], and this below 2^32), the map that
    lists the active variables (value undefined and not removed) first in
    their old order, then the inactive ones, then the identity up to
    [nVarsOuter()], and its inverse; and after it has completed exactly the
    indices below [numEffectiveVars] hold an active variable, so that
    [test_renumbering] passes. The [updateVars] of the solver's base
    classes [CNF], [PropEngine] and [Searcher], run one after the other, are
    taken to move every variable to its new index, and the updates of the
    other collaborators and every [save_on_var_memory] to leave the
    variables where they are. *)
Theorem renumbering_is_dense (s : Solver) (must_renumber : bool) :
  let s1 := remove_and_clean_all s in
  let n := N.to_nat (nVars s1) in
  let outer := N.to_nat (nVarsOuter s1) in
  let active := filter (λ i, var_inactive s1 i = false) (seq 0 n) in
  let inactive := filter (λ i, var_inactive s1 i = true) (seq 0 n) in
  ((nVars s = 0)%N
   ∨ (must_renumber = false
      ∧ double_ltb (calc_renumber_saving s) double_lit_0_2 = true) →
   Solver_renumber_variables must_renumber s = s)
  ∧ ((nVars s ≠ 0)%N →
     must_renumber = true
     ∨ double_ltb (calc_renumber_saving s) double_lit_0_2 = false →
     (nVars s1 ≤ nVarsOuter s1)%N →
     (nVarsOuter s1 < 2 ^ 32)%N →
     (∀ o i i2,
        moves_variables i
          (λ s0, Searcher_updateVars o i
                   (PropEngine_updateVars o i i2 (CNF_updateVars o i s0)))) →
     (∀ o i2, keeps_variables (stamp_updateVars o i2)) →
     (∀ o i, keeps_variables (varReplacer_updateVars o i)) →
     (∀ o i2 num, keeps_variables (implCache_updateVars o i2 num)) →
     (∀ o i, keeps_variables (datasync_updateVars o i)) →
     keeps_variables_below Searcher_save_on_var_memory →
     keeps_variables_below varReplacer_save_on_var_memory →
     keeps_variables_below occsimplifier_save_on_var_memory →
     keeps_variables_below compHandler_save_on_var_memory →
     keeps_variables_below datasync_save_on_var_memory →
     ∃ outerToInter' interToOuter' numEffectiveVars,
       calculate_interToOuter_and_outerToInter s1 (replicate outer 0)
         (replicate outer 0)
       = (outerToInter', interToOuter', numEffectiveVars)
       ∧ interToOuter' = active ++ inactive ++ seq n (outer - n)
       ∧ numEffectiveVars = length active
       ∧ (∀ k x, interToOuter' !! k = Some x → outerToInter' !! x = Some k)
       ∧ (∀ x x' k k', x < x' < n →
            var_inactive s1 x = false → var_inactive s1 x' = false →
            outerToInter' !! x = Some k → outerToInter' !! x' = Some k' →
            k < k')
       ∧ let s' := Solver_renumber_variables must_renumber s in
         (nVars s' = nVars s1 ∨ nVars s' = N.of_nat numEffectiveVars)
         ∧ (∀ k, k < N.to_nat (nVars s') →
                 var_inactive s' k = false ↔ k < numEffectiveVars)
         ∧ test_renumbering s' = true).
Proof.
  intros s1 n outer active inactive.
  split.
  { unfold Solver_renumber_variables.
    intros [->|[-> ->]]; [done|]. by destruct (nVars s =? 0)%N. }
  intros Hnz Hgo Hn H32 Hbase Hstamp Hrepl Hcache Hsync Hs1 Hs2 Hs3 Hs4 Hs5.
  unfold Solver_renumber_variables.
  destruct (N.eqb_spec (nVars s) 0) as [|_]; [done|].
  assert (negb must_renumber
          && double_ltb (calc_renumber_saving s) double_lit_0_2 = false)
    as ->.
  { destruct Hgo as [->| ->]; [done|]. by rewrite andb_false_r. }
  fold s1. fold outer.
  destruct (calculate_interToOuter_and_outerToInter s1 (replicate outer 0)
              (replicate outer 0)) as [[o i] num] eqn:Hcalc.
  destruct (calculate_maps_spec s1 (replicate outer 0) (replicate outer 0)
              o i num Hn) as (Hi & Hnum & Hlen & Hinv & Hact & Hinact & Hid
                              & Hord & _);
    [by rewrite length_replicate..|done|].
  fold n outer active inactive in Hi, Hnum, Hlen, Hact, Hinact, Hid, Hord.
  exists o, i, num. split; [done|]. split; [done|]. split; [done|].
  split; [done|]. split; [done|].
  set (i2 := interToOuter2_of outer i).
  destruct (renumber_rewrite_moves o i i2 num (Hbase o i i2) (Hstamp o i2)
              (Hrepl o i) (Hcache o i2 num) (Hsync o i) s1) as [HN HV].
  set (sU := renumber_rewrite o i i2 num s1) in *.
  assert (Hlen_act : num ≤ n).
  { rewrite Hnum. unfold active.
    etrans; [apply length_filter|]. by rewrite length_seq. }
  assert (Hdense : ∀ k, k < n → var_inactive sU k = false ↔ k < num).
  { intros k Hk.
    assert (is_Some (i !! k)) as [x Hx].
    { apply lookup_lt_is_Some. rewrite Hi, !length_app, length_seq.
      pose proof (length_filter_both (var_inactive s1) (seq 0 n)) as Hboth.
      rewrite length_seq in Hboth. fold active inactive in Hboth.
      unfold n, outer in *. lia. }
    rewrite (HV k x Hx). pose proof (Hinv k x Hx) as Hox.
    assert (Hxn : x < n).
    { destruct (decide (x < n)) as [|Hge]; [done|].
      assert (x < outer).
      { apply lookup_lt_Some in Hox. by rewrite Hlen in Hox. }
      rewrite Hid in Hox by lia. injection Hox as ->. lia. }
    destruct (var_inactive s1 x) eqn:Hx1.
    - destruct (Hinact x Hxn Hx1) as (k' & Hk' & Hge). simplify_eq.
      split; [done|lia].
    - destruct (Hact x Hxn Hx1) as (k' & Hk' & Hlt'). simplify_eq. done. }
  cbv zeta. destruct (doSaveMem (conf sU)).
  - destruct (save_on_var_memory_keeps (u32 (N.of_nat num)) sU)
      as [HN' HV']; [done..|].
    assert (Hnum32 : u32 (N.of_nat num) = N.of_nat num).
    { unfold u32. apply N.mod_small. unfold n, outer in *. lia. }
    rewrite Hnum32 in HN', HV'.
    assert (Hd : ∀ k, k < N.to_nat (nVars (save_on_var_memory
                                             (u32 (N.of_nat num)) sU)) →
                 var_inactive (save_on_var_memory (u32 (N.of_nat num)) sU) k
                 = false ↔ k < num).
    { rewrite Hnum32, HN', Nat2N.id. intros k Hk.
      rewrite HV' by (rewrite Nat2N.id; done).
      apply Hdense. lia. }
    split; [right; by rewrite Hnum32|]. split; [done|].
    by eapply dense_prefix_passes.
  - assert (Hd : ∀ k, k < N.to_nat (nVars sU) →
                 var_inactive sU k = false ↔ k < num).
    { rewrite HN. exact Hdense. }
    split; [by left|]. split; [done|]. by eapply dense_prefix_passes.
Qed.

End RenumberVariables.

(** ** What the model minimiser may unset *)

Section MinimiserKeeps.
Context `{CO : Collab}.
Implicit Types (s : Solver) (u : FindUndef).













End MinimiserKeeps.

(** ** Enqueueing at the top level, and the checks of the binary clauses *)

Section TopLevel.
Context `{CO : Collab}.
Implicit Types (s : Solver).

Lemma fully_enqueue_this_spec (lit : Lit) s s' (b : bool) :
  fully_enqueue_this lit s = Ret b s' →
  (b = false → ok s' = false)
  ∧ (ok s = true → ok s' = b)
  ∧ (value s lit = l_True → b = true ∧ s' = s).
Proof.
  unfold fully_enqueue_this. rewrite mbind_get.
  destruct (value s lit) eqn:Hv; unfold_M.
  - intros [= <- <-]. by repeat split.
  - intros [= <- <-]. by repeat split.
  - destruct (propagate_isNULL (enqueue lit s)) as [b0 s2].
    intros [= <- <-]. by repeat split.
Qed.

(** X16. [fully_enqueue_these] answers with the state of the solver: when
    it returns false the solver is refuted, and called on a solver that is
    not refuted it returns [ok] as it leaves it. Literals that are true
    already are passed over: when all of them are, nothing is changed. *)
Theorem fully_enqueue_these_answers_ok (lits : list Lit) (s s' : Solver)
    (b : bool) :
  fully_enqueue_these lits s = Ret b s' →
  (b = false → ok s' = false)
  ∧ (ok s = true → ok s' = b)
  ∧ ((∀ l, l ∈ lits → value s l = l_True) → b = true ∧ s' = s).
Proof.
  revert s. induction lits as [|lit lits IH]; intros s; simpl.
  { intros [= <- <-]. by repeat split. }
  intros (b1 & s1 & H1 & Hrest)%mbind_Ret.
  destruct (fully_enqueue_this_spec lit s s1 b1 H1) as (Hf & Hok & Htrue).
  destruct b1.
  - destruct (IH _ Hrest) as (Hf' & Hok' & Htrue').
    split; [done|]. split; [by intros Hs; apply Hok', Hok|].
    intros Hall. destruct Htrue as [_ ->]; [apply Hall; left|].
    apply Htrue'. intros l Hl. apply Hall. by right.
  - injection Hrest as <- <-. split; [by intros _; apply Hf|].
    split; [done|]. intros Hall.
    destruct Htrue as [? _]; [apply Hall; left|done].
Qed.

(** X17. [check_implicit_propagated] passes exactly when every binary
    clause of the watch lists is satisfied or has both its literals without
    a value: none has a false literal next to one that is not true. *)
Theorem check_implicit_propagated_passes_iff s :
  check_implicit_propagated s = true ↔
    ∀ l lit2, (l, lit2) ∈ bin_clauses s →
      value s l = l_True ∨ value s lit2 = l_True
      ∨ (value s l = l_Undef ∧ value s lit2 = l_Undef).
Proof.
  assert (Hone : ∀ l lit2,
    (if bool_decide (value s l = l_True) then true
     else (if bool_decide (value s l = l_False)
           then bool_decide (value s lit2 = l_True) else true)
          && (if bool_decide (value s lit2 = l_False)
              then bool_decide (value s l = l_True) else true)) = true
    ↔ value s l = l_True ∨ value s lit2 = l_True
      ∨ (value s l = l_Undef ∧ value s lit2 = l_Undef)).
  { intros l lit2.
    destruct (value s l), (value s lit2); simpl; split; intros H;
      try done; try tauto; try (right; left; done); try (by left);
      try (right; right; done); destruct H as [H|[H|[H1 H2]]]; done. }
  unfold check_implicit_propagated. rewrite forallb_forall. split.
  - intros H l lit2 (i & red & -> & Hi & Hin)%elem_of_bin_clauses.
    destruct (lookup_lt_is_Some_2 (watches s) i Hi) as [ws Hws].
    rewrite Hws in Hin. simpl in Hin.
    specialize (H (i, ws)). simpl in H. rewrite forallb_forall in H.
    rewrite <- list_elem_of_In in H.
    assert ((i, ws) ∈ imap pair (watches s)) as Hiws
      by (apply elem_of_lookup_imap; eauto).
    specialize (H Hiws (WBin lit2 red)).
    rewrite <- list_elem_of_In in H. specialize (H Hin). by apply Hone.
  - intros H [i ws] Hiws. rewrite <- list_elem_of_In in Hiws.
    apply elem_of_lookup_imap in Hiws as (i' & ws' & [= -> ->] & Hws).
    apply forallb_forall. intros [lit2 red|] Hw; [|done].
    rewrite <- list_elem_of_In in Hw. apply Hone.
    apply H. apply elem_of_bin_clauses. exists i', red.
    split; [done|]. split; [by eapply lookup_lt_Some|]. by rewrite Hws.
Qed.

End TopLevel.

(** ** The counters of the binary clauses *)

Section BinStats.
Context `{CO : Collab}.
Implicit Types (s : Solver).

Lemma mjoin_alter_snoc {A} (w : A) (l : list (list A)) (i : nat) :
  i < length l →
  mjoin (alter (λ ws, ws ++ [w]) i l) ≡ₚ w :: mjoin l.
Proof.
  revert i. induction l as [|ws l IH]; intros [|i] Hi; simpl in *; try lia.
  - rewrite <- app_assoc. simpl. by rewrite <- Permutation_middle.
  - change (list_alter ?f i l) with (alter f i l).
    rewrite IH by lia. by rewrite <- Permutation_middle.
Qed.

Lemma count_after_two_watches (red : bool) (w1 w2 : Watched)
    (l : list (list Watched)) (i1 i2 : nat) :
  i1 < length l → i2 < length l →
  length (filter (λ w, is_bin_watch red w = true)
            (mjoin (alter (λ ws, ws ++ [w1]) i2
                      (alter (λ ws, ws ++ [w2]) i1 l))))
  = (if is_bin_watch red w1 then 1 else 0)
    + (if is_bin_watch red w2 then 1 else 0)
    + length (filter (λ w, is_bin_watch red w = true) (mjoin l)).
Proof.
  intros H1 H2.
  assert (P1 : mjoin (alter (λ ws, ws ++ [w1]) i2
                        (alter (λ ws, ws ++ [w2]) i1 l))
               ≡ₚ w1 :: w2 :: mjoin l).
  { rewrite mjoin_alter_snoc by (by rewrite length_alter).
    by rewrite (mjoin_alter_snoc w2 l i1 H1). }
  rewrite (Permutation_length
             (filter_Permutation (λ w, is_bin_watch red w = true) _ _ P1)).
  rewrite !filter_cons.
  destruct (is_bin_watch red w1), (is_bin_watch red w2); simpl;
    repeat case_decide; simpl; done.
Qed.

(** X18. [attach_bin_clause] keeps the counters of the binary clauses in
    step with the watch lists: when [check_implicit_stats] passed before,
    it passes after. (The engine is taken to put the clause into the watch
    lists of its two literals and to leave the counters alone; the number
    of watches stays below 2^64.) *)
Theorem bin_counters_stay_exact s (lit1 lit2 : Lit) (red : bool) :
  (∀ s0,
     watches (PropEngine_attach_bin_clause lit1 lit2 red s0)
     = alter (λ ws, ws ++ [WBin lit1 red]) (N.to_nat (toInt lit2))
         (alter (λ ws, ws ++ [WBin lit2 red]) (N.to_nat (toInt lit1))
            (watches s0))
     ∧ binTri (PropEngine_attach_bin_clause lit1 lit2 red s0) = binTri s0) →
  N.to_nat (toInt lit1) < length (watches s) →
  N.to_nat (toInt lit2) < length (watches s) →
  (N.of_nat (length (mjoin (watches s))) + 2 < 2 ^ 64)%N →
  check_implicit_stats false s = true →
  ∃ s', attach_bin_clause lit1 lit2 red s = Ret tt s'
        ∧ check_implicit_stats false s' = true.
Proof.
  intros Hengine H1 H2 Hsmall Hcheck.
  eexists. split; [reflexivity|].
  destruct (Hengine (set_binTri
    {| irredBins := if red then irredBins (binTri s)
                    else u64 (irredBins (binTri s) + 1);
       redBins := if red then u64 (redBins (binTri s) + 1)
                  else redBins (binTri s);
       numNewBinsSinceSCC := u64 (numNewBinsSinceSCC (binTri s) + 1) |} s))
    as [Hw Hb].
  unfold check_implicit_stats, count_bin_watches in *.
  rewrite Hw, Hb. cbn [watches binTri set_binTri irredBins redBins].
  rewrite !count_after_two_watches by done.
  pose proof (length_filter (λ w, is_bin_watch true w = true)
                (mjoin (watches s))) as Hr.
  pose proof (length_filter (λ w, is_bin_watch false w = true)
                (mjoin (watches s))) as Hi.
  set (r := length (filter (λ w, is_bin_watch true w = true) _)) in *.
  set (i := length (filter (λ w, is_bin_watch false w = true) _)) in *.
  unfold u64 in *.
  rewrite (N.mod_small (N.of_nat r)) in Hcheck by lia.
  rewrite (N.mod_small (N.of_nat i)) in Hcheck by lia.
  apply andb_true_iff in Hcheck as [Hcheck Hr2%N.eqb_eq].
  apply andb_true_iff in Hcheck as [Hcheck Hr1%N.eqb_eq].
  apply andb_true_iff in Hcheck as [Hi1%N.eqb_eq Hi2%N.eqb_eq].
  assert (Hhalf : ∀ k, (N.of_nat k mod 2 = 0)%N →
            (N.of_nat (1 + 1 + k) mod 2 = 0)%N
            ∧ (N.of_nat (1 + 1 + k) / 2 = N.of_nat k / 2 + 1)%N).
  { intros k Hk.
    replace (N.of_nat (1 + 1 + k)) with (N.of_nat k + 1 * 2)%N by lia.
    rewrite N.Div0.mod_add, N.div_add by done. done. }
  assert (Hdiv : ∀ k, (N.of_nat k / 2 ≤ N.of_nat k)%N).
  { intros k. apply N.Div0.div_le_upper_bound. lia. }
  pose proof (Hdiv r). pose proof (Hdiv i).
  destruct (Hhalf r Hr1) as [Hr3 Hr4]. destruct (Hhalf i Hi1) as [Hi3 Hi4].
  destruct red; simpl is_bin_watch; simpl Nat.add.
  - rewrite (N.mod_small (N.of_nat (S (S r)))) by lia.
    rewrite (N.mod_small (N.of_nat i)) by lia.
    simpl in Hr3, Hr4. rewrite Hr3, Hr4, Hi1, Hi2, Hr2.
    rewrite (N.mod_small (redBins (binTri s) + 1)) by lia.
    by rewrite !N.eqb_refl.
  - rewrite (N.mod_small (N.of_nat (S (S i)))) by lia.
    rewrite (N.mod_small (N.of_nat r)) by lia.
    simpl in Hi3, Hi4. rewrite Hi3, Hi4, Hr1, Hr2, Hi2.
    rewrite (N.mod_small (irredBins (binTri s) + 1)) by lia.
    by rewrite !N.eqb_refl.
Qed.

End BinStats.

(** ** Reading a solution line *)

Section SolutionLine.
Context `{CO : Collab}.
Implicit Types (s : Solver).

Lemma parse_v_line_loop_spec (lits : list Z) (ending : VLineEnd) :
  ∀ s,
    (parse_v_line_loop lits ending s = Exit (-1)
     ∧ (ending = VUnreadable
        ∨ Exists (λ lit, (nVars s ≤ u32 (Z.to_N (Z.abs lit - 1)))%N) lits))
    ∨ (ending = VClosed
       ∧ (∀ lit, lit ∈ lits →
                 (u32 (Z.to_N (Z.abs lit - 1)) < nVars s)%N)
       ∧ ∃ m', parse_v_line_loop lits ending s = Ret tt (set_model m' s)
               ∧ length m' = length (model s)
               ∧ (∀ i x, model s !! i = Some x →
                         x ≠ l_Undef ∨ removed_of s (N.of_nat i) ≠ Removed_none →
                         m' !! i = Some x)
               ∧ (∀ lit, lit ∈ lits →
                    let v := N.to_nat (u32 (Z.to_N (Z.abs lit - 1))) in
                    v < length (model s) →
                    removed_of s (N.of_nat v) = Removed_none →
                    m' !! v ≠ Some l_Undef)).
Proof.
  induction lits as [|lit lits IH]; intros s; simpl.
  { destruct ending; [right|by left; split; [|left]].
    split; [done|]. split.
    - intros lit Hl. by apply elem_of_nil in Hl.
    - exists (model s). split; [by destruct s|]. split; [done|].
      split; [done|]. intros lit Hl. by apply elem_of_nil in Hl. }
  rewrite mbind_get.
  set (v := u32 (Z.to_N (Z.abs lit - 1))).
  destruct (N.leb_spec (nVars s) v) as [|Hv].
  { left. split; [done|]. right. by left. }
  set (m1 := if bool_decide (default l_Undef (model s !! N.to_nat v) = l_Undef)
                && bool_decide (removed_of s v = Removed_none)
             then <[N.to_nat v := if (lit <? 0)%Z then l_False else l_True]>
                    (model s)
             else model s).
  assert (Hstep : ∀ B (k : unit → M B),
    (when (bool_decide (default l_Undef (model s !! N.to_nat v) = l_Undef)
           && bool_decide (removed_of s v = Removed_none))
       (modify (λ s, set_model
                       (<[N.to_nat v := if (lit <? 0)%Z then l_False
                                        else l_True]> (model s)) s)) ≫= k) s
    = k tt (set_model m1 s)).
  { intros B k. subst m1. unfold_M.
    destruct (_ && _); [done|]. by destruct s. }
  rewrite Hstep.
  assert (Hlen1 : length m1 = length (model s)).
  { subst m1. destruct (_ && _); [by rewrite length_insert|done]. }
  assert (Hkeep1 : ∀ i x, model s !! i = Some x →
            x ≠ l_Undef ∨ removed_of s (N.of_nat i) ≠ Removed_none →
            m1 !! i = Some x).
  { intros i x Hx Hwhy. subst m1.
    destruct (bool_decide _ && bool_decide _) eqn:E; [|done].
    apply andb_true_iff in E as [E1%bool_decide_eq_true E2%bool_decide_eq_true].
    destruct (decide (N.to_nat v = i)) as [<-|Hne].
    - rewrite Hx in E1. simpl in E1. rewrite N2Nat.id in Hwhy.
      destruct Hwhy; done.
    - by rewrite list_lookup_insert_ne. }
  assert (Hset1 : N.to_nat v < length (model s) →
            removed_of s v = Removed_none → m1 !! N.to_nat v ≠ Some l_Undef).
  { intros Hin Hrem. subst m1.
    destruct (bool_decide (default _ _ = l_Undef)) eqn:E1; simpl.
    - rewrite bool_decide_eq_true_2 by done.
      rewrite list_lookup_insert_eq by done. by destruct (lit <? 0)%Z.
    - apply bool_decide_eq_false in E1.
      destruct (model s !! N.to_nat v) as [y|]; simpl in *; congruence. }
  destruct (IH (set_model m1 s))
    as [[Hexit Hwhy]|(-> & Hvars & m' & Hrun & Hlen & Hkeep & Hset)].
  { left. split; [done|]. destruct Hwhy as [|Hex]; [by left|].
    right. by right. }
  right. split; [done|]. split.
  { intros l [->|Hl]%elem_of_cons; [done|]. by apply Hvars. }
  exists m'. split; [by rewrite Hrun|]. cbn [model set_model] in *.
  split; [congruence|]. split.
  - intros i x Hx Hwhy. apply Hkeep; [by apply Hkeep1|done].
  - intros l [->|Hl]%elem_of_cons; [|by rewrite <- Hlen1; apply Hset].
    cbv zeta. intros Hw Hrem. fold v in Hw, Hrem |- *.
    rewrite N2Nat.id in Hrem.
    destruct (m1 !! N.to_nat v) as [y|] eqn:Hy.
    + rewrite (Hkeep _ y Hy).
      * intros [= ->]. by apply Hset1.
      * left. intros ->. by apply Hset1.
    + apply lookup_ge_None in Hy. lia.
Qed.

(** X19. On the numbers of a solution line that come before the one
    that closes it (they are not 0 and lie between -2^31 and 2^31 - 1),
    [parse_v_line] ends the program with exit code -1 when, and only
    when, a number of the line cannot be read or names a variable that is
    not below [nVars()]. Otherwise it changes nothing but the model, which
    it brings to the size [nVarsOuter()]: a value the model held already is
    kept, as is the entry of a variable that was removed, and a variable of
    the line that was not removed has a value afterwards. *)
Theorem parse_v_line_keeps_values (lits : list Z) (ending : VLineEnd) s :
  Forall (λ lit, lit ≠ 0 ∧ - 2 ^ 31 < lit < 2 ^ 31 - 1)%Z lits →
  (parse_v_line lits ending s = Exit (-1)
   ∧ (ending = VUnreadable
      ∨ Exists (λ lit, (nVars s ≤ u32 (Z.to_N (Z.abs lit - 1)))%N) lits))
  ∨ (ending = VClosed
     ∧ (∀ lit, lit ∈ lits → (u32 (Z.to_N (Z.abs lit - 1)) < nVars s)%N)
     ∧ ∃ m', parse_v_line lits ending s = Ret tt (set_model m' s)
             ∧ length m' = N.to_nat (nVarsOuter s)
             ∧ (∀ i x, model s !! i = Some x → i < N.to_nat (nVarsOuter s) →
                       x ≠ l_Undef ∨ removed_of s (N.of_nat i) ≠ Removed_none →
                       m' !! i = Some x)
             ∧ (∀ lit, lit ∈ lits →
                  let v := N.to_nat (u32 (Z.to_N (Z.abs lit - 1))) in
                  v < N.to_nat (nVarsOuter s) →
                  removed_of s (N.of_nat v) = Removed_none →
                  m' !! v ≠ Some l_Undef)).
Proof.
  intros _.
  assert (Hunf : parse_v_line lits ending s
    = parse_v_line_loop lits ending
        (set_model (resize (N.to_nat (nVarsOuter s)) l_Undef (model s)) s))
    by reflexivity.
  rewrite Hunf.
  destruct (parse_v_line_loop_spec lits ending
              (set_model (resize (N.to_nat (nVarsOuter s)) l_Undef (model s))
                 s))
    as [Hexit|(-> & Hvars & m' & Hrun & Hlen & Hkeep & Hset)]; [by left|].
  right. split; [done|]. split; [done|]. exists m'.
  cbn [model set_model] in Hlen, Hkeep, Hset. rewrite length_resize in Hlen, Hset.
  split; [by rewrite Hrun|]. split; [done|]. split.
  - intros i x Hx Hi Hwhy. apply Hkeep; [|done].
    rewrite lookup_resize; [done|done|by eapply lookup_lt_Some].
  - exact Hset.
Qed.

End SolutionLine.

(** ** Long clauses are stored as they were cleaned *)

Section LongClauses.
Context `{CO : Collab}.
Implicit Types (s : Solver).

(** X20. A clause that keeps three or more literals after cleaning is stored
    in a fresh slot at the end of the clause arena, with the cleaned literals,
    the redundancy flag and the statistics it was given; the offset of that
    slot is returned, the clauses already stored are untouched, and the
    literal counter of its kind grows by its length (modulo 2^64) whether or
    not the clause is attached, the other counter staying as it was.  The
    propagation engine is assumed to leave the arena and the literal
    counters alone when it attaches a clause. *)
Theorem long_clause_is_stored s (lits ps : list Lit) (red : bool)
    (stats : ClauseStats) (attach_long finalLits : bool) (drat_first : Lit) :
  (∀ off s0, cl_alloc (PropEngine_attachClause off s0) = cl_alloc s0
             ∧ litStats (PropEngine_attachClause off s0) = litStats s0) →
  sort_and_clean_clause lits red s = Ret (Some ps) s →
  3 ≤ length ps →
  ∃ s', add_clause_int lits red stats attach_long finalLits false drat_first s
        = Ret (Some (length (cl_alloc s))) s'
        ∧ cl_alloc s'
          = cl_alloc s ++ [{| cl_lits := ps; cl_red := red; cl_stats := stats;
                              cl_strengthened := false |}]
        ∧ clause_at s' (length (cl_alloc s)) = ps
        ∧ redLits (litStats s')
          = (if red then u64 (redLits (litStats s) + N.of_nat (length ps))
             else redLits (litStats s))
        ∧ irredLits (litStats s')
          = (if red then irredLits (litStats s)
             else u64 (irredLits (litStats s) + N.of_nat (length ps))).
Proof.
  intros Hengine Hclean Hlen.
  unfold add_clause_int. unfold mbind at 1, M_bind. rewrite Hclean.
  destruct ps as [|a [|b [|c ps]]]; simpl in Hlen; try lia.
  unfold clause_at.
  destruct finalLits, red, attach_long;
    unfold Clause_new, attachClause, add_lit_count; unfold_M; cbn;
    rewrite ?alter_new_slot, ?lookup_new_slot; cbn.
  all: eexists; split; [reflexivity|]; cbn;
    rewrite ?(proj1 (Hengine _ _)), ?(proj2 (Hengine _ _)); cbn;
    rewrite ?lookup_new_slot; done.
Qed.

End LongClauses.

(** ** Runs of the ingestion on the example platform *)

#[local] Existing Instance Example.platform.
#[local] Existing Instance Example.collab.

(** In a refuted solver with two variables the clause (x0 ∨ x1) is refused. *)
Lemma refuted_state_is_sticky_witness :
  add_clause_outer [Example.pos 0; Example.pos 1] false
    (set_ok false (Example.fresh_solver 2))
  = Ret false (set_ok false (Example.fresh_solver 2))
  ∧ addClauseHelper [Example.pos 0; Example.pos 1]
      (set_ok false (Example.fresh_solver 2))
    = Ret (false, [Example.pos 0; Example.pos 1])
        (set_ok false (Example.fresh_solver 2))
  ∧ addClause [Example.pos 0; Example.pos 1] false
      (set_ok false (Example.fresh_solver 2))
    = Ret false (set_ok false (Example.fresh_solver 2)).
Proof.
  exact (refuted_state_is_sticky (set_ok false (Example.fresh_solver 2))
           [Example.pos 0; Example.pos 1] false eq_refl).
Defined.

(** C3 fails as stated: in a refuted solver of which the occurrence
    simplifier has blocked a clause, [addClause] does not return false but
    leaves the process with exit code -1. *)
Lemma refuted_state_counterexample :
  ok (set_ok false (Example.fresh_solver 2)) = false
  ∧ addClause (CO := Example.collab_blocked)
      [Example.pos 0; Example.pos 1] false
      (set_ok false (Example.fresh_solver 2))
    = Exit (-1)
  ∧ addClause (CO := Example.collab_blocked)
      [Example.pos 0; Example.pos 1] false
      (set_ok false (Example.fresh_solver 2))
    ≠ Ret false (set_ok false (Example.fresh_solver 2)).
Proof. repeat split. discriminate. Qed.

(** The clause (x1 ∨ ¬x1 ∨ x2) of the specification's scenario, irredundant,
    in a solver with three unassigned variables. *)
Lemma tautology_is_discarded_witness :
  add_clause_int [Example.pos 1; Example.neg 1; Example.pos 2] false
    ClauseStats_default true false false lit_Undef (Example.fresh_solver 3)
  = Ret None (mark_must_set (Example.pos 1) (Example.fresh_solver 3))
  ∧ undef_must_set_vars
      (mark_must_set (Example.pos 1) (Example.fresh_solver 3)) !! 1
    = Some true.
Proof.
  pose proof (tautology_is_discarded (Example.fresh_solver 3)
    [Example.pos 1; Example.neg 1; Example.pos 2]
    [Example.pos 1] [Example.pos 2] [Example.pos 1] (Example.pos 1) false
    ClauseStats_default true false false lit_Undef
    eq_refl eq_refl ltac:(discriminate) eq_refl) as (_ & H1 & _ & H2 & _).
  split; [exact H1|exact (H2 eq_refl)].
Defined.

(** The redundant clause (x2 ∨ x0 ∨ x1) gets the glue 1000 of
    [ClauseStats()]: with the thresholds 3 and 1000 it goes to tier 1. *)
Lemma redundant_clause_tier_witness :
  ∃ b s', addClause [Example.pos 2; Example.pos 0; Example.pos 1] true
            (set_conf Example.lenient_conf (Example.fresh_solver 3))
          = Ret b s'
    ∧ cl_alloc s'
      = [{| cl_lits := [Example.pos 0; Example.pos 1; Example.pos 2];
            cl_red := true;
            cl_stats := {| glue := 1000; which_red_array := 1 |};
            cl_strengthened := false |}]
    ∧ longRedCls s' = [[]; [0]; []].
Proof.
  destruct (redundant_clause_tier
    (set_conf Example.lenient_conf (Example.fresh_solver 3))
    (set_conf Example.lenient_conf (Example.fresh_solver 3))
    (set_finalCl_tmp []
       (set_conf Example.lenient_conf (Example.fresh_solver 3)))
    [Example.pos 2; Example.pos 0; Example.pos 1]
    [Example.pos 2; Example.pos 0; Example.pos 1]
    [Example.pos 0; Example.pos 1; Example.pos 2]
    ltac:(by intros ? ?) ltac:(by intros ? ?) ltac:(by intros ?)
    ltac:(by intros ? ?)
    eq_refl eq_refl eq_refl ltac:(vm_compute; lia))
    as (b & s' & H1 & H2 & H3 & _).
  exists b, s'. split; [exact H1|]. split; [exact H2|exact H3].
Defined.

(** One literal more than 2^28, and one variable more than 2^28, are
    refused with the exception, from the state of the call; a two-literal
    clause and a three-variable XOR are far below the bound. *)
Lemma too_long_clause_bound_witness :
  add_clause_outer (replicate (N.to_nat (2 ^ 28 + 1)) (Example.pos 0)) false
    (Example.fresh_solver 1)
  = Throw TooLongClauseError (Example.fresh_solver 1)
  ∧ add_xor_clause_outer (replicate (N.to_nat (2 ^ 28 + 1)) 0%N) true
      (Example.fresh_solver 1)
    = Throw TooLongClauseError (Example.fresh_solver 1)
  ∧ (∀ e s', add_clause_outer [Example.pos 0; Example.neg 1] false
               (Example.fresh_solver 3) ≠ Throw e s')
  ∧ (∀ e s', add_xor_clause_outer [0; 1; 2]%N true
               (Example.fresh_solver 3) ≠ Throw e s').
Proof.
  pose proof (too_long_clause_bound (Example.fresh_solver 1)
    (replicate (N.to_nat (2 ^ 28 + 1)) (Example.pos 0))
    (replicate (N.to_nat (2 ^ 28 + 1)) 0%N) false true)
    as (_ & H2 & H3 & _).
  pose proof (too_long_clause_bound (Example.fresh_solver 3)
    [Example.pos 0; Example.neg 1] [0; 1; 2]%N false true)
    as (_ & _ & _ & H4 & H5).
  split; [|split; [|split]].
  - apply H2; [reflexivity| |reflexivity|].
    + apply Forall_replicate. split; reflexivity.
    + rewrite length_replicate, N2Nat.id. apply N.lt_succ_diag_r.
  - apply H3; [reflexivity| |].
    + apply Forall_replicate. split; reflexivity.
    + rewrite length_replicate, N2Nat.id. apply N.lt_succ_diag_r.
  - exact (H4 eq_refl).
  - exact (H5 eq_refl).
Defined.

(** What the ingestion does with [n] copies of the literal x0 in a solver
    with one variable. *)
Lemma addClauseHelper_update_copies (n : nat) :
  addClauseHelper_update (replicate n (Example.pos 0))
    (Example.fresh_solver 1)
  = Ret (replicate n (Example.pos 0)) (Example.fresh_solver 1).
Proof.
  induction n as [|n IH]; [done|].
  cbn [replicate addClauseHelper_update]. rewrite mbind_get.
  change (nVarsOuter (Example.fresh_solver 1) <=? var (Example.pos 0))%N
    with false. cbv iota zeta.
  unfold mbind at 1, M_bind.
  change (when _ _ (Example.fresh_solver 1))
    with (Ret tt (Example.fresh_solver 1)).
  cbv iota beta. unfold mbind, M_bind. by rewrite IH.
Qed.

Lemma addClauseHelper_uneliminate_copies (n : nat) :
  addClauseHelper_uneliminate (replicate n (Example.pos 0))
    (Example.fresh_solver 1)
  = Ret true (Example.fresh_solver 1).
Proof.
  induction n as [|n IH]; [done|].
  cbn [replicate addClauseHelper_uneliminate]. rewrite mbind_get.
  change (perform_occur_based_simp (conf (Example.fresh_solver 1))
          && bool_decide (removed_of (Example.fresh_solver 1)
                            (var (Example.pos 0)) = elimed))
    with false.
  exact IH.
Qed.

Lemma addClauseHelper_copies (n : nat) :
  (N.of_nat n ≤ 2 ^ 28)%N →
  addClauseHelper (replicate n (Example.pos 0)) (Example.fresh_solver 1)
  = Ret (true, replicate n (Example.pos 0)) (Example.fresh_solver 1).
Proof.
  intros Hn. unfold addClauseHelper. rewrite mbind_get.
  change (negb (ok (Example.fresh_solver 1))) with false. cbv iota.
  rewrite length_replicate.
  destruct (N.ltb_spec (2 ^ 28) (N.of_nat n)); [lia|].
  unfold mbind at 1, M_bind. rewrite addClauseHelper_update_copies.
  unfold mbind at 1, M_bind, gets.
  assert (E : renumber_outer_to_inter_lits (Example.fresh_solver 1)
                (replicate n (Example.pos 0))
              = replicate n (Example.pos 0)).
  { clear. induction n as [|n IH]; [done|].
    cbn [replicate]. unfold renumber_outer_to_inter_lits in *.
    cbn [map]. by rewrite IH. }
  rewrite E. unfold mbind at 1, M_bind, get at 1.
  change (compHandler (Example.fresh_solver 1)) with false.
  unfold mbind at 1, M_bind. cbn [andb when].
  unfold mret at 1, M_ret. cbv iota beta.
  unfold mbind, M_bind. by rewrite addClauseHelper_uneliminate_copies.
Qed.

(** C6 fails as stated: a refuted solver is handed 2^28 literals, or an XOR
    of 2^28 variables, and answers false without an exception; and a solver
    that is not refuted lets a clause of exactly 2^28 literals and an XOR
    of exactly 2^28 variables through. *)
Lemma too_long_clause_counterexample :
  (2 ^ 28 ≤ N.of_nat (length (replicate (N.to_nat (2 ^ 28)) (Example.pos 0))))%N
  ∧ (2 ^ 28 ≤ N.of_nat (length (replicate (N.to_nat (2 ^ 28)) 0%N)))%N
  ∧ add_clause_outer (replicate (N.to_nat (2 ^ 28)) (Example.pos 0)) false
      (set_ok false (Example.fresh_solver 1))
    = Ret false (set_ok false (Example.fresh_solver 1))
  ∧ add_xor_clause_outer (replicate (N.to_nat (2 ^ 28)) 0%N) true
      (set_ok false (Example.fresh_solver 1))
    = Ret false (set_ok false (Example.fresh_solver 1))
  ∧ (∀ e s', add_clause_outer (replicate (N.to_nat (2 ^ 28)) (Example.pos 0))
               false (Example.fresh_solver 1) ≠ Throw e s')
  ∧ (∀ e s', add_xor_clause_outer (replicate (N.to_nat (2 ^ 28)) 0%N) true
               (Example.fresh_solver 1) ≠ Throw e s').
Proof.
  split; [|split; [|split; [|split; [|split]]]].
  - rewrite length_replicate, N2Nat.id. apply N.le_refl.
  - rewrite length_replicate, N2Nat.id. apply N.le_refl.
  - by apply add_clause_outer_refuted.
  - reflexivity.
  - rewrite add_clause_outer_admitted;
      [|reflexivity|apply Forall_replicate; by split].
    apply addClause_not_too_long.
    unfold back_number_from_outside_to_outer.
    rewrite length_map, length_replicate, N2Nat.id. apply N.le_refl.
  - intros e s'. unfold add_xor_clause_outer. rewrite mbind_get.
    change (negb (ok (Example.fresh_solver 1))) with false. cbv iota zeta.
    unfold mbind at 1, M_bind.
    assert (E : map (λ v, mkLit v false) (replicate (N.to_nat (2 ^ 28)) 0%N)
                = replicate (N.to_nat (2 ^ 28)) (Example.pos 0)).
    { generalize (N.to_nat (2 ^ 28)). intros n.
      induction n as [|n IH]; [done|]. cbn [replicate map]. by rewrite IH. }
    rewrite E.
    rewrite check_too_large_variable_number_ok
      by (apply Forall_replicate; by split).
    unfold mbind at 1, M_bind, gets.
    assert (E2 : back_number_from_outside_to_outer (Example.fresh_solver 1)
                   (replicate (N.to_nat (2 ^ 28)) (Example.pos 0))
                 = replicate (N.to_nat (2 ^ 28)) (Example.pos 0)).
    { unfold back_number_from_outside_to_outer.
      generalize (N.to_nat (2 ^ 28)). intros n.
      induction n as [|n IH]; [done|]. cbn [replicate map]. by rewrite IH. }
    rewrite E2. unfold mbind at 1, M_bind.
    rewrite addClauseHelper_copies by (rewrite N2Nat.id; apply N.le_refl).
    unfold mbind, M_bind.
    pose proof (xor_cleaned_one_variable (Example.fresh_solver 1)
      (replicate (N.to_nat (2 ^ 28)) (Example.pos 0)) true 0) as Hone.
    assert (length (xor_cleaned (Example.fresh_solver 1)
              (replicate (N.to_nat (2 ^ 28)) (Example.pos 0)) true).1 ≤ 1)
      as Hle.
    { apply Hone; [discriminate|].
      intros l [-> _]%elem_of_replicate. reflexivity. }
    pose proof (add_xor_clause_inter_never_throws_below
      (Example.fresh_solver 1)
      (replicate (N.to_nat (2 ^ 28)) (Example.pos 0)) true true false)
      as Hnt.
    destruct (add_xor_clause_inter _ _ _ _ _) as [b s1|e1 s1|c|].
    + discriminate.
    + exfalso. apply (Hnt ltac:(apply N.lt_le_trans with 2%N;
                                  [lia|apply N.leb_le; reflexivity])
                        e1 s1 eq_refl).
    + discriminate.
    + discriminate.
Qed.

(** The XOR x0 ⊕ x1 ⊕ x2 ⊕ x3 = 0 of the specification's scenario. *)
Lemma xor4_is_one_cut_witness :
  add_xor_clause_inter
    [Example.pos 0; Example.pos 1; Example.pos 2; Example.pos 3]
    false true false (Example.fresh_solver 4)
  = (modify (λ s, set_xorclauses
       (xorclauses s ++ [mkXor [0; 1; 2; 3]%N false]) s);;
     ingest_until_refuted
       (odd_parity_clauses4 (Example.pos 0) (Example.pos 1) (Example.pos 2)
          (Example.pos 3)) true false;;
     gets ok) (Example.fresh_solver 4).
Proof.
  exact (proj1 (xor4_is_one_cut (Example.fresh_solver 4)
    [Example.pos 0; Example.pos 1; Example.pos 2; Example.pos 3]
    false true false _ _ _ _ eq_refl)).
Defined.

(** C1 fails as stated: ingesting x0 ⊕ x1 ⊕ x2 ⊕ x3 = 0 into a solver with
    four variables leaves it with four variables, not five, and with eight
    clauses of four literals each, not of three. *)
Lemma xor4_counterexample :
  ∃ s', add_xor_clause_inter
          [Example.pos 0; Example.pos 1; Example.pos 2; Example.pos 3]
          false true false (Example.fresh_solver 4) = Ret true s'
    ∧ nVars s' = nVars (Example.fresh_solver 4)
    ∧ nVars s' ≠ (nVars (Example.fresh_solver 4) + 1)%N
    ∧ map cl_lits (cl_alloc s')
      = odd_parity_clauses4 (Example.pos 0) (Example.pos 1) (Example.pos 2)
          (Example.pos 3)
    ∧ Forall (λ c, length (cl_lits c) = 4 ∧ length (cl_lits c) ≠ 3)
        (cl_alloc s')
    ∧ longIrredCls s' = [0; 1; 2; 3; 4; 5; 6; 7].
Proof.
  eexists. split; [vm_compute; reflexivity|].
  repeat split; try reflexivity; try discriminate.
  repeat constructor; discriminate.
Qed.

(** ** Runs of the scheduler and of the driver on the example platform *)

(** A refuted solver runs no token of the strategy. *)
Lemma no_token_once_budget_exhausted_witness :
  execute_inprocess_strategy true "scc-vrepl, occ-bve, probe"
    (set_ok false (Example.fresh_solver 2))
  = Ret false (set_ok false (Example.fresh_solver 2)).
Proof.
  exact (proj1 (no_token_once_budget_exhausted true
    "scc-vrepl, occ-bve, probe" "probe" [] ""
    (set_ok false (Example.fresh_solver 2))
    (or_intror (or_intror (or_intror (or_intror eq_refl)))))).
Defined.

(** The second iteration, with base 100, growth 2, cap 3 and 1,000,000
    conflicts left: the budget is 300. *)
Lemma conflict_budget_of_an_iteration_witness :
  calc_num_confl_to_do_this_iter
    (set_burst_search_len 300 (Example.fresh_solver 1)) 2
  = Z.min 300 1000000.
Proof.
  exact (proj1 (conflict_budget_of_an_iteration Searcher_solve 0 300 1
    l_Undef (Example.fresh_solver 1) eq_refl)).
Defined.

(** C9 fails as stated: with base 100, growth 2 and the cap 3 on the
    power, the budget of the second iteration is 100 · 3 = 300, while
    min(base · growth^2, maxConfl − conflicts) is 400. *)
Lemma conflict_budget_counterexample :
  calc_num_confl_to_do_this_iter (Example.fresh_solver 1) 2 = 300%Z
  ∧ num_confl_by_spec 100 2 2 1000000 0 = 400%Z
  ∧ calc_num_confl_to_do_this_iter (Example.fresh_solver 1) 2
    ≠ num_confl_by_spec 100 2 2 1000000 0.
Proof. repeat split. discriminate. Qed.

(** A solve call that ends with SAT after one search. *)
Lemma solve_resets_the_budgets_witness :
  ∃ s', solve 1 (Example.fresh_solver 1) = Ret l_True s'
    ∧ maxConfl (conf s') = LONG_MAX ∧ maxTime (conf s') = double_max.
Proof.
  assert (E : ∃ s', solve 1 (Example.fresh_solver 1) = Ret l_True s')
    by (eexists; vm_compute; reflexivity).
  destruct E as [s' E]. exists s'. split; [exact E|].
  exact (solve_resets_the_budgets 1 _ _ _ E).
Defined.

(** ** A run of the renumbering on the example platform *)

(** The [updateVars] of the example's base classes move the variables. *)
Lemma Example_updateVars_move (o i i2 : list nat) :
  moves_variables i
    (λ s, Searcher_updateVars (Renumberer := Example.renumberer) o i
            (PropEngine_updateVars (Renumberer := Example.renumberer) o i i2
               (CNF_updateVars (Renumberer := Example.renumberer) o i s))).
Proof.
  intros s. split; [done|]. intros k x Hk.
  unfold var_inactive. cbn. by rewrite !list_lookup_fmap, Hk.
Qed.

(** Of the five variables of the example, 0, 3 and 4 are active: asked to
    renumber in any case, [renumber_variables] brings them to the indices
    0, 1 and 2, and saves the memory of the others. *)
Lemma renumbering_is_dense_witness :
  calculate_interToOuter_and_outerToInter Example.to_renumber
    (replicate 6 0) (replicate 6 0)
  = ([0; 3; 4; 1; 2; 5], [0; 3; 4; 1; 2; 5], 3)
  ∧ nVars (Solver_renumber_variables (RN := Example.renumberer) true
             Example.to_renumber) = 3%N
  ∧ assigns (Solver_renumber_variables (RN := Example.renumberer) true
               Example.to_renumber)
    = [l_Undef; l_Undef; l_Undef; l_True; l_Undef; l_Undef]
  ∧ (∀ k, k < 3 →
       var_inactive (Solver_renumber_variables (RN := Example.renumberer)
                       true Example.to_renumber) k = false)
  ∧ test_renumbering (Solver_renumber_variables (RN := Example.renumberer)
                        true Example.to_renumber) = true.
Proof.
  pose proof (renumbering_is_dense (CO := Example.collab)
    (RN := Example.renumberer) Example.to_renumber true) as [_ H].
  destruct (H ltac:(vm_compute; discriminate) (or_introl eq_refl)
    ltac:(vm_compute; discriminate) eq_refl
    Example_updateVars_move
    ltac:(by intros ? ? ?)
    ltac:(by intros ? ? ?) ltac:(by intros ? ? ? ?) ltac:(by intros ? ? ?)
    ltac:(by intros ?) ltac:(by intros ?) ltac:(by intros ?)
    ltac:(by intros ?) ltac:(by intros ?))
    as (o & i & num & Hcalc & _ & _ & _ & _ & _ & Hdense & Htest).
  injection Hcalc as <- <- <-.
  split; [reflexivity|]. split; [reflexivity|]. split; [reflexivity|].
  split; [|exact Htest].
  intros k Hk. apply Hdense; [|exact Hk].
  apply Nat.lt_le_trans with 3; [exact Hk|apply Nat.le_refl].
Defined.

(** C8 fails as stated: the first of the six variables of this solver is
    assigned, so that the saving is 1/6; not asked to renumber in any case,
    [renumber_variables] completes without a change, and the active
    variable 5 is left at an index that is not below the number of active
    variables, behind the inactive variable 0. *)
Lemma renumbering_counterexample :
  Solver_renumber_variables (RN := Example.renumberer) false Example.sparse
  = Example.sparse
  ∧ var_inactive Example.sparse 0 = true
  ∧ var_inactive Example.sparse 5 = false
  ∧ length (filter (λ i, var_inactive Example.sparse i = false) (seq 0 6))
    = 5
  ∧ ¬ 5 < 5
  ∧ test_renumbering Example.sparse = false.
Proof. repeat split. lia. Qed.

(** ** A run of the model minimiser on the example platform *)

(** Of the three variables on the trail, the clause [x0 ∨ ¬x1] fixes
    variable 0, the loop fixes variable 1, and variable 2 is unset: every
    clause keeps a literal that is true under the model that is left. *)
Lemma model_minimizer_is_sound_witness :
  undefine Example.to_minimise [0; 1; 2]%N
  = Some (Finished (1%N, [l_True; l_True; l_Undef]))
  ∧ (∀ offset, offset ∈ longIrredCls Example.to_minimise →
       ∃ l, l ∈ clause_at Example.to_minimise offset
            ∧ model_value_of [l_True; l_True; l_Undef] l = l_True)
  ∧ (∀ l lit2, (l, lit2) ∈ bin_clauses Example.to_minimise →
       ∃ l', l' ∈ [l; lit2]
             ∧ model_value_of [l_True; l_True; l_Undef] l' = l_True).
Proof.
  pose proof (model_minimizer_is_sound Example.to_minimise [0; 1; 2]%N
    eq_refl eq_refl eq_refl
    ltac:(apply (bool_decide_unpack _); vm_compute; exact I)
    ltac:(apply Forall_forall; repeat constructor)
    ltac:(vm_compute; discriminate) ltac:(vm_compute; discriminate)
    eq_refl eq_refl)
    as (u & U & _ & _ & Hres & _ & _ & Hlong & Hbin).
  assert (E : undefine Example.to_minimise [0; 1; 2]%N
              = Some (Finished (1%N, [l_True; l_True; l_Undef])))
    by (vm_compute; reflexivity).
  rewrite E in Hres. injection Hres as _ Hmodel.
  change (model Example.to_minimise) with [l_True; l_True; l_True]
    in Hlong, Hbin.
  rewrite <- Hmodel in Hlong, Hbin.
  split; [exact E|]. split.
  - intros offset Hoff. destruct (Hlong offset Hoff) as (l & Hl & _ & _ & Ht).
    exists l. split; [exact Hl|exact Ht].
  - intros l lit2 Hin. destruct (Hbin l lit2 Hin) as (l' & Hl & _ & _ & Ht).
    exists l'. split; [exact Hl|exact Ht].
Defined.

(** ** Runs of the further parts on the example platform *)

(** Discharges [∀ l, l ∈ ps → P l] on a list that is written out. *)
Ltac each_listed :=
  apply Forall_forall;
  repeat (constructor; [first [split|idtac]; vm_compute;
                        first [reflexivity|discriminate]|]);
  constructor.

(** The clause [x2 ∨ x1 ∨ x0 ∨ x2] with x1 false: [x0 ∨ x2] is left. *)
Lemma cleaned_clause_is_equivalent_witness :
  StronglySorted var_lt [Example.pos 0; Example.pos 2]
  ∧ (∀ l, l ∈ [Example.pos 0; Example.pos 2]
          ↔ l ∈ [Example.pos 2; Example.pos 1; Example.pos 0; Example.pos 2]
            ∧ value Example.x1_false l = l_Undef)
  ∧ (∀ a, extends a (assigns Example.x1_false) →
          clause_true a [Example.pos 0; Example.pos 2]
          = clause_true a
              [Example.pos 2; Example.pos 1; Example.pos 0; Example.pos 2]).
Proof.
  exact (proj2 (cleaned_clause_is_equivalent Example.x1_false
    Example.x1_false
    [Example.pos 2; Example.pos 1; Example.pos 0; Example.pos 2]
    [Example.pos 0; Example.pos 2] false ltac:(each_listed) eq_refl)).
Defined.

(** The clause [x1 ∨ ¬x1 ∨ x2] is dropped and true under every
    assignment. *)
Lemma dropped_clause_is_satisfied_witness :
  sort_and_clean_clause [Example.pos 1; Example.neg 1; Example.pos 2] false
    (Example.fresh_solver 3)
  = Ret None (mark_must_set (Example.pos 1) (Example.fresh_solver 3))
  ∧ ∀ a, extends a (assigns (Example.fresh_solver 3)) →
         clause_true a [Example.pos 1; Example.neg 1; Example.pos 2] = true.
Proof.
  split; [reflexivity|].
  exact (proj2 (dropped_clause_is_satisfied (Example.fresh_solver 3)
    [Example.pos 1; Example.neg 1; Example.pos 2] false
    ltac:(each_listed))
    (mark_must_set (Example.pos 1) (Example.fresh_solver 3)) eq_refl).
Defined.

(** The unit clause [x1] with x1 false refutes the solver. *)
Lemma falsified_clause_refutes_witness :
  add_clause_int [Example.pos 1] false ClauseStats_default true true false
    lit_Undef Example.x1_false
  = Ret None (set_ok false (set_finalCl_tmp [] Example.x1_false)).
Proof.
  exact (falsified_clause_refutes Example.x1_false [Example.pos 1] false
    ClauseStats_default true true lit_Undef ltac:(each_listed)).
Defined.

(** With x1 false, [x2 ⊕ ¬x1 ⊕ x0 ⊕ x2 ⊕ x0 ⊕ x2 = 1] is cleaned to
    [x2 = 0]. *)
Lemma xor_cleaning_keeps_the_constraint_witness :
  xor_cleaned Example.x1_false
    [Example.pos 2; Example.neg 1; Example.pos 0; Example.pos 2;
     Example.pos 0; Example.pos 2] true
  = ([Example.pos 2], false)
  ∧ ∀ a, extends a (assigns Example.x1_false) →
         xor_parity a [Example.pos 2] = false
         ↔ xor_parity a
             [Example.pos 2; Example.neg 1; Example.pos 0; Example.pos 2;
              Example.pos 0; Example.pos 2] = true.
Proof.
  split; [reflexivity|].
  exact (proj2 (proj2 (xor_cleaning_keeps_the_constraint Example.x1_false
    [Example.pos 2; Example.neg 1; Example.pos 0; Example.pos 2;
     Example.pos 0; Example.pos 2]
    [Example.pos 2] true false ltac:(each_listed) eq_refl))).
Defined.

(** With x1 false, the XOR [x1 = 1] refutes the solver. *)
Lemma emptied_xor_is_settled_witness :
  add_xor_clause_inter [Example.pos 1] true true false Example.x1_false
  = Ret false (set_ok false (drat_fin Example.x1_false)).
Proof.
  exact (proj1 (emptied_xor_is_settled Example.x1_false [Example.pos 1]
    true true true false ltac:(each_listed) eq_refl)).
Defined.

(** The four clauses of the cut [x0 ⊕ x1 ⊕ x2 = 0]. *)
Lemma cut_encodes_even_parity_witness :
  cut_clauses [Example.pos 0; Example.pos 1; Example.pos 2]
  = [[Example.neg 0; Example.pos 1; Example.pos 2];
     [Example.pos 0; Example.neg 1; Example.pos 2];
     [Example.pos 0; Example.pos 1; Example.neg 2];
     [Example.neg 0; Example.neg 1; Example.neg 2]]
  ∧ ∀ a, (∀ c, c ∈ cut_clauses
                     [Example.pos 0; Example.pos 1; Example.pos 2] →
               clause_true a c = true)
         ↔ xor_parity a [Example.pos 0; Example.pos 1; Example.pos 2]
           = false.
Proof.
  split; [reflexivity|].
  exact (proj2 (cut_encodes_even_parity
    [Example.pos 0; Example.pos 1; Example.pos 2] true false
    ltac:(vm_compute; lia))).
Defined.

(** Variable 5 in a solver with two variables. *)
Lemma undeclared_variable_exits_witness :
  add_clause_outer [Example.pos 0; Example.pos 5] false
    (Example.fresh_solver 2) = Exit (-1)
  ∧ add_xor_clause_outer [0; 5]%N true (Example.fresh_solver 2) = Exit (-1).
Proof.
  pose proof (undeclared_variable_exits (Example.fresh_solver 2)
    [Example.pos 0; Example.pos 5] [0; 5]%N false true eq_refl) as [H1 H2].
  split.
  - apply H1. apply Exists_cons_tl, Exists_cons_hd. left.
    vm_compute. discriminate.
  - apply H2. apply Exists_cons_tl, Exists_cons_hd. left.
    vm_compute. discriminate.
Defined.

(** The strategy [foo]. *)
Lemma unknown_token_exits_witness :
  execute_inprocess_strategy true "foo" (Example.fresh_solver 2) = Exit (-1).
Proof.
  exact (proj1 (unknown_token_exits true "foo" "foo" [" "]
    (Example.fresh_solver 2) eq_refl eq_refl)
    ltac:(apply (bool_decide_unpack _); vm_compute; exact I)
    ltac:(vm_compute; discriminate)).
Defined.

(** The strategy of a blank, a comma and a blank. *)
Lemma blank_strategy_does_nothing_witness :
  execute_inprocess_strategy true " , " (Example.fresh_solver 2)
  = Ret true (Example.fresh_solver 2).
Proof.
  exact (blank_strategy_does_nothing true " , " (Example.fresh_solver 2)
    ltac:(repeat constructor)).
Defined.

(** A run of three iterations at most, begun with the burst length 300. *)
Lemma burst_search_len_is_handed_back_witness :
  burst_search_len (conf (Example.fresh_solver 1)) = 300%N
  ∧ ∀ status s',
      iterate_until_solved_with Searcher_solve 3 (Example.fresh_solver 1)
      = Ret status s' →
      burst_search_len (conf s') = 300%N.
Proof.
  split; [reflexivity|].
  exact (proj1 (burst_search_len_is_handed_back Searcher_solve 3
    (Example.fresh_solver 1) eq_refl)).
Defined.

(** A refuted solver with the example configuration answers [l_False]. *)
Lemma solve_starts_with_the_configuration_witness :
  ∃ s', solve 1 (set_ok false (Example.fresh_solver 1)) = Ret l_False s'.
Proof.
  exact (proj2 (solve_starts_with_the_configuration 1
    (set_ok false (Example.fresh_solver 1))
    (λ s0, conj eq_refl eq_refl) (λ s0, eq_refl))
    ltac:(vm_compute; discriminate) eq_refl eq_refl).
Defined.

(** The two maps of the example: each is [0; 3; 4; 1; 2; 5], which swaps
    1 with 3 and 2 with 4. *)
Lemma renumbering_maps_are_inverse_witness :
  calculate_interToOuter_and_outerToInter Example.to_renumber
    (replicate 6 0) (replicate 6 0)
  = ([0; 3; 4; 1; 2; 5], [0; 3; 4; 1; 2; 5], 3)
  ∧ ∀ x k, [0; 3; 4; 1; 2; 5] !! x = Some k
           ↔ [0; 3; 4; 1; 2; 5] !! k = Some x.
Proof.
  split; [reflexivity|].
  exact (proj2 (proj2 (renumbering_maps_are_inverse Example.to_renumber
    (replicate 6 0) (replicate 6 0) [0; 3; 4; 1; 2; 5] [0; 3; 4; 1; 2; 5] 3
    ltac:(vm_compute; discriminate) eq_refl eq_refl eq_refl))).
Defined.



(** The literal [¬x1] is true already: nothing is enqueued. *)
Lemma fully_enqueue_these_answers_ok_witness :
  fully_enqueue_these [Example.neg 1] Example.x1_false
  = Ret true Example.x1_false
  ∧ ok Example.x1_false = true.
Proof.
  split; [reflexivity|].
  exact (proj1 (proj2 (fully_enqueue_these_answers_ok [Example.neg 1]
    Example.x1_false Example.x1_false true eq_refl)) eq_refl).
Defined.

(** The first binary clause of a solver with two variables. *)
Lemma bin_counters_stay_exact_witness :
  ∃ s', attach_bin_clause (Example.pos 0) (Example.pos 1) false
          (Example.fresh_solver 2) = Ret tt s'
        ∧ check_implicit_stats false s' = true.
Proof.
  exact (bin_counters_stay_exact (Example.fresh_solver 2) (Example.pos 0)
    (Example.pos 1) false (λ s0, conj eq_refl eq_refl)
    ltac:(vm_compute; lia) ltac:(vm_compute; lia) eq_refl eq_refl).
Defined.

(** The clause [x2 ∨ x0 ∨ x1] is the first of the arena. *)
Lemma long_clause_is_stored_witness :
  ∃ s', add_clause_int [Example.pos 2; Example.pos 0; Example.pos 1] false
          ClauseStats_default true false false lit_Undef
          (Example.fresh_solver 3) = Ret (Some 0) s'
        ∧ cl_alloc s'
          = [{| cl_lits := [Example.pos 0; Example.pos 1; Example.pos 2];
                cl_red := false; cl_stats := ClauseStats_default;
                cl_strengthened := false |}]
        ∧ clause_at s' 0 = [Example.pos 0; Example.pos 1; Example.pos 2]
        ∧ redLits (litStats s') = 0%N
        ∧ irredLits (litStats s') = 3%N.
Proof.
  exact (long_clause_is_stored (Example.fresh_solver 3)
    [Example.pos 2; Example.pos 0; Example.pos 1]
    [Example.pos 0; Example.pos 1; Example.pos 2] false ClauseStats_default
    true false lit_Undef (λ off s0, conj eq_refl eq_refl) eq_refl
    ltac:(vm_compute; lia)).
Defined.

(** The line [v 1 -2 0] read into a solver with three variables. *)
Lemma parse_v_line_keeps_values_witness :
  ∃ m', parse_v_line [1; -2]%Z VClosed (Example.fresh_solver 3)
        = Ret tt (set_model m' (Example.fresh_solver 3))
        ∧ length m' = 3.
Proof.
  destruct (parse_v_line_keeps_values [1; -2]%Z VClosed
              (Example.fresh_solver 3)
              ltac:(repeat constructor; discriminate))
    as [[H _]|(_ & _ & m' & H1 & H2 & _)].
  - vm_compute in H. discriminate H.
  - exists m'. split; [exact H1|exact H2].
Defined.
